(** * gftools ninja builder: the graph compiler and the InstantiateUFO operation

    A shallow embedding of [Lib/gftools/builder/ninja.py] (class
    [NinjaBuilder]) and of [Lib/gftools/builder/operations/instantiateUfo.py]
    (class [InstantiateUFO]), with the properties of the emitted build graph.

    Python [str] values are modelled as byte strings ([string]); the order
    [sorted] uses on [str] (by code point) coincides with the byte-wise order
    on their UTF-8 encoding.  The configuration dictionary is a [gmap] from
    keys to dynamically typed values.  A method of the builder is a function
    from the builder's state to the state it leaves behind together with
    either the value it returns or the exception it raises. *)

From Stdlib Require Import Ascii.
From Stdlib Require String.
From stdpp Require Import base option list sorting gmap strings.

(** ** Python string primitives *)

Module Str.

(** [s.startswith(p)] *)
Fixpoint startswith (p s : string) : bool :=
  match p, s with
  | EmptyString, _ => true
  | String a p', String b s' => if decide (a = b) then startswith p' s' else false
  | String _ _, EmptyString => false
  end.

(** [sub in s] for two strings. *)
Fixpoint contains (sub s : string) : bool :=
  startswith sub s ||
  match s with
  | EmptyString => false
  | String _ s' => contains sub s'
  end.

(** [s.endswith(p)] *)
Definition endswith (p s : string) : bool :=
  startswith (String.rev p) (String.rev s).

(** The scan of [s.replace(old, new)] for a non-empty [old]: left to
    right, occurrences do not overlap; [skip] counts the characters of the
    occurrence just replaced that are still to be passed over. *)
Fixpoint replace_scan (old new : string) (skip : nat) (s : string) : string :=
  match s with
  | EmptyString => EmptyString
  | String c s' =>
      match skip with
      | S k => replace_scan old new k s'
      | O =>
          if startswith old s
          then new +:+ replace_scan old new (String.length old - 1) s'
          else String c (replace_scan old new 0 s')
      end
  end.

(** With an empty [old], Python inserts [new] before every character and
    at the end. *)
Fixpoint intersperse (new s : string) : string :=
  match s with
  | EmptyString => new
  | String c s' => new +:+ String c (intersperse new s')
  end.

(** [s.replace(old, new)] *)
Definition replace (old new s : string) : string :=
  match old with
  | EmptyString => intersperse new s
  | String _ _ => replace_scan old new 0 s
  end.

(** The scan of [s.split(sep)] for a non-empty [sep]. *)
Fixpoint split_scan (sep : string) (skip : nat) (s : string) : list string :=
  match s with
  | EmptyString => [EmptyString]
  | String c s' =>
      match skip with
      | S k => split_scan sep k s'
      | O =>
          if startswith sep s
          then EmptyString :: split_scan sep (String.length sep - 1) s'
          else match split_scan sep 0 s' with
               | [] => [String c EmptyString]
               | piece :: pieces => String c piece :: pieces
               end
      end
  end.

(** [s.split(sep)]; Python raises [ValueError] on an empty separator,
    which is [None] here. *)
Definition split (sep s : string) : option (list string) :=
  match sep with
  | EmptyString => None
  | String _ _ => Some (split_scan sep 0 s)
  end.

(** [sep.join(l)] *)
Fixpoint join (sep : string) (l : list string) : string :=
  match l with
  | [] => EmptyString
  | [x] => x
  | x :: l' => x +:+ sep +:+ join sep l'
  end.

(** [s.lower()] on the ASCII letters; bytes outside [A-Z] are kept. *)
Definition lower_char (c : ascii) : ascii :=
  let n := nat_of_ascii c in
  if (65 <=? n)%nat && (n <=? 90)%nat then ascii_of_nat (n + 32) else c.

Fixpoint lower (s : string) : string :=
  match s with
  | EmptyString => EmptyString
  | String c s' => String (lower_char c) (lower s')
  end.

(** [s.rfind(".")]: the index of the last dot, [None] for Python's -1. *)
Fixpoint rfind_dot (s : string) : option nat :=
  match s with
  | EmptyString => None
  | String c s' =>
      match rfind_dot s' with
      | Some i => Some (S i)
      | None => if decide (c = "."%char) then Some 0%nat else None
      end
  end.

(** [s[:i]] and [s[i:]] *)
Fixpoint take (i : nat) (s : string) : string :=
  match i, s with
  | S i', String c s' => String c (take i' s')
  | _, _ => EmptyString
  end.

Fixpoint drop (i : nat) (s : string) : string :=
  match i, s with
  | S i', String _ s' => drop i' s'
  | _, _ => s
  end.

(** [s.lstrip("/")] together with the number of characters stripped. *)
Fixpoint lstrip_slash (s : string) : nat * string :=
  match s with
  | String "/"%char s' => let '(n, r) := lstrip_slash s' in (S n, r)
  | _ => (0%nat, s)
  end.

(** [sorted(l)] on a list of strings.  The order is total and equal
    strings are indistinguishable, so the sorting algorithm does not show
    in the result. *)
Definition sorted (l : list string) : list string :=
  merge_sort String.le l.
End Str.

(** ** Paths: [os.path] and [pathlib.PurePosixPath] *)

Module OsPath.

(** [os.path.join(a, b)] *)
Definition join (a b : string) : string :=
  if Str.startswith "/" b then b
  else if decide (a = "") then a +:+ b
  else if Str.endswith "/" a then a +:+ b
  else a +:+ "/" +:+ b.

(** The part of [p] after its last slash. *)
Fixpoint after_last_slash (p : string) : string :=
  match p with
  | EmptyString => EmptyString
  | String c p' =>
      if Str.contains "/" p' then after_last_slash p'
      else if decide (c = "/"%char) then p' else p
  end.

(** [os.path.basename(p)] *)
Definition basename (p : string) : string :=
  if Str.contains "/" p then after_last_slash p else p.

(** [os.path.dirname(p)]: the part up to the last slash, with the
    trailing slashes removed unless it consists of slashes only. *)
Definition rstrip_slash (s : string) : string :=
  String.rev (snd (Str.lstrip_slash (String.rev s))).

Definition dirname (p : string) : string :=
  let head := Str.take (String.length p - String.length (basename p)) p in
  if decide (rstrip_slash head = "") then head else rstrip_slash head.
End OsPath.

Module Path.

(** A parsed POSIX path: the root (empty, one slash or two) and the
    components after it. *)
Record t := mk { root : string; parts : list string }.

Definition splitroot (part : string) : string * string :=
  match part with
  | String "/"%char _ =>
      let '(n, stripped) := Str.lstrip_slash part in
      if decide (n = 2%nat) then ("//", stripped) else ("/", stripped)
  | _ => ("", part)
  end.

(** The components kept by the parser: neither empty nor a single dot. *)
Definition keep (x : string) : bool :=
  negb (bool_decide (x = "")) && negb (bool_decide (x = ".")).

(** [Path(s)] *)
Definition parse (s : string) : t :=
  let '(r, rel) := splitroot s in
  mk r (filter (fun x => keep x = true) (Str.split_scan "/" 0 rel)).

(** [str(p)] *)
Definition to_str (p : t) : string :=
  let s := root p +:+ Str.join "/" (parts p) in
  if decide (s = "") then "." else s.

(** [p.name] *)
Definition name (p : t) : string := List.last (parts p) "".

(** [p.parent] *)
Definition parent (p : t) : t := mk (root p) (removelast (parts p)).

(** [p / key] for a string [key] *)
Definition div (p : t) (key : string) : t :=
  let k := parse key in
  if decide (root k = "") then mk (root p) (parts p ++ parts k) else k.

(** [p.suffix] *)
Definition suffix (p : t) : string :=
  let n := name p in
  match Str.rfind_dot n with
  | Some i =>
      if decide (0 < i ∧ i < String.length n - 1)%nat then Str.drop i n else ""
  | None => ""
  end.

(** [p.stem] *)
Definition stem (p : t) : string :=
  let n := name p in
  match Str.rfind_dot n with
  | Some i =>
      if decide (0 < i ∧ i < String.length n - 1)%nat then Str.take i n else n
  | None => n
  end.

(** [p.with_suffix(sfx)]; [None] is the [ValueError] of an invalid suffix
    (one with a slash, one that does not start with a dot, a lone dot) or
    of a path with an empty name. *)
Definition with_suffix (sfx : string) (p : t) : option t :=
  let n := name p in
  if Str.contains "/" sfx then None
  else if negb (bool_decide (sfx = "")) && negb (Str.startswith "." sfx) then None
  else if decide (sfx = ".") then None
  else if decide (n = "") then None
  else
    let n' := Str.take (String.length n - String.length (suffix p)) n +:+ sfx in
    Some (mk (root p) (removelast (parts p) ++ [n'])).
End Path.

(** ** Values, design descriptions and the graph description *)

(** The values a configuration key can hold.  [VOther] stands for any other
    structured value (the [stat] tables), given by its [str()] rendering and
    its truth value. *)
Inductive pyval :=
  | VNone
  | VBool (b : bool)
  | VStr (s : string)
  | VSeq (l : list string)
  | VMap (m : list (string * string))
  | VOther (rendering : string) (truth : bool).

Global Instance pyval_eq_dec : EqDecision pyval.
Proof. solve_decision. Defined.

(** Python's truth value of an object. *)
Definition truthy (v : pyval) : bool :=
  match v with
  | VNone => false
  | VBool b => b
  | VStr s => negb (bool_decide (s = ""))
  | VSeq l => negb (bool_decide (l = []))
  | VMap m => negb (bool_decide (m = []))
  | VOther _ t => t
  end.

(** [str(v)], as an f-string renders it.  The quoting of [repr] is the one
    of strings without quotes, backslashes or control characters. *)
Definition py_repr (s : string) : string := "'" +:+ s +:+ "'".

Definition py_str (v : pyval) : string :=
  match v with
  | VNone => "None"
  | VBool true => "True"
  | VBool false => "False"
  | VStr s => s
  | VSeq l => "[" +:+ Str.join ", " (py_repr <$> l) +:+ "]"
  | VMap m =>
      "{" +:+ Str.join ", " ((fun kv => py_repr kv.1 +:+ ": " +:+ py_repr kv.2) <$> m)
          +:+ "}"
  | VOther r _ => r
  end.

(** [fontTools.designspaceLib]: the parts of a designspace document the
    builder reads. *)
Record AxisDescriptor := { tag : string; axis_name : string }.
Record SourceDescriptor := { source_filename : string }.
Record InstanceDescriptor := { name : string; filename : option string }.
Record DesignSpaceDocument := {
  ds_filename : string;
  axes : list AxisDescriptor;
  sources : list SourceDescriptor;
  instances : list InstanceDescriptor
}.

(** One build statement of the graph: [Writer.build(outputs, rule, inputs,
    implicit=..., variables=...)]. *)
Record Edge := {
  outputs : list string;
  rule : string;
  inputs : list string;
  implicit : list string;
  variables : list (string * pyval)
}.

Global Instance Edge_eq_dec : EqDecision Edge.
Proof. solve_decision. Defined.

(** What [ninja_syntax.Writer] has been asked to write, in order. *)
Inductive statement :=
  | Comment (text : string)
  | Newline
  | Rule (rule_name command : string)
  | Build (e : Edge).

Global Instance statement_eq_dec : EqDecision statement.
Proof. solve_decision. Defined.

Record Writer := { output : list statement; closed : bool }.

(** The exceptions that leave the builder. *)
Inductive exn :=
  | NotImplementedError (msg : string)
  | ValueError (msg : string)
  | KeyError (key : string)
  | TypeError (msg : string)
  | IndexError (msg : string)
  | AttributeError (msg : string)
  | UnboundLocalError (var : string)
  | FileNotFoundError (path : string)
  | AssertionError.

Global Instance exn_eq_dec : EqDecision exn.
Proof. solve_decision. Defined.

(** ** The builder's state

    The attributes of a [NinjaBuilder] object ([config], [logger], and the
    attributes [build] assigns: [w], [temporaries], [designspaces]; an
    attribute not yet assigned is [None]) and the paths that exist on disk. *)
Record NinjaBuilder := {
  config : gmap string pyval;
  logger : list string;
  w : option Writer;
  temporaries : option (list string);
  designspaces : option (list (string * DesignSpaceDocument));
  disk : gset string
}.

Definition set_config (f : gmap string pyval → gmap string pyval) (st : NinjaBuilder) :=
  {| config := f (config st); logger := logger st; w := w st;
     temporaries := temporaries st; designspaces := designspaces st; disk := disk st |}.
Definition set_logger (f : list string → list string) (st : NinjaBuilder) :=
  {| config := config st; logger := f (logger st); w := w st;
     temporaries := temporaries st; designspaces := designspaces st; disk := disk st |}.
Definition set_w (x : option Writer) (st : NinjaBuilder) :=
  {| config := config st; logger := logger st; w := x;
     temporaries := temporaries st; designspaces := designspaces st; disk := disk st |}.
Definition set_temporaries (x : option (list string)) (st : NinjaBuilder) :=
  {| config := config st; logger := logger st; w := w st;
     temporaries := x; designspaces := designspaces st; disk := disk st |}.
Definition set_designspaces (x : option (list (string * DesignSpaceDocument)))
    (st : NinjaBuilder) :=
  {| config := config st; logger := logger st; w := w st;
     temporaries := temporaries st; designspaces := x; disk := disk st |}.
Definition set_disk (f : gset string → gset string) (st : NinjaBuilder) :=
  {| config := config st; logger := logger st; w := w st;
     temporaries := temporaries st; designspaces := designspaces st; disk := f (disk st) |}.

(** ** Methods as state transformers that may raise *)

Definition M (A : Type) : Type := NinjaBuilder → NinjaBuilder * (exn + A).

Definition ret {A} (a : A) : M A := fun st => (st, inr a).
Definition raise {A} (e : exn) : M A := fun st => (st, inl e).
Definition bind {A B} (m : M A) (k : A → M B) : M B :=
  fun st =>
    match m st with
    | (st', inr a) => k a st'
    | (st', inl e) => (st', inl e)
    end.

Declare Scope py_scope.
Delimit Scope py_scope with py.
Notation "x <- m ;; k" := (bind m (fun x => k))
  (at level 100, m at next level, right associativity) : py_scope.
Notation "m ;; k" := (bind m (fun _ => k))
  (at level 100, right associativity) : py_scope.
Local Open Scope py_scope.

(** [for x in l: body(x)] *)
Fixpoint for_each {A} (l : list A) (body : A → M unit) : M unit :=
  match l with
  | [] => ret tt
  | x :: l' => body x ;; for_each l' body
  end.

Definition get {A} (f : NinjaBuilder → A) : M A := fun st => (st, inr (f st)).
Definition modify (f : NinjaBuilder → NinjaBuilder) : M unit := fun st => (f st, inr tt).

(** Reading an attribute that [build] has not assigned yet. *)
Definition attribute {A} (attr : string) (f : NinjaBuilder → option A) : M A :=
  fun st =>
    match f st with
    | Some a => (st, inr a)
    | None => (st, inl (AttributeError attr))
    end.

(** [self.config[key]] *)
Definition config_item (key : string) : M pyval :=
  fun st =>
    match config st !! key with
    | Some v => (st, inr v)
    | None => (st, inl (KeyError key))
    end.

(** [self.config.get(key)] *)
Definition config_get (key : string) : M pyval :=
  fun st => (st, inr (default VNone (config st !! key))).

(** [key in self.config] *)
Definition config_has (key : string) : M bool :=
  fun st => (st, inr (bool_decide (is_Some (config st !! key)))).

(** A configuration value used where Python needs a [str]. *)
Definition as_str (v : pyval) : M string :=
  match v with
  | VStr s => ret s
  | _ => raise (TypeError "expected str")
  end.

(** [self.logger.error(msg)] *)
Definition logger_error (msg : string) : M unit :=
  modify (set_logger (fun l => l ++ [msg])).

(** Writing through [self.w]. *)
Definition write (s : statement) : M unit :=
  wr <- attribute "w" w ;;
  if closed wr then raise (ValueError "I/O operation on closed file")
  else modify (set_w (Some {| output := output wr ++ [s]; closed := false |})).

Definition w_comment (text : string) : M unit := write (Comment text).
Definition w_newline : M unit := write Newline.
Definition w_rule (rule_name command : string) : M unit := write (Rule rule_name command).

(** [Writer.build] takes a string or a list for [outputs], [inputs] and
    [implicit] ([as_list]), and leaves out an [implicit] that is false
    ([None] or the empty string). *)
Definition as_list (x : string) : list string := [x].
Definition implicit_arg (x : option string) : list string :=
  match x with
  | Some s => if decide (s = "") then [] else [s]
  | None => []
  end.

Definition w_build (outs : list string) (r : string) (ins imp : list string)
    (vars : list (string * pyval)) : M unit :=
  write (Build {| outputs := outs; rule := r; inputs := ins; implicit := imp;
                  variables := vars |}).

(** [self.w.close()] *)
Definition w_close : M unit :=
  wr <- attribute "w" w ;;
  modify (set_w (Some {| output := output wr; closed := true |})).

(** [self.temporaries.append(x)] *)
Definition temporaries_append (x : string) : M unit :=
  ts <- attribute "temporaries" temporaries ;;
  modify (set_temporaries (Some (ts ++ [x]))).

(** ** [class NinjaBuilder(GFBuilder)] *)

(** What the builder reads from outside: the designspace files on disk
    ([DesignSpaceDocument.fromfile]), the minimal designspace glyphsLib
    derives from a Glyphs source ([UFOBuilder(GSFont(source)).designspace]),
    and the effect on the disk of running the executor on a graph
    ([ninja._program("ninja", args)]). *)
Record Env := {
  designspace_files : gmap string DesignSpaceDocument;
  glyphs_files : gmap string DesignSpaceDocument;
  ninja_program : list statement → list string → gset string → gset string
}.

Definition UNSUPPORTED : list string :=
  ["stylespaceFile"; "statFormat4"; "ttfaUseScript"; "vttSources"].

(** The members of the module [os] the builder names. *)
Inductive os_member := OsPathModule | OsRemove | OsMakedirs.

Definition os_getattr (attr : string) : exn + os_member :=
  if decide (attr = "path") then inr OsPathModule
  else if decide (attr = "remove") then inr OsRemove
  else if decide (attr = "makedirs") then inr OsMakedirs
  else inl (AttributeError ("module 'os' has no attribute '" +:+ attr +:+ "'")).

(** [m.exists]: only [os.path] has it. *)
Definition member_exists (m : os_member) : exn + (string → gset string → bool) :=
  match m with
  | OsPathModule => inr (fun p d => bool_decide (p ∈ d))
  | _ => inl (AttributeError "'builtin_function_or_method' object has no attribute 'exists'")
  end.

Definition lift {A} (r : exn + A) : M A :=
  match r with
  | inr a => ret a
  | inl e => raise e
  end.

(** Iterating over a configuration value. *)
Definition iterate (v : pyval) : M (list string) :=
  match v with
  | VSeq l => ret l
  | VStr s => ret ((fun c => String c EmptyString) <$> String.list_ascii_of_string s)
  | VMap m => ret (fst <$> m)
  | _ => raise (TypeError "object is not iterable")
  end.

Section NinjaBuilder.

Variable env : Env.

(** [setup_rules] *)
Definition setup_rules : M unit :=
  w_comment "Rules" ;;
  w_newline ;;
  w_comment "Convert glyphs file to UFO" ;;
  w_rule "glyphs2ufo" "fontmake -o ufo -g $in" ;;
  buildVariable <- config_item "buildVariable" ;;
  (if truthy buildVariable then
     w_comment "Build a variable font from Designspace" ;;
     w_rule "variable" "fontmake -o variable -m $in $fontmake_args"
   else ret tt) ;;
  w_comment "Build a set of instance UFOs from Designspace" ;;
  w_rule "instanceufo" "fontmake -i -o ufo -m $in $fontmake_args" ;;
  w_comment "Build a TTF file from a UFO" ;;
  w_rule "buildttf" "fontmake -o ttf -u $in $fontmake_args --output-path $out" ;;
  w_comment "Build an OTF file from a UFO" ;;
  w_rule "buildotf" "fontmake -o otf -u $in $fontmake_args --output-path $out" ;;
  w_comment "Add a STAT table to a set of variable fonts" ;;
  w_rule "genstat"
    "gftools-gen-stat.py --inplace $other_args --axis-order $axis_order -- $in  && touch $stampfile" ;;
  w_comment "Run the font fixer in-place and touch a stamp file" ;;
  w_rule "fix" "gftools-fix-font.py -o $in $fixargs $in && touch $in.fixstamp" ;;
  w_comment "Run the ttfautohint in-place and touch a stamp file" ;;
  w_rule "autohint"
    "ttfautohint $in $in.autohinted && mv $in.autohinted $in && touch $in.autohintstamp" ;;
  w_comment "Create a web font" ;;
  w_rule "webfont" "fonttools ttLib.woff2 compress -o $out $in" ;;
  w_newline.

(** [self.designspaces.append(x)] *)
Definition designspaces_append (x : string * DesignSpaceDocument) : M unit :=
  ds <- attribute "designspaces" designspaces ;;
  modify (set_designspaces (Some (ds ++ [x]))).

(** [os.makedirs(d, exist_ok=True)] and [designspace.write(path)], as far
    as the paths they create. *)
Definition os_makedirs_exist_ok (d : string) : M unit :=
  if decide (d = "") then raise (FileNotFoundError d)
  else modify (set_disk (fun files => files ∪ {[d]})).

Definition designspace_write (path : string) : M unit :=
  modify (set_disk (fun files => files ∪ {[path]})).

(** The body of the loop of [get_designspaces]. *)
Definition get_designspace (source : string) : M unit :=
  entry <-
    (if Str.endswith ".glyphs" source then
       match glyphs_files env !! source with
       | None => raise (FileNotFoundError source)
       | Some designspace =>
           let designspace_path := OsPath.join "master_ufo" (ds_filename designspace) in
           os_makedirs_exist_ok (OsPath.dirname designspace_path) ;;
           designspace_write designspace_path ;;
           w_comment "Convert glyphs source to designspace" ;;
           let designspace_and_ufos :=
             [designspace_path] ++
             elements (list_to_set
               ((fun m => OsPath.join "master_ufo" (source_filename m))
                  <$> sources designspace) : gset string) in
           w_build designspace_and_ufos "glyphs2ufo" (as_list source) [] [] ;;
           ret (designspace_path, designspace)
       end
     else
       let designspace_path := source in
       match designspace_files env !! designspace_path with
       | None => raise (FileNotFoundError designspace_path)
       | Some designspace => ret (designspace_path, designspace)
       end) ;;
  designspaces_append entry.

(** [get_designspaces] *)
Definition get_designspaces : M unit :=
  modify (set_designspaces (Some [])) ;;
  srcs <- config_item "sources" ;;
  srcs <- iterate srcs ;;
  for_each srcs get_designspace ;;
  w_newline.

(** [fontmake_args(args)] *)
Definition fontmake_args (args : gmap string string) : M string :=
  let my_args := ["--filter ..."] in
  flattenComponents <- config_item "flattenComponents" ;;
  let my_args :=
    if truthy flattenComponents
    then my_args ++ ["--filter FlattenComponentsFilter"] else my_args in
  decompose <- config_item "decomposeTransformedComponents" ;;
  let my_args :=
    if truthy decompose
    then my_args ++ ["--filter DecomposeTransformedComponentsFilter"] else my_args in
  let my_args :=
    match args !! "output_dir" with
    | Some d => my_args ++ ["--output-dir " +:+ d]
    | None => my_args
    end in
  let my_args :=
    match args !! "output_path" with
    | Some p => my_args ++ ["--output-path " +:+ p]
    | None => my_args
    end in
  ret (Str.join " " my_args).

(** [post_process(file, implicit=None)] *)
Definition post_process (file : string) (implicit : option string) : M unit :=
  includeSourceFixes <- config_item "includeSourceFixes" ;;
  let variables :=
    if truthy includeSourceFixes
    then [("fixargs", VStr "--include-source-fixes")] else [] in
  temporaries_append (file +:+ ".fixstamp") ;;
  w_build (as_list (file +:+ ".fixstamp")) "fix" (as_list file)
          (implicit_arg implicit) variables.

(** [any("italic" in x[0].lower() for x in self.designspaces)] *)
Definition any_italic (ds : list (string * DesignSpaceDocument)) : bool :=
  existsb (fun x => Str.contains "italic" (Str.lower x.1)) ds.

(** [gen_stat(axis_tags, targets)] *)
Definition gen_stat (axis_tags : string) (targets : list string) : M string :=
  w_comment "Generate STAT tables" ;;
  has_axisOrder <- config_has "axisOrder" ;;
  (if negb has_axisOrder then
     order <- lift (from_option inr (inl (ValueError "empty separator"))
                      (Str.split "," axis_tags)) ;;
     modify (set_config (insert "axisOrder" (VSeq order))) ;;
     ds <- attribute "designspaces" designspaces ;;
     if any_italic ds
     then modify (set_config (insert "axisOrder" (VSeq (order ++ ["ital"]))))
     else ret tt
   else ret tt) ;;
  has_stat <- config_has "stat" ;;
  other_args <-
    (if has_stat then
       stat <- config_item "stat" ;;
       ret ("--src " +:+ py_str stat)
     else ret "") ;;
  has_stylespaceFile <- config_has "stylespaceFile" ;;
  has_statFormat4 <- config_has "statFormat4" ;;
  (if has_stylespaceFile || has_statFormat4
   then raise (ValueError "Stylespace files / statFormat4 not supported in Ninja mode")
   else ret tt) ;;
  stampfile <-
    match targets with
    | t0 :: _ => ret (t0 +:+ ".statstamp")
    | [] => raise (IndexError "list index out of range")
    end ;;
  temporaries_append stampfile ;;
  axisOrder <- config_item "axisOrder" ;;
  w_build (as_list stampfile) "genstat" targets []
          [("axis_order", axisOrder); ("other_args", VStr other_args);
           ("stampfile", VStr stampfile)] ;;
  w_newline ;;
  ret stampfile.

(** The target of one designspace in [build_variable]. *)
Definition axis_tags_of (designspace : DesignSpaceDocument) : string :=
  Str.join "," (Str.sorted (tag <$> axes designspace)).

Definition variable_target (vfDir designspace_path axis_tags : string) : string :=
  OsPath.join vfDir
    (Path.stem (Path.parse designspace_path) +:+ "[" +:+ axis_tags +:+ "].ttf").

(** The first loop of [build_variable]; the local variables [axis_tags]
    (unbound until the first round) and [targets] are threaded through. *)
Fixpoint build_variable_loop (ds : list (string * DesignSpaceDocument))
    (axis_tags : option string) (targets : list string)
    : M (option string * list string) :=
  match ds with
  | [] => ret (axis_tags, targets)
  | (designspace_path, designspace) :: rest =>
      let axis_tags := axis_tags_of designspace in
      vfDir <- config_item "vfDir" ;;
      vfDir <- as_str vfDir ;;
      let target := variable_target vfDir designspace_path axis_tags in
      args <- fontmake_args {[ "output_path" := target ]} ;;
      w_build (as_list target) "variable" (as_list designspace_path) []
              [("fontmake_args", VStr args)] ;;
      build_variable_loop rest (Some axis_tags) (targets ++ [target])
  end.

(** [build_variable] *)
Definition build_variable : M unit :=
  w_newline ;;
  w_comment "VARIABLE FONTS" ;;
  w_newline ;;
  ds <- attribute "designspaces" designspaces ;;
  locals <- build_variable_loop ds None [] ;;
  let '(axis_tags, targets) := locals in
  w_newline ;;
  axis_tags <- lift (from_option inr (inl (UnboundLocalError "axis_tags")) axis_tags) ;;
  stampfile <- gen_stat axis_tags targets ;;
  w_comment "Variable font post-processing" ;;
  for_each targets (fun t => post_process t (Some stampfile)).

(** [_instance_ufo_filenames(path, designspace)] *)
Definition instance_ufo_filename (path : string) (instance : InstanceDescriptor)
    : exn + Path.t :=
  match filename instance with
  | None => inl (TypeError "argument of type 'NoneType' is not iterable")
  | Some fn =>
      if Str.contains "/" fn then inr (Path.parse fn)
      else inr (Path.div (Path.parent (Path.parse path)) fn)
  end.

Fixpoint collect {A B} (f : A → exn + B) (l : list A) : exn + list B :=
  match l with
  | [] => inr []
  | x :: l' =>
      match f x with
      | inl e => inl e
      | inr y =>
          match collect f l' with
          | inl e => inl e
          | inr ys => inr (y :: ys)
          end
      end
  end.

Definition _instance_ufo_filenames (path : string) (designspace : DesignSpaceDocument)
    : exn + list Path.t :=
  collect (instance_ufo_filename path) (instances designspace).

(** [instantiate_static_fonts]: [pass] *)
Definition instantiate_static_fonts (directory : pyval)
    (postprocessor : string → M unit) : M unit := ret tt.

(** The loops of [build_a_static_format], threading the local [targets]. *)
Fixpoint build_format_ufos (format : string) (target_dir : pyval)
    (ufos : list Path.t) (targets : list string) : M (list string) :=
  match ufos with
  | [] => ret targets
  | ufo :: rest =>
      dir <- as_str target_dir ;;
      renamed <- lift (from_option inr (inl (ValueError "Invalid suffix or empty name"))
                         (Path.with_suffix ("." +:+ format) ufo)) ;;
      let target := Path.to_str (Path.div (Path.parse dir) (Path.name renamed)) in
      args <- fontmake_args {[ "output_path" := target ]} ;;
      w_build (as_list target) ("build" +:+ format) (as_list (Path.to_str ufo)) []
              [("fontmake_args", VStr args)] ;;
      build_format_ufos format target_dir rest (targets ++ [target])
  end.

Fixpoint build_format_loop (format : string) (target_dir : pyval)
    (ds : list (string * DesignSpaceDocument)) (targets : list string)
    : M (list string) :=
  match ds with
  | [] => ret targets
  | (path, designspace) :: rest =>
      w_comment (" " +:+ path) ;;
      ufos <- lift (_instance_ufo_filenames path designspace) ;;
      targets <- build_format_ufos format target_dir ufos targets ;;
      build_format_loop format target_dir rest targets
  end.

(** [build_a_static_format(format, directory, postprocessor)] *)
Definition build_a_static_format (format : string) (directory : pyval)
    (postprocessor : string → M unit) : M unit :=
  w_comment ("Build " +:+ format +:+ " format") ;;
  w_newline ;;
  target_dir <-
    (if decide (format = "ttf") then config_item "ttDir" else config_item "otDir") ;;
  ds <- attribute "designspaces" designspaces ;;
  targets <- build_format_loop format target_dir ds [] ;;
  w_newline ;;
  w_comment ("Post-processing " +:+ format +:+ "s") ;;
  for_each targets postprocessor ;;
  w_newline.

(** [post_process_ttf(filename)] *)
Definition post_process_ttf (filename : string) : M unit :=
  autohintTTF <- config_item "autohintTTF" ;;
  (if truthy autohintTTF then
     ttfaUseScript <- config_item "ttfaUseScript" ;;
     (if truthy ttfaUseScript
      then raise (NotImplementedError "ttaUseScript not supported in ninja mode")
      else ret tt) ;;
     w_build (as_list (filename +:+ ".autohintstamp")) "autohint" (as_list filename) [] [] ;;
     temporaries_append (filename +:+ ".autohintstamp") ;;
     post_process filename (Some (filename +:+ ".autohintstamp"))
   else post_process filename None) ;;
  buildWebfont <- config_item "buildWebfont" ;;
  if truthy buildWebfont then
    ttDir <- config_item "ttDir" ;;
    woffDir <- config_item "woffDir" ;;
    ttDir <- as_str ttDir ;;
    woffDir <- as_str woffDir ;;
    let webfont_filename :=
      Str.replace ttDir woffDir (Str.replace ".ttf" ".woff2" filename) in
    w_build (as_list webfont_filename) "webfont" (as_list filename)
            (implicit_arg (Some (filename +:+ ".fixstamp"))) []
  else ret tt.

(** [build_vtt(font_dir)] *)
Definition build_vtt (font_dir : pyval) : M unit := raise (NotImplementedError "").

(** Modelled from the spec: [GFBuilder.build_static], the method of the
    base class (in [gftools/builder/__init__.py], which is not among the
    sources) that [build_static] ends with.  "For each requested output
    format: emit one compile edge per instance master, producing the binary
    under the format's configured directory; then apply format-specific
    post-processing": the format with hinting support (TTF) is
    post-processed by [post_process_ttf], the other one (OTF) by
    [post_process]. *)
Definition GFBuilder_build_static : M unit :=
  buildTTF <- config_item "buildTTF" ;;
  (if truthy buildTTF then
     ttDir <- config_item "ttDir" ;;
     build_a_static_format "ttf" ttDir post_process_ttf
   else ret tt) ;;
  buildOTF <- config_item "buildOTF" ;;
  (if truthy buildOTF then
     otDir <- config_item "otDir" ;;
     build_a_static_format "otf" otDir (fun file => post_process file None)
   else ret tt).

(** The body of the loop of [build_static]: the instantiate edge of one
    designspace. *)
Definition interpolate_ufos (entry : string * DesignSpaceDocument) : M unit :=
  let '(path, designspace) := entry in
  w_comment ("  Interpolate UFOs for " +:+ OsPath.basename path) ;;
  ufos <- lift (_instance_ufo_filenames path designspace) ;;
  w_build (Path.to_str <$> ufos) "instanceufo" (as_list path) [] [] ;;
  w_newline.

(** [build_static] *)
Definition build_static : M unit :=
  w_newline ;;
  w_comment "STATIC FONTS" ;;
  w_newline ;;
  ds <- attribute "designspaces" designspaces ;;
  for_each ds interpolate_ufos ;;
  GFBuilder_build_static.

(** The loop at the head of [build]: a key of [UNSUPPORTED] whose value
    is true sends the caller back to the classic builder. *)
Definition check_unsupported : M unit :=
  for_each UNSUPPORTED (fun unsupported_key =>
    v <- config_get unsupported_key ;;
    if truthy v then
      logger_error (unsupported_key +:+
        " configuration parameter not supported by ninja builder, " +:+
        "falling back to classic GFBuilder") ;;
      raise (NotImplementedError "")
    else ret tt).

(** [Writer(open("build.ninja", "w"))] *)
Definition open_build_ninja : M unit :=
  modify (set_disk (fun files => files ∪ {["build.ninja"]})) ;;
  modify (set_w (Some {| output := []; closed := false |})).

(** The part of [build] that writes the graph, up to [self.w.close()]. *)
Definition write_graph : M unit :=
  open_build_ninja ;;
  modify (set_temporaries (Some [])) ;;
  setup_rules ;;
  get_designspaces ;;
  buildVariable <- config_item "buildVariable" ;;
  (if truthy buildVariable then
     build_variable ;;
     has_vtt <- config_has "vttSources" ;;
     if (has_vtt : bool) then vfDir <- config_item "vfDir" ;; build_vtt vfDir else ret tt
   else ret tt) ;;
  buildStatic <- config_item "buildStatic" ;;
  (if truthy buildStatic then
     build_static ;;
     has_vtt <- config_has "vttSources" ;;
     if (has_vtt : bool) then ttDir <- config_item "ttDir" ;; build_vtt ttDir else ret tt
   else ret tt) ;;
  w_close.

(** [ninja._program("ninja", ninja_args)]: the executor reads the graph
    file and runs it; its exit status is dropped. *)
Definition run_ninja (ninja_args : list string) : M unit :=
  wr <- attribute "w" w ;;
  modify (set_disk (ninja_program env (output wr) ninja_args)).

(** [os.remove(path)] *)
Definition os_remove (path : string) : M unit :=
  present <- get (fun st => bool_decide (path ∈ disk st)) ;;
  if (present : bool) then modify (set_disk (fun files => files ∖ {[path]}))
  else raise (FileNotFoundError path).

(** The loop "Tidy up stamp files" at the end of [build]. *)
Definition tidy_up : M unit :=
  ts <- attribute "temporaries" temporaries ;;
  for_each ts (fun temporary =>
    os_file <- lift (os_getattr "file") ;;
    os_file_exists <- lift (member_exists os_file) ;;
    present <- get (fun st => os_file_exists temporary (disk st)) ;;
    if (present : bool) then os_remove temporary else ret tt).

(** [build] *)
Definition build : M unit :=
  check_unsupported ;;
  write_graph ;;
  logLevel <- config_item "logLevel" ;;
  let ninja_args :=
    if decide (logLevel = VStr "DEBUG") then ["-v"; "-j"; "1"] else [] in
  run_ninja ninja_args ;;
  tidy_up.
End NinjaBuilder.

(** ** [class InstantiateUFO(FontmakeOperationBase)] *)

Module InstantiateUFO.

(** [gftools.builder.file.File] as the operation reads its first source:
    the path, whether it is a Glyphs source, and the instances it
    declares. *)
Record File := { path : string; is_glyphs : bool; file_instances : list InstanceDescriptor }.

(** The operation: the step of the recipe it was made from ([original]),
    its first source, and the slot [cached_property] fills on the first
    access to [relevant_instance]. *)
Record t := {
  original : gmap string string;
  first_source : File;
  relevant_instance_cache : option (option InstanceDescriptor)
}.

Definition Op (A : Type) : Type := t → t * (exn + A).

(** [relevant_instance], a [cached_property]. *)
Definition relevant_instance : Op (option InstanceDescriptor) :=
  fun self =>
    match relevant_instance_cache self with
    | Some cached => (self, inr cached)
    | None =>
        match original self !! "instance_name" with
        | None => (self, inl (KeyError "instance_name"))
        | Some desired =>
            let relevant :=
              filter (fun i => name i = desired) (file_instances (first_source self)) in
            let result := head relevant in
            ({| original := original self; first_source := first_source self;
                relevant_instance_cache := Some result |}, inr result)
        end
    end.

(** [validate] *)
Definition validate : Op unit :=
  fun self =>
    match original self !! "instance_name" with
    | None => (self, inl (ValueError "No instance name specified"))
    | Some desired =>
        match original self !! "target" with
        | Some _ => (self, inr tt)
        | None =>
            match relevant_instance self with
            | (self', inl e) => (self', inl e)
            | (self', inr None) =>
                (self', inl (ValueError ("Instance " +:+ desired +:+ " not found in "
                                           +:+ path (first_source self'))))
            | (self', inr (Some _)) => (self', inr tt)
            end
        end
    end.

(** [targets]: the paths of the [File]s of the list it returns. *)
Definition targets : Op (list string) :=
  fun self =>
    match original self !! "target" with
    | Some target => (self, inr [target])
    | None =>
        match relevant_instance self with
        | (self', inl e) => (self', inl e)
        | (self', inr None) => (self', inl AssertionError)
        | (self', inr (Some instance)) =>
            match filename instance with
            | None => (self', inl AssertionError)
            | Some fn =>
                if is_glyphs (first_source self')
                then (self', inr ["instance_ufos/" +:+ OsPath.basename fn])
                else (self', inr [fn])
            end
        end
    end.

(** [variables], over the variables of the base class ([super().variables]). *)
Definition variables (super_variables : gmap string string)
    : Op (gmap string string) :=
  fun self =>
    let vars := super_variables in
    match
      (if is_glyphs (first_source self) then
         match vars !! "fontmake_args" with
         | Some a => inr (<["fontmake_args" := a +:+ "--instance-dir instance_ufos/ "]> vars)
         | None => inl (KeyError "fontmake_args")
         end
       else inr vars)
    with
    | inl e => (self, inl e)
    | inr vars =>
        match original self !! "instance_name" with
        | None => (self, inl (KeyError "instance_name"))
        | Some n => (self, inr (<["instance_name" := n]> vars))
        end
    end.

(** [set_target(target)] *)
Definition set_target (target : string) : Op unit :=
  fun self => (self, inl (ValueError "Cannot set target on InstantiateUFO")).
End InstantiateUFO.

(** ** Reading the builder's state and the graph *)

(** The statements written so far and the stamp files recorded so far. *)
Definition graph (st : NinjaBuilder) : list statement := from_option output [] (w st).
Definition recorded (st : NinjaBuilder) : list string := default [] (temporaries st).

(** The build statements of a graph, and those of one rule. *)
Definition edges (g : list statement) : list Edge :=
  omap (fun s => match s with Build e => Some e | _ => None end) g.

Definition edges_of_rule (r : string) (g : list statement) : list Edge :=
  filter (fun e => rule e = r) (edges g).

(** The rules whose command touches a stamp file: the output of an edge of
    one of them is a stamp file. *)
Definition stamp_rules : list string := ["genstat"; "fix"; "autohint"].

Definition stamp_outputs (g : list statement) : list string :=
  concat (outputs <$> filter (fun e => rule e ∈ stamp_rules) (edges g)).

(** Every stamp output of the graph is among the recorded temporaries. *)
Definition stamps_recorded (st : NinjaBuilder) : Prop :=
  stamp_outputs (graph st) ⊆ recorded st.

(** A builder in the middle of [build]: the graph file is open with [out]
    written, [ts] recorded, and [ds] collected. *)
Definition building (cfg : gmap string pyval) (out : list statement)
    (ts : list string) (ds : list (string * DesignSpaceDocument))
    (log : list string) (files : gset string) : NinjaBuilder :=
  {| config := cfg; logger := log;
     w := Some {| output := out; closed := false |};
     temporaries := Some ts; designspaces := Some ds; disk := files |}.

(** The edges the stage methods emit. *)
Definition fix_edge (file : string) (imp : list string) (vars : list (string * pyval)) : Edge :=
  {| outputs := [file +:+ ".fixstamp"]; rule := "fix"; inputs := [file];
     implicit := imp; variables := vars |}.

Definition autohint_edge (file : string) : Edge :=
  {| outputs := [file +:+ ".autohintstamp"]; rule := "autohint"; inputs := [file];
     implicit := []; variables := [] |}.

Definition webfont_edge (webfont_filename file : string) : Edge :=
  {| outputs := [webfont_filename]; rule := "webfont"; inputs := [file];
     implicit := [file +:+ ".fixstamp"]; variables := [] |}.

Definition variable_edge (target designspace_path : string)
    (vars : list (string * pyval)) : Edge :=
  {| outputs := [target]; rule := "variable"; inputs := [designspace_path];
     implicit := []; variables := vars |}.

Definition genstat_edge (stampfile : string) (targets : list string)
    (vars : list (string * pyval)) : Edge :=
  {| outputs := [stampfile]; rule := "genstat"; inputs := targets;
     implicit := []; variables := vars |}.


(** The variable-font targets of the collected designspaces. *)
Definition variable_targets (vfDir : string) (ds : list (string * DesignSpaceDocument))
    : list string :=
  (fun d => variable_target vfDir d.1 (axis_tags_of d.2)) <$> ds.

(** An edge without its variable bindings: outputs, rule, explicit inputs
    and implicit inputs. *)
Definition shape (e : Edge) : list string * string * list string * list string :=
  (outputs e, rule e, inputs e, implicit e).

(** [st'] is [st] after [news] has been written to the graph and [newt]
    appended to the temporaries. *)
Definition extends (st st' : NinjaBuilder) (news : list statement)
    (newt : list string) : Prop :=
  graph st' = graph st ++ news ∧ recorded st' = recorded st ++ newt.

(** The same, for a step that leaves the configuration and the collected
    designspaces as they were. *)
Definition appends (st st' : NinjaBuilder) (news : list statement)
    (newt : list string) : Prop :=
  extends st st' news newt ∧ config st' = config st ∧
  designspaces st' = designspaces st.

(** A method is tidy, given the stamp files [owned] (recorded before it
    runs), when each of its runs that returns has only appended to the graph
    and to the temporaries, and every stamp output it has written is owned
    or has been recorded by it. *)
Definition tidy {A} (owned : list string) (m : M A) : Prop :=
  ∀ st st' a, m st = (st', inr a) →
    ∃ news newt, extends st st' news newt ∧ stamp_outputs news ⊆ owned ++ newt.

(** A method is quiet about a rule when none of its runs that return has
    written an edge of that rule or touched the configuration. *)
Definition quiet {A} (r : string) (m : M A) : Prop :=
  ∀ st st' a, m st = (st', inr a) →
    ∃ news, graph st' = graph st ++ news ∧ edges_of_rule r news = [] ∧
            config st' = config st.

(** ** The specification's wording, for comparison *)

(** "The compiled-format directory prefix replaced by the web-format
    directory prefix and the format suffix replaced by the web-format
    suffix." *)
Definition swap_prefix (old new s : string) : string :=
  if Str.startswith old s then new +:+ Str.drop (String.length old) s else s.

Definition swap_suffix (old new s : string) : string :=
  if Str.endswith old s
  then Str.take (String.length s - String.length old) s +:+ new else s.

Definition spec_webfont_filename (ttDir woffDir filename : string) : string :=
  swap_prefix ttDir woffDir (swap_suffix ".ttf" ".woff2" filename).





(** A name placed under a directory: the directory, a slash unless the
    directory is empty or ends with one, and the name. *)
Definition under (dir name : string) : string :=
  dir +:+ (if decide (dir = "") then "" else if Str.endswith "/" dir then "" else "/")
      +:+ name.

(** ** What a stage reads from the configuration *)

Definition has_key (cfg : gmap string pyval) (key : string) : bool :=
  bool_decide (is_Some (cfg !! key)).

Definition has_str (cfg : gmap string pyval) (key : string) : bool :=
  match cfg !! key with
  | Some (VStr _) => true
  | _ => false
  end.

(** The truth value of a toggle; a toggle that is not set counts as off. *)
Definition enabled (cfg : gmap string pyval) (key : string) : bool :=
  truthy (default VNone (cfg !! key)).

(** The string under a key. *)
Definition str_of (cfg : gmap string pyval) (key : string) : string :=
  match cfg !! key with
  | Some (VStr s) => s
  | _ => ""
  end.

(** The graph file is open and the temporaries are there. *)
Definition writing (st : NinjaBuilder) : bool :=
  match w st, temporaries st with
  | Some wr, Some _ => negb (closed wr)
  | _, _ => false
  end.

(** [post_process_ttf] finds the keys it reads: the toggles; with hinting
    on, a per-script hinting toggle that is off; with web fonts on, the two
    directories. *)
Definition post_process_ttf_ready (cfg : gmap string pyval) : bool :=
  has_key cfg "autohintTTF" &&
  (negb (enabled cfg "autohintTTF") ||
     has_key cfg "ttfaUseScript" && negb (enabled cfg "ttfaUseScript")) &&
  has_key cfg "includeSourceFixes" &&
  has_key cfg "buildWebfont" &&
  (negb (enabled cfg "buildWebfont") || has_str cfg "ttDir" && has_str cfg "woffDir").

(** [build_variable] finds what it reads: at least one designspace, the
    directory and the toggles, and neither of the two keys [gen_stat]
    refuses. *)
Definition build_variable_ready (st : NinjaBuilder) : bool :=
  writing st &&
  match designspaces st with
  | Some (_ :: _) => true
  | _ => false
  end &&
  has_str (config st) "vfDir" &&
  has_key (config st) "flattenComponents" &&
  has_key (config st) "decomposeTransformedComponents" &&
  has_key (config st) "includeSourceFixes" &&
  negb (has_key (config st) "stylespaceFile") &&
  negb (has_key (config st) "statFormat4").

(** ** A family to run the builder on *)

Module Example.

Definition family : DesignSpaceDocument :=
  {| ds_filename := "Family.designspace";
     axes := [ {| tag := "wght"; axis_name := "Weight" |};
               {| tag := "wdth"; axis_name := "Width" |} ];
     sources := [ {| source_filename := "Family-Light.ufo" |};
                  {| source_filename := "Family-Black.ufo" |} ];
     instances := [ {| name := "Light"; filename := Some "Light.ufo" |};
                    {| name := "Black"; filename := Some "Black.ufo" |} ] |}.

(** An executor that leaves every output of every edge on the disk. *)
Definition env : Env :=
  {| designspace_files := {[ "master/Family.designspace" := family ]};
     glyphs_files := ∅;
     ninja_program :=
       fun g _ files => files ∪ list_to_set (concat (outputs <$> edges g)) |}.

(** The configuration after the defaults are filled in, with every stage
    on. *)
Definition cfg : gmap string pyval :=
  list_to_map
    [ ("sources", VSeq ["master/Family.designspace"]);
      ("logLevel", VStr "INFO");
      ("buildVariable", VBool true); ("buildStatic", VBool true);
      ("buildTTF", VBool true); ("buildOTF", VBool true);
      ("buildWebfont", VBool true);
      ("autohintTTF", VBool true); ("ttfaUseScript", VBool false);
      ("includeSourceFixes", VBool false);
      ("flattenComponents", VBool true);
      ("decomposeTransformedComponents", VBool false);
      ("vfDir", VStr "../fonts/variable"); ("ttDir", VStr "../fonts/ttf");
      ("otDir", VStr "../fonts/otf"); ("woffDir", VStr "../fonts/webfonts") ].

(** A builder before [build] is called. *)
Definition fresh (c : gmap string pyval) : NinjaBuilder :=
  {| config := c; logger := []; w := None; temporaries := None;
     designspaces := None; disk := {[ "master/Family.designspace" ]} |}.

(** A builder that has collected the family and is about to run a stage. *)
Definition collected (c : gmap string pyval) : NinjaBuilder :=
  building c [] [] [("master/Family.designspace", family)] []
           {[ "master/Family.designspace"; "build.ninja" ]}.

(** A family whose name holds the letters of the TTF directory, built
with short directory names. *)
Definition attfield : DesignSpaceDocument :=
{| ds_filename := "Attfield.designspace";
   axes := [ {| tag := "wght"; axis_name := "Weight" |} ];
   sources := [ {| source_filename := "Attfield-Regular.ufo" |} ];
   instances := [ {| name := "Regular"; filename := Some "Attfield-Regular.ufo" |} ] |}.

Definition cfg_short : gmap string pyval :=
<["ttDir" := VStr "ttf"]> (<["woffDir" := VStr "woff2"]> cfg).

Definition collected_attfield : NinjaBuilder :=
building cfg_short [] [] [("master/Attfield.designspace", attfield)] []
         {[ "master/Attfield.designspace"; "build.ninja" ]}.


(** An [InstantiateUFO] step for the instance [Light] of the family, with
    no target of its own. *)
Definition instantiate_light : InstantiateUFO.t :=
  {| InstantiateUFO.original :=
       {[ "operation" := "instantiateUfo"; "instance_name" := "Light" ]};
     InstantiateUFO.first_source :=
       {| InstantiateUFO.path := "master/Family.designspace";
          InstantiateUFO.is_glyphs := false;
          InstantiateUFO.file_instances := instances family |};
     InstantiateUFO.relevant_instance_cache := None |}.
End Example.

(** ** Rules, filters and compile targets *)

(** The rules a graph declares, in order. *)
Definition declared (g : list statement) : list string :=
  omap (fun s => match s with Rule n _ => Some n | _ => None end) g.

(** Every edge of [g] names a rule that is among [seen] or that [g]
    declares before the edge. *)
Fixpoint rules_declared_first (seen : list string) (g : list statement) : bool :=
  match g with
  | [] => true
  | Rule n _ :: g' => rules_declared_first (n :: seen) g'
  | Build e :: g' => bool_decide (rule e ∈ seen) && rules_declared_first seen g'
  | _ :: g' => rules_declared_first seen g'
  end.

(** A method is confined to the rules [R] when each of its runs that
    returns has only appended to the graph, has declared no rule, has written
    edges of the rules [R] only, and has left every key of the configuration
    but [axisOrder] as it was. *)
Definition confined {A} (R : list string) (m : M A) : Prop :=
  ∀ st st' a, m st = (st', inr a) →
    ∃ news, graph st' = graph st ++ news ∧ declared news = [] ∧
            Forall (fun e => rule e ∈ R) (edges news) ∧
            ∀ key, key ≠ "axisOrder" → config st' !! key = config st !! key.

(** The filters [fontmake_args] passes under a configuration, and the value
    it gives the variable [fontmake_args] of a compile edge whose output is
    [target]. *)
Definition filters (cfg : gmap string pyval) : list string :=
  ["--filter ..."] ++
  (if enabled cfg "flattenComponents" then ["--filter FlattenComponentsFilter"] else []) ++
  (if enabled cfg "decomposeTransformedComponents"
   then ["--filter DecomposeTransformedComponentsFilter"] else []).

Definition compile_args (cfg : gmap string pyval) (target : string) : pyval :=
  VStr (Str.join " " (filters cfg ++ ["--output-path " +:+ target])).

(** The axis order [gen_stat] leaves in the configuration and hands to the
    table-generation edge: the configured one, or else the tags it is given,
    with [ital] behind them when the path of a designspace holds [italic]. *)
Definition axis_order (cfg : gmap string pyval) (axis_tags : string)
    (ds : list (string * DesignSpaceDocument)) : pyval :=
  match cfg !! "axisOrder" with
  | Some v => v
  | None =>
      VSeq (Str.split_scan "," 0 axis_tags ++ (if any_italic ds then ["ital"] else []))
  end.

(** The arguments it hands to the table generator besides. *)
Definition stat_args (cfg : gmap string pyval) : string :=
  match cfg !! "stat" with
  | Some stat => "--src " +:+ py_str stat
  | None => ""
  end.

(** The file a static compile edge makes of an instance UFO: under the
    target directory, the stem of the UFO with the format as extension. *)
Definition compile_target (target_dir format : string) (ufo : Path.t) : string :=
  Path.to_str (Path.div (Path.parse target_dir) (Path.stem ufo +:+ "." +:+ format)).

(** The configured directory of a format: [ttDir] for [ttf], [otDir] for
    every other one. *)
Definition format_dir (cfg : gmap string pyval) (format : string) : string :=
  str_of cfg (if decide (format = "ttf") then "ttDir" else "otDir").

(** ** More inputs to run the builder and the operation on *)

Module Sample.

(** An [InstantiateUFO] step on a Glyphs source that declares two instances
    of the name it asks for, in directories of their own. *)
Definition instantiate_bold : InstantiateUFO.t :=
  {| InstantiateUFO.original :=
       {[ "operation" := "instantiateUfo"; "instance_name" := "Bold" ]};
     InstantiateUFO.first_source :=
       {| InstantiateUFO.path := "sources/Family.glyphs";
          InstantiateUFO.is_glyphs := true;
          InstantiateUFO.file_instances :=
            [ {| name := "Regular"; filename := Some "instance_ufos/Family-Regular.ufo" |};
              {| name := "Bold"; filename := Some "build/instances/Family-Bold.ufo" |};
              {| name := "Bold"; filename := Some "other/Family-Bold2.ufo" |} ] |};
     InstantiateUFO.relevant_instance_cache := None |}.

(** The variables of the base class for that step. *)
Definition base_variables : gmap string string :=
  {[ "fontmake_type" := "-g"; "fontmake_args" := "--filter ... " ]}.

(** The example configuration with a TTF directory whose name comes back in
    the suffix of a web font, and with the two directories written with a
    dot component in front. *)
Definition cfg_woff : gmap string pyval :=
  <["ttDir" := VStr "woff"]> (<["woffDir" := VStr "web"]> Example.cfg).

Definition cfg_dotslash : gmap string pyval :=
  <["ttDir" := VStr "./fonts/ttf"]> (<["woffDir" := VStr "./fonts/webfonts"]> Example.cfg).
End Sample.

(** ** Reasoning about runs of the builder's methods *)

Section inversion.
Context {A B : Type}.
Implicit Types (st : NinjaBuilder).

Lemma bind_inv (m : M A) (k : A → M B) st st' b :
  bind m k st = (st', inr b) →
  ∃ st1 a, m st = (st1, inr a) ∧ k a st1 = (st', inr b).
Proof.
  unfold bind. destruct (m st) as [st1 [e|a]]; [discriminate|]. eauto.
Qed.

Lemma bind_run (m : M A) (k : A → M B) st st1 a :
  m st = (st1, inr a) → bind m k st = k a st1.
Proof. unfold bind. by intros ->. Qed.

Lemma bind_raises (m : M A) (k : A → M B) st st1 e :
  m st = (st1, inl e) → bind m k st = (st1, inl e).
Proof. unfold bind. by intros ->. Qed.

Lemma ret_inv (a : A) st st' a' : ret a st = (st', inr a') → st' = st ∧ a' = a.
Proof. by intros [= -> ->]. Qed.

Lemma raise_inv e st st' (a : A) : raise e st = (st', inr a) → False.
Proof. discriminate. Qed.

Lemma lift_inv (r : exn + A) st st' a : lift r st = (st', inr a) → st' = st ∧ r = inr a.
Proof. destruct r; [discriminate|]. by intros [= -> ->]. Qed.

Lemma lift_option_inv e (o : option A) st st' a :
  lift (from_option inr (inl e) o) st = (st', inr a) → st' = st ∧ o = Some a.
Proof. destruct o; [|discriminate]. by intros [= -> ->]. Qed.

Lemma attribute_inv attr (f : NinjaBuilder → option A) st st' a :
  attribute attr f st = (st', inr a) → st' = st ∧ f st = Some a.
Proof. unfold attribute. destruct (f st); [|discriminate]. by intros [= -> ->]. Qed.

Lemma get_inv (f : NinjaBuilder → A) st st' a :
  get f st = (st', inr a) → st' = st ∧ a = f st.
Proof. by intros [= -> ->]. Qed.
End inversion.

Lemma modify_inv f st st' u : modify f st = (st', inr u) → st' = f st.
Proof. by intros [= <-]. Qed.

Lemma config_item_inv key st st' v :
  config_item key st = (st', inr v) → st' = st ∧ config st !! key = Some v.
Proof. unfold config_item. destruct (config st !! key); [|discriminate]. by intros [= -> ->]. Qed.

Lemma config_get_inv key st st' v :
  config_get key st = (st', inr v) → st' = st ∧ v = default VNone (config st !! key).
Proof. by intros [= -> ->]. Qed.

Lemma config_has_inv key st st' b :
  config_has key st = (st', inr b) →
  st' = st ∧ b = bool_decide (is_Some (config st !! key)).
Proof. by intros [= -> ->]. Qed.

Lemma as_str_inv v st st' s : as_str v st = (st', inr s) → st' = st ∧ v = VStr s.
Proof. destruct v; try discriminate. by intros [= -> ->]. Qed.

Lemma write_inv s st st' u :
  write s st = (st', inr u) →
  ∃ out, w st = Some {| output := out; closed := false |} ∧
         st' = set_w (Some {| output := out ++ [s]; closed := false |}) st.
Proof.
  unfold write, bind, attribute.
  destruct (w st) as [[out [|]]|]; simpl; try discriminate.
  intros [= <-]. eauto.
Qed.

Lemma temporaries_append_inv x st st' u :
  temporaries_append x st = (st', inr u) →
  ∃ ts, temporaries st = Some ts ∧ st' = set_temporaries (Some (ts ++ [x])) st.
Proof.
  unfold temporaries_append, bind, attribute.
  destruct (temporaries st) as [ts|]; simpl; try discriminate.
  intros [= <-]. eauto.
Qed.

(** Take a successful run apart, one step at a time. *)
Ltac run_inv H :=
  cbv beta in H;
  lazymatch type of H with
  | bind _ _ _ = (_, inr _) =>
      let st1 := fresh "st" in
      let a := fresh "a" in
      let H1 := fresh "Hrun" in
      apply bind_inv in H as (st1 & a & H1 & H); run_inv H1; run_inv H
  | ret _ _ = (_, inr _) => apply ret_inv in H as [? ?]; subst
  | raise _ _ = (_, inr _) => destruct (raise_inv _ _ _ _ H)
  | lift (from_option inr (inl _) _) _ = (_, inr _) =>
      apply lift_option_inv in H as [? ?]; subst
  | lift _ _ = (_, inr _) => apply lift_inv in H as [? ?]; subst
  | attribute _ _ _ = (_, inr _) => apply attribute_inv in H as [? ?]; subst
  | get _ _ = (_, inr _) => apply get_inv in H as [? ?]; subst
  | modify _ _ = (_, inr _) => apply modify_inv in H; subst
  | config_item _ _ = (_, inr _) => apply config_item_inv in H as [? ?]; subst
  | config_get _ _ = (_, inr _) => apply config_get_inv in H as [? ?]; subst
  | config_has _ _ = (_, inr _) => apply config_has_inv in H as [? ?]; subst
  | as_str _ _ = (_, inr _) => apply as_str_inv in H as [? ?]; subst
  | write _ _ = (_, inr _) => apply write_inv in H as (? & ? & ?); subst
  | w_comment _ _ = (_, inr _) => apply write_inv in H as (? & ? & ?); subst
  | w_newline _ = (_, inr _) => apply write_inv in H as (? & ? & ?); subst
  | w_rule _ _ _ = (_, inr _) => apply write_inv in H as (? & ? & ?); subst
  | w_build _ _ _ _ _ _ = (_, inr _) => apply write_inv in H as (? & ? & ?); subst
  | temporaries_append _ _ = (_, inr _) =>
      apply temporaries_append_inv in H as (? & ? & ?); subst
  | (if ?b then _ else _) _ = (_, inr _) => destruct b eqn:?; run_inv H
  | _ => idtac
  end.

(** *** Running a method forward *)

Lemma config_item_run key st v :
  config st !! key = Some v → config_item key st = (st, inr v).
Proof. unfold config_item. by intros ->. Qed.

Lemma config_has_run key st :
  config_has key st = (st, inr (has_key (config st) key)).
Proof. done. Qed.

Ltac step H := rewrite (bind_run _ _ _ _ _ H).

Ltac run_forward :=
  repeat first
    [ progress (unfold bind, ret, raise, lift, get, modify, attribute, config_item, config_has,
                 config_get, as_str, write, w_comment, w_newline, w_rule, w_build,
                 temporaries_append, as_list; simpl)
    | match goal with
      | H : ?cfg !! ?k = Some _ |- context [?cfg !! ?k] => rewrite H; simpl
      | H : ?cfg !! ?k = None |- context [?cfg !! ?k] => rewrite H; simpl
      | H : truthy ?v = _ |- context [truthy ?v] => rewrite H; simpl
      end ].

Lemma has_key_lookup cfg key : has_key cfg key = true → ∃ v, cfg !! key = Some v.
Proof. unfold has_key. intros H%bool_decide_eq_true. destruct H as [v Hv]; eauto. Qed.

Lemma has_str_lookup cfg key : has_str cfg key = true → ∃ s, cfg !! key = Some (VStr s).
Proof. unfold has_str. destruct (cfg !! key) as [[]|]; try discriminate; eauto. Qed.

Lemma has_key_false cfg key : has_key cfg key = false → cfg !! key = None.
Proof. unfold has_key. intros H%bool_decide_eq_false. by apply eq_None_not_Some. Qed.

Lemma enabled_lookup cfg key v : cfg !! key = Some v → enabled cfg key = truthy v.
Proof. unfold enabled. by intros ->. Qed.

Lemma str_of_lookup cfg key s : cfg !! key = Some (VStr s) → str_of cfg key = s.
Proof. unfold str_of. by intros ->. Qed.

Lemma writing_inv st :
  writing st = true →
  ∃ out ts, st = {| config := config st; logger := logger st;
                    w := Some {| output := out; closed := false |};
                    temporaries := Some ts; designspaces := designspaces st;
                    disk := disk st |}.
Proof.
  destruct st as [cfg log [[out []]|] [ts|] ds files]; try discriminate. simpl. eauto.
Qed.

Lemma writing_eq st st' :
  w st' = w st → temporaries st' = temporaries st → writing st' = writing st.
Proof. unfold writing. by intros -> ->. Qed.

Lemma write_returns s st :
  writing st = true → ∃ st', write s st = (st', inr tt) ∧ writing st' = true.
Proof.
  intros (out & ts & ->)%writing_inv. run_forward. by eexists.
Qed.

Lemma temporaries_append_returns x st :
  writing st = true →
  ∃ st', temporaries_append x st = (st', inr tt) ∧ writing st' = true.
Proof.
  intros (out & ts & ->)%writing_inv. run_forward. by eexists.
Qed.

(** *** Appending to the graph and to the temporaries *)

Lemma edges_app g1 g2 : edges (g1 ++ g2) = edges g1 ++ edges g2.
Proof. unfold edges. apply omap_app. Qed.

Lemma stamp_outputs_app g1 g2 :
  stamp_outputs (g1 ++ g2) = stamp_outputs g1 ++ stamp_outputs g2.
Proof.
  unfold stamp_outputs. by rewrite edges_app, filter_app, fmap_app, concat_app.
Qed.

Lemma extends_refl st : extends st st [] [].
Proof. unfold extends. by rewrite !app_nil_r. Qed.

Lemma extends_trans st1 st2 st3 n1 t1 n2 t2 :
  extends st1 st2 n1 t1 → extends st2 st3 n2 t2 →
  extends st1 st3 (n1 ++ n2) (t1 ++ t2).
Proof.
  unfold extends. intros [? ?] [-> ->]. rewrite !app_assoc. split; congruence.
Qed.

Lemma extends_write s st st' u :
  write s st = (st', inr u) → extends st st' [s] [].
Proof.
  intros H. run_inv H. unfold extends, graph, recorded. simpl.
  repeat match goal with H : _ = Some _ |- _ => rewrite H end.
  by rewrite app_nil_r.
Qed.

Lemma extends_temporaries_append x st st' u :
  temporaries_append x st = (st', inr u) → extends st st' [] [x].
Proof.
  intros H. run_inv H. unfold extends, graph, recorded. simpl.
  repeat match goal with H : _ = Some _ |- _ => rewrite H end.
  by rewrite app_nil_r.
Qed.

Lemma appends_refl st : appends st st [] [].
Proof. split; [apply extends_refl|done]. Qed.

Lemma appends_trans st1 st2 st3 n1 t1 n2 t2 :
  appends st1 st2 n1 t1 → appends st2 st3 n2 t2 →
  appends st1 st3 (n1 ++ n2) (t1 ++ t2).
Proof.
  intros (E1 & C1 & D1) (E2 & C2 & D2).
  split; [by eapply extends_trans|]. split; congruence.
Qed.

Lemma appends_write s st st' u :
  write s st = (st', inr u) → appends st st' [s] [].
Proof.
  intros H. split; [by eapply extends_write|]. by run_inv H.
Qed.

Lemma appends_temporaries_append x st st' u :
  temporaries_append x st = (st', inr u) → appends st st' [] [x].
Proof.
  intros H. split; [by eapply extends_temporaries_append|]. by run_inv H.
Qed.

(** *** Picking the edges of a rule *)

Lemma edges_of_rule_nil r : edges_of_rule r [] = [].
Proof. done. Qed.

Lemma edges_of_rule_build r e g :
  edges_of_rule r (Build e :: g) =
  if decide (rule e = r) then e :: edges_of_rule r g else edges_of_rule r g.
Proof. unfold edges_of_rule, edges. simpl. by rewrite filter_cons. Qed.

Lemma edges_of_rule_comment r text g : edges_of_rule r (Comment text :: g) = edges_of_rule r g.
Proof. done. Qed.

Lemma edges_of_rule_newline r g : edges_of_rule r (Newline :: g) = edges_of_rule r g.
Proof. done. Qed.

Lemma edges_of_rule_app r g1 g2 :
  edges_of_rule r (g1 ++ g2) = edges_of_rule r g1 ++ edges_of_rule r g2.
Proof. unfold edges_of_rule. by rewrite edges_app, filter_app. Qed.

Ltac pick_edges :=
  repeat first
    [ rewrite edges_of_rule_app
    | rewrite edges_of_rule_comment
    | rewrite edges_of_rule_newline
    | rewrite edges_of_rule_nil
    | rewrite edges_of_rule_build; simpl rule; case_decide; [try discriminate|try congruence] ].

Lemma shape_rule {X} (f : X → list string * string * list string * list string)
    r0 (l : list X) : ∀ es,
  shape <$> es = f <$> l → (∀ x, (f x).1.1.2 = r0) → Forall (fun e => rule e = r0) es.
Proof.
  induction l as [|x l IH]; intros [|e es] H Hf; try discriminate; [constructor|].
  rewrite !fmap_cons in H. injection H as He Hes. constructor; [|by apply IH].
  specialize (Hf x). rewrite <- He in Hf. exact Hf.
Qed.

Lemma edges_of_rule_builds r r0 (es : list Edge) :
  Forall (fun e => rule e = r0) es →
  edges_of_rule r (Build <$> es) = if decide (r0 = r) then es else [].
Proof.
  induction 1 as [|e es He _ IH]; [by case_decide|].
  rewrite fmap_cons, edges_of_rule_build, IH, He. by case_decide.
Qed.

Lemma fmap_shape_outputs (es : list Edge) : outputs <$> es = (fun s => s.1.1.1) <$> (shape <$> es).
Proof. by rewrite <- list_fmap_compose. Qed.

(** ** Strings and paths *)

Lemma app_cons c (s t : string) : String c s +:+ t = String c (s +:+ t).
Proof. done. Qed.

Lemma app_empty_l (s : string) : "" +:+ s = s.
Proof. done. Qed.

Lemma app_empty_r (s : string) : s +:+ "" = s.
Proof. induction s as [|c s IH]; [done|]. by rewrite app_cons, IH. Qed.

Lemma app_assoc_str (s t u : string) : (s +:+ t) +:+ u = s +:+ t +:+ u.
Proof. induction s as [|c s IH]; [done|]. by rewrite !app_cons, IH. Qed.

Lemma length_app_str (s t : string) :
  String.length (s +:+ t) = String.length s + String.length t.
Proof. induction s as [|c s IH]; [done|]. rewrite app_cons. simpl. by rewrite IH. Qed.

Lemma startswith_app p s : Str.startswith p (p +:+ s) = true.
Proof.
  induction p as [|c p IH]; [done|]. rewrite app_cons. simpl.
  by rewrite decide_True.
Qed.

Lemma drop_app p s : Str.drop (String.length p) (p +:+ s) = s.
Proof. induction p as [|c p IH]; [by destruct s|]. by rewrite app_cons. Qed.

Lemma take_app p s : Str.take (String.length p) (p +:+ s) = p.
Proof.
  induction p as [|c p IH]; [by destruct s|]. rewrite app_cons. simpl. by rewrite IH.
Qed.

Lemma rev_app_spec s t : String.rev_app s t = String.rev s +:+ t.
Proof.
  unfold String.rev. revert t. induction s as [|c s IH]; intros t; [done|].
  simpl. rewrite IH, (IH (String c "")). by rewrite app_assoc_str.
Qed.

Lemma rev_app_distr s t : String.rev (s +:+ t) = String.rev t +:+ String.rev s.
Proof.
  induction s as [|c s IH]; [by rewrite app_empty_r|].
  rewrite app_cons. unfold String.rev at 1 3. simpl.
  rewrite !rev_app_spec, IH. by rewrite app_assoc_str.
Qed.

Lemma endswith_app p s : Str.endswith p (s +:+ p) = true.
Proof. unfold Str.endswith. rewrite rev_app_distr. apply startswith_app. Qed.

(** *** Replacing *)

(** The scan of [replace] passes over the characters it is told to skip. *)
Lemma replace_scan_skip old new u s :
  Str.replace_scan old new (String.length u) (u +:+ s) = Str.replace_scan old new 0 s.
Proof. induction u as [|c u IH]; [done|]. by rewrite app_cons. Qed.

(** An occurrence at the head is replaced, and the scan goes on behind it. *)
Lemma replace_scan_head c old new s :
  Str.replace_scan (String c old) new 0 (String c old +:+ s)
  = new +:+ Str.replace_scan (String c old) new 0 s.
Proof.
  rewrite app_cons. simpl. rewrite decide_True by done.
  rewrite startswith_app. by rewrite Nat.sub_0_r, replace_scan_skip.
Qed.

(** A string without an occurrence is left as it is. *)
Lemma replace_scan_absent c old new s :
  Str.contains (String c old) s = false →
  Str.replace_scan (String c old) new 0 s = s.
Proof.
  induction s as [|a s IH]; [done|]. simpl Str.contains.
  intros [H1 H2]%orb_false_iff. simpl Str.replace_scan.
  simpl in H1. rewrite H1. by rewrite IH.
Qed.

(** [".ttf"] cannot start inside a string and run into a [".ttf"] behind
    it. *)
Lemma startswith_ttf_app q :
  Str.startswith ".ttf" (q +:+ ".ttf") = true → q = "" ∨ Str.startswith ".ttf" q = true.
Proof.
  destruct q as [|a [|b [|c [|d q]]]]; [by left|..]; intros H; right;
    rewrite ?app_cons, ?app_empty_l in H; simpl in H |- *;
    repeat (case_decide; [subst|done]); try done.
Qed.

Lemma replace_ttf_suffix p :
  Str.contains ".ttf" p = false →
  Str.replace ".ttf" ".woff2" (p +:+ ".ttf") = p +:+ ".woff2".
Proof.
  unfold Str.replace. induction p as [|a p IH]; [done|].
  intros Hc. pose proof Hc as Hc'. simpl in Hc'. apply orb_false_iff in Hc' as [H1 H2].
  rewrite !app_cons.
  assert (Str.startswith ".ttf" (String a (p +:+ ".ttf")) = false) as Hs.
  { destruct (Str.startswith ".ttf" (String a (p +:+ ".ttf"))) eqn:E; [|done].
    rewrite <- app_cons in E. apply startswith_ttf_app in E as [?|E]; [done|].
    simpl in E. congruence. }
  simpl Str.replace_scan. simpl in Hs. rewrite Hs. by rewrite IH.
Qed.

(** The two replacements of [post_process_ttf] on a target that has the
    TTF directory in front and [.ttf] at the end, and neither anywhere else:
    they swap the directory and the suffix, as the specification words it. *)
Lemma replace_directory_and_suffix ttDir woffDir rest :
  ttDir ≠ "" →
  Str.contains ".ttf" (ttDir +:+ rest) = false →
  Str.contains ttDir (rest +:+ ".woff2") = false →
  Str.replace ttDir woffDir (Str.replace ".ttf" ".woff2" (ttDir +:+ rest +:+ ".ttf"))
  = woffDir +:+ rest +:+ ".woff2".
Proof.
  intros Hne Httf Hdir.
  rewrite <- app_assoc_str, replace_ttf_suffix by done. rewrite app_assoc_str.
  destruct ttDir as [|c d]; [done|]. unfold Str.replace.
  by rewrite replace_scan_head, replace_scan_absent.
Qed.

Lemma spec_webfont_filename_swaps ttDir woffDir rest :
  spec_webfont_filename ttDir woffDir (ttDir +:+ rest +:+ ".ttf")
  = woffDir +:+ rest +:+ ".woff2".
Proof.
  unfold spec_webfont_filename, swap_suffix, swap_prefix.
  rewrite <- app_assoc_str, endswith_app, length_app_str.
  replace (String.length (ttDir +:+ rest) + String.length ".ttf" - String.length ".ttf")
    with (String.length (ttDir +:+ rest)) by (simpl; lia).
  rewrite take_app, app_assoc_str, startswith_app, drop_app. done.
Qed.

(** *** The names of the variable-font targets *)

Lemma split_scan_no_slash s :
  Forall (fun x => Str.contains "/" x = false) (Str.split_scan "/" 0 s).
Proof.
  induction s as [|c s IH]; [by repeat constructor|].
  simpl. case_decide as Hc; simpl.
  - by constructor.
  - destruct (Str.split_scan "/" 0 s) as [|piece pieces].
    { constructor; [simpl; by rewrite decide_False|constructor]. }
    inversion IH as [|? ? Hp Hps]; subst. constructor; [|done].
    simpl. rewrite decide_False by done. exact Hp.
Qed.

Lemma name_no_slash s : Str.contains "/" (Path.name (Path.parse s)) = false.
Proof.
  unfold Path.name, Path.parse. destruct (Path.splitroot s) as [r rel]. simpl.
  pose proof (split_scan_no_slash rel) as H.
  assert (Forall (fun x => Str.contains "/" x = false)
            (filter (fun x => Path.keep x = true) (Str.split_scan "/" 0 rel))) as Hf.
  { apply Forall_forall. intros x [_ Hx]%list_elem_of_filter.
    by eapply Forall_forall in H. }
  induction Hf as [|x [|y l] Hx Hl IHl]; [done|done|]. apply IHl.
Qed.

Lemma contains_take i s :
  Str.contains "/" s = false → Str.startswith "/" (Str.take i s) = false.
Proof.
  destruct s as [|c s]; [by destruct i|]. destruct i; [done|].
  simpl. intros [H _]%orb_false_iff. by case_decide.
Qed.

Lemma stem_no_leading_slash s x :
  Str.startswith "/" (Path.stem (Path.parse s) +:+ String "[" x) = false.
Proof.
  pose proof (name_no_slash s) as Hn. unfold Path.stem.
  set (n := Path.name (Path.parse s)) in *.
  assert (∀ t, Str.contains "/" t = false ∨ (∃ i, t = Str.take i n) →
               Str.startswith "/" (t +:+ String "[" x) = false) as Ht.
  { intros t Hc.
    assert (Str.startswith "/" t = false) as Hs.
    { destruct Hc as [Hc|[i ->]]; [|by apply contains_take].
      destruct t; [done|]. simpl in Hc. by apply orb_false_iff in Hc as [? _]. }
    destruct t as [|c t]; [done|]. rewrite app_cons. simpl in *. by case_decide. }
  destruct (Str.rfind_dot n) as [i|]; [|by apply Ht; left].
  case_decide; apply Ht; eauto.
Qed.

Lemma join_under dir name :
  Str.startswith "/" name = false → OsPath.join dir name = under dir name.
Proof.
  unfold OsPath.join, under. intros ->.
  case_decide; [by subst|]. by destruct (Str.endswith "/" dir).
Qed.

Lemma sorted_spec tags :
  Sorted String.le (Str.sorted tags) ∧ Str.sorted tags ≡ₚ tags.
Proof.
  unfold Str.sorted. split; [apply (Sorted_merge_sort String.le)|].
  apply merge_sort_Permutation.
Qed.

(** *** Paths that are already normal *)














(** *** Directories and names *)

Lemma contains_slash_cons c s :
  Str.contains "/" (String c s) = bool_decide (c = "/"%char) || Str.contains "/" s.
Proof.
  simpl. destruct (decide ("/"%char = c)) as [<-|Hc].
  - by rewrite bool_decide_eq_true_2.
  - by rewrite bool_decide_eq_false_2 by congruence.
Qed.

Lemma contains_slash_app s t :
  Str.contains "/" (s +:+ t) = Str.contains "/" s || Str.contains "/" t.
Proof.
  induction s as [|c s IH]; [by destruct t|].
  rewrite app_cons, !contains_slash_cons, IH. by rewrite orb_assoc.
Qed.

Lemma after_last_slash_no_slash p :
  Str.contains "/" (OsPath.after_last_slash p) = false.
Proof.
  induction p as [|c p IH]; [done|]. simpl OsPath.after_last_slash.
  destruct (Str.contains "/" p) eqn:Hp; [done|].
  case_decide as Hc; [done|]. rewrite contains_slash_cons, Hp.
  by rewrite bool_decide_eq_false_2.
Qed.

Lemma basename_no_slash p : Str.contains "/" (OsPath.basename p) = false.
Proof.
  unfold OsPath.basename. destruct (Str.contains "/" p) eqn:Hp; [|done].
  apply after_last_slash_no_slash.
Qed.

Lemma after_last_slash_app d b :
  Str.contains "/" b = false → OsPath.after_last_slash (d +:+ "/" +:+ b) = b.
Proof.
  intros Hb. induction d as [|c d IH].
  - rewrite app_empty_l. change ("/" +:+ b) with (String "/" b).
    simpl OsPath.after_last_slash. by rewrite Hb.
  - rewrite app_cons. simpl OsPath.after_last_slash.
    rewrite contains_slash_app. change ("/" +:+ b) with (String "/" b).
    rewrite (contains_slash_cons "/" b), bool_decide_eq_true_2 by done.
    by rewrite orb_true_r.
Qed.

Lemma basename_app d b :
  Str.contains "/" b = false → OsPath.basename (d +:+ "/" +:+ b) = b.
Proof.
  intros Hb. unfold OsPath.basename. rewrite contains_slash_app.
  change ("/" +:+ b) with (String "/" b).
  rewrite (contains_slash_cons "/" b), bool_decide_eq_true_2 by done.
  rewrite orb_true_r. by apply (after_last_slash_app d b).
Qed.

Lemma dirname_app d b :
  Str.contains "/" b = false →
  OsPath.dirname (d +:+ "/" +:+ b)
  = if decide (OsPath.rstrip_slash (d +:+ "/") = "") then d +:+ "/"
    else OsPath.rstrip_slash (d +:+ "/").
Proof.
  intros Hb. unfold OsPath.dirname. rewrite basename_app by done.
  rewrite <- app_assoc_str, length_app_str.
  replace (String.length (d +:+ "/") + String.length b - String.length b)
    with (String.length (d +:+ "/")) by lia.
  by rewrite take_app.
Qed.

(** *** Reading a string as a path *)






























(** ** Tidy methods: every stamp written is recorded *)

Section tidy.
Context {A B : Type}.
Implicit Types (owned : list string).

Lemma tidy_unchanged owned (m : M A) :
  (∀ st st' a, m st = (st', inr a) →
     graph st' = graph st ∧ recorded st' = recorded st) →
  tidy owned m.
Proof.
  intros Hm st st' a H. destruct (Hm _ _ _ H) as [Hg Hr].
  exists [], []. unfold extends. rewrite !app_nil_r. split; [done|].
  intros x Hx. by apply elem_of_nil in Hx.
Qed.

Lemma tidy_bind owned (m : M A) (k : A → M B) :
  tidy owned m → (∀ a, tidy owned (k a)) → tidy owned (bind m k).
Proof.
  intros Hm Hk st st' b H. apply bind_inv in H as (st1 & a & H1 & H2).
  destruct (Hm _ _ _ H1) as (n1 & t1 & E1 & S1).
  destruct (Hk a _ _ _ H2) as (n2 & t2 & E2 & S2).
  exists (n1 ++ n2), (t1 ++ t2). split; [by eapply extends_trans|].
  rewrite stamp_outputs_app. intros x [Hx|Hx]%elem_of_app.
  - apply S1, elem_of_app in Hx as [?|?]; rewrite !elem_of_app; auto.
  - apply S2, elem_of_app in Hx as [?|?]; rewrite !elem_of_app; auto.
Qed.

Lemma tidy_ret owned (a : A) : tidy owned (ret a).
Proof. apply tidy_unchanged. by intros st st' a' [= -> _]. Qed.

Lemma tidy_raise owned e : tidy owned (raise e : M A).
Proof. by intros st st' a. Qed.

Lemma tidy_lift owned (r : exn + A) : tidy owned (lift r).
Proof. destruct r; [apply tidy_raise | apply tidy_ret]. Qed.

Lemma tidy_if owned (b : bool) (m1 m2 : M A) :
  tidy owned m1 → tidy owned m2 → tidy owned (if b then m1 else m2).
Proof. by destruct b. Qed.

Lemma tidy_attribute owned attr (f : NinjaBuilder → option A) :
  tidy owned (attribute attr f).
Proof. apply tidy_unchanged. intros st st' a H. by run_inv H. Qed.

Lemma tidy_get owned (f : NinjaBuilder → A) : tidy owned (get f).
Proof. apply tidy_unchanged. intros st st' a H. by run_inv H. Qed.

(** Once a stamp is recorded, what follows owns it. *)
Lemma tidy_record owned x (m : M A) :
  tidy (x :: owned) m → tidy owned (bind (temporaries_append x) (fun _ => m)).
Proof.
  intros Hm st st' a H. apply bind_inv in H as (st1 & u & H1 & H2).
  apply extends_temporaries_append in H1.
  destruct (Hm _ _ _ H2) as (n & t & E & S).
  exists ([] ++ n), ([x] ++ t). split; [by eapply extends_trans|].
  simpl. intros y Hy. apply S in Hy.
  rewrite elem_of_app, elem_of_cons in Hy. rewrite elem_of_app, elem_of_cons.
  destruct Hy as [[?|?]|?]; auto.
Qed.
End tidy.

Lemma tidy_for_each {A} owned (l : list A) (body : A → M unit) :
  (∀ x, tidy owned (body x)) → tidy owned (for_each l body).
Proof.
  intros Hb. induction l as [|x l IH]; simpl; [apply tidy_ret|].
  apply tidy_bind; auto.
Qed.

Lemma tidy_config_item owned key : tidy owned (config_item key).
Proof. apply tidy_unchanged. intros st st' a H. by run_inv H. Qed.

Lemma tidy_config_get owned key : tidy owned (config_get key).
Proof. apply tidy_unchanged. intros st st' a H. by run_inv H. Qed.

Lemma tidy_config_has owned key : tidy owned (config_has key).
Proof. apply tidy_unchanged. intros st st' a H. by run_inv H. Qed.

Lemma tidy_as_str owned v : tidy owned (as_str v).
Proof. apply tidy_unchanged. intros st st' a H. by run_inv H. Qed.

Lemma tidy_iterate owned v : tidy owned (iterate v).
Proof. destruct v; first [apply tidy_raise | apply tidy_ret]. Qed.

Lemma tidy_set_config owned f : tidy owned (modify (set_config f)).
Proof. apply tidy_unchanged. intros st st' a H. by run_inv H. Qed.

Lemma tidy_set_designspaces owned x : tidy owned (modify (set_designspaces x)).
Proof. apply tidy_unchanged. intros st st' a H. by run_inv H. Qed.

Lemma tidy_set_disk owned f : tidy owned (modify (set_disk f)).
Proof. apply tidy_unchanged. intros st st' a H. by run_inv H. Qed.

Lemma stamp_outputs_build e :
  stamp_outputs [Build e] = if decide (rule e ∈ stamp_rules) then outputs e else [].
Proof.
  unfold stamp_outputs, edges. simpl. rewrite filter_cons, filter_nil.
  case_decide; simpl; by rewrite ?app_nil_r.
Qed.

(** A statement may be written when the stamps it declares are owned. *)
Lemma tidy_write owned s : stamp_outputs [s] ⊆ owned → tidy owned (write s).
Proof.
  intros Hs st st' u H. exists [s], []. split; [by eapply extends_write|].
  by rewrite app_nil_r.
Qed.

Lemma tidy_w_comment owned text : tidy owned (w_comment text).
Proof. apply tidy_write. intros x Hx. by apply elem_of_nil in Hx. Qed.

Lemma tidy_w_newline owned : tidy owned w_newline.
Proof. apply tidy_write. intros x Hx. by apply elem_of_nil in Hx. Qed.

Lemma tidy_w_rule owned n c : tidy owned (w_rule n c).
Proof. apply tidy_write. intros x Hx. by apply elem_of_nil in Hx. Qed.

Lemma tidy_w_build owned outs r ins imp vars :
  r ∉ stamp_rules → tidy owned (w_build outs r ins imp vars).
Proof.
  intros Hr. apply tidy_write. rewrite stamp_outputs_build. simpl.
  case_decide; [done|]. intros x Hx. by apply elem_of_nil in Hx.
Qed.

Lemma tidy_w_build_owned owned outs r ins imp vars :
  outs ⊆ owned → tidy owned (w_build outs r ins imp vars).
Proof.
  intros Hr. apply tidy_write. rewrite stamp_outputs_build. simpl.
  case_decide; [done|]. intros x Hx. by apply elem_of_nil in Hx.
Qed.

(** The edge may also come first and the record right after it, as in
    [post_process_ttf]. *)
Lemma tidy_build_then_record {A} owned x r ins imp vars (m : M A) :
  tidy (x :: owned) m →
  tidy owned (bind (w_build [x] r ins imp vars)
                (fun _ => bind (temporaries_append x) (fun _ => m))).
Proof.
  intros Hm st st' a H. apply bind_inv in H as (st1 & u & H1 & H).
  apply bind_inv in H as (st2 & u' & H2 & H3).
  apply extends_write in H1. apply extends_temporaries_append in H2.
  destruct (Hm _ _ _ H3) as (n & t & E & S).
  exists (([Build {| outputs := [x]; rule := r; inputs := ins; implicit := imp;
                     variables := vars |}] ++ []) ++ n), (([] ++ [x]) ++ t).
  split; [eapply extends_trans; [eapply extends_trans|]; eauto|].
  rewrite app_nil_r, stamp_outputs_app, stamp_outputs_build. simpl.
  intros y Hy. rewrite elem_of_app, elem_of_cons.
  apply elem_of_app in Hy as [Hy|Hy].
  - case_decide; [|by apply elem_of_nil in Hy].
    apply list_elem_of_singleton in Hy. auto.
  - apply S in Hy. rewrite elem_of_app, elem_of_cons in Hy.
    destruct Hy as [[?|?]|?]; auto.
Qed.

(** Solve a tidiness goal by following the structure of the method. *)
Ltac tidy_step :=
  lazymatch goal with
  | |- tidy _ (bind (temporaries_append _) _) => apply tidy_record
  | |- tidy _ (bind _ _) => apply tidy_bind; [|intros ?]
  | |- tidy _ (ret _) => apply tidy_ret
  | |- tidy _ (raise _) => apply tidy_raise
  | |- tidy _ (lift _) => apply tidy_lift
  | |- tidy _ (attribute _ _) => apply tidy_attribute
  | |- tidy _ (get _) => apply tidy_get
  | |- tidy _ (config_item _) => apply tidy_config_item
  | |- tidy _ (config_get _) => apply tidy_config_get
  | |- tidy _ (config_has _) => apply tidy_config_has
  | |- tidy _ (as_str _) => apply tidy_as_str
  | |- tidy _ (iterate _) => apply tidy_iterate
  | |- tidy _ (modify (set_config _)) => apply tidy_set_config
  | |- tidy _ (modify (set_designspaces _)) => apply tidy_set_designspaces
  | |- tidy _ (modify (set_disk _)) => apply tidy_set_disk
  | |- tidy _ (w_comment _) => apply tidy_w_comment
  | |- tidy _ w_newline => apply tidy_w_newline
  | |- tidy _ (w_rule _ _) => apply tidy_w_rule
  | |- tidy _ (for_each _ _) => apply tidy_for_each; intros ?
  | |- tidy _ (if ?b then _ else _) => first [apply tidy_if | destruct b]
  | |- tidy _ (match ?x with _ => _ end) => destruct x
  end.

Lemma not_stamp_rule r :
  r ≠ "genstat" → r ≠ "fix" → r ≠ "autohint" → r ∉ stamp_rules.
Proof.
  intros ? ? ?. unfold stamp_rules. rewrite !elem_of_cons, elem_of_nil. tauto.
Qed.

Lemma tidy_post_process owned file imp : tidy owned (post_process file imp).
Proof.
  unfold post_process. repeat tidy_step.
  apply tidy_w_build_owned. unfold as_list. intros x Hx.
  apply list_elem_of_singleton in Hx as ->. apply elem_of_cons. auto.
Qed.

Lemma tidy_fontmake_args owned args : tidy owned (fontmake_args args).
Proof. unfold fontmake_args. repeat tidy_step. Qed.

Lemma tidy_gen_stat owned axis_tags targets : tidy owned (gen_stat axis_tags targets).
Proof.
  unfold gen_stat. repeat tidy_step.
  apply tidy_w_build_owned. unfold as_list. intros x Hx.
  apply list_elem_of_singleton in Hx as ->. apply elem_of_cons. auto.
Qed.

Lemma tidy_post_process_ttf owned filename : tidy owned (post_process_ttf filename).
Proof.
  unfold post_process_ttf.
  apply tidy_bind; [tidy_step|intros hint].
  apply tidy_bind.
  - apply tidy_if; [|apply tidy_post_process].
    apply tidy_bind; [tidy_step|intros script].
    apply tidy_bind; [repeat tidy_step|intros _].
    apply tidy_build_then_record, tidy_post_process.
  - intros _. repeat tidy_step.
    by apply tidy_w_build, not_stamp_rule.
Qed.

Lemma tidy_build_variable_loop owned ds axis_tags targets :
  tidy owned (build_variable_loop ds axis_tags targets).
Proof.
  revert axis_tags targets.
  induction ds as [|[path d] ds IH]; intros axis_tags targets; simpl; [apply tidy_ret|].
  repeat tidy_step; try apply tidy_fontmake_args; try apply IH.
  by apply tidy_w_build, not_stamp_rule.
Qed.

Lemma tidy_build_variable owned : tidy owned build_variable.
Proof.
  unfold build_variable. repeat tidy_step;
    first [apply tidy_build_variable_loop | apply tidy_gen_stat | apply tidy_post_process].
Qed.

Lemma tidy_interpolate_ufos owned entry : tidy owned (interpolate_ufos entry).
Proof.
  destruct entry as [path d]. unfold interpolate_ufos. repeat tidy_step.
  by apply tidy_w_build, not_stamp_rule.
Qed.

(** The rule of a compile edge, whatever the format, is not a stamp rule. *)
Lemma build_format_not_stamp_rule format : "build" +:+ format ∉ stamp_rules.
Proof. by apply not_stamp_rule. Qed.

Lemma tidy_build_format_ufos owned format target_dir ufos targets :
  tidy owned (build_format_ufos format target_dir ufos targets).
Proof.
  revert targets. induction ufos as [|ufo ufos IH]; intros targets; simpl; [apply tidy_ret|].
  repeat tidy_step; try apply tidy_fontmake_args; try apply IH.
  apply tidy_w_build, build_format_not_stamp_rule.
Qed.

Lemma tidy_build_format_loop owned format target_dir ds targets :
  tidy owned (build_format_loop format target_dir ds targets).
Proof.
  revert targets.
  induction ds as [|[path d] ds IH]; intros targets; simpl; [apply tidy_ret|].
  repeat tidy_step; first [apply tidy_build_format_ufos | apply IH].
Qed.

(** [build_a_static_format] is tidy for every tidy post-processor. *)
Lemma tidy_build_a_static_format owned format directory postprocessor :
  (∀ t, tidy owned (postprocessor t)) →
  tidy owned (build_a_static_format format directory postprocessor).
Proof.
  intros Hp. unfold build_a_static_format.
  repeat tidy_step; first [apply tidy_build_format_loop | apply Hp].
Qed.

Lemma tidy_GFBuilder_build_static owned : tidy owned GFBuilder_build_static.
Proof.
  unfold GFBuilder_build_static.
  repeat tidy_step; apply tidy_build_a_static_format; intros t;
    first [apply tidy_post_process_ttf | apply tidy_post_process].
Qed.

Lemma tidy_build_static owned : tidy owned build_static.
Proof.
  unfold build_static.
  repeat tidy_step; first [apply tidy_interpolate_ufos | apply tidy_GFBuilder_build_static].
Qed.

Lemma tidy_setup_rules owned : tidy owned setup_rules.
Proof. unfold setup_rules. repeat tidy_step. Qed.

Lemma tidy_get_designspace owned env source : tidy owned (get_designspace env source).
Proof.
  unfold get_designspace, designspaces_append, os_makedirs_exist_ok, designspace_write.
  repeat tidy_step.
  by apply tidy_w_build, not_stamp_rule.
Qed.

Lemma tidy_get_designspaces owned env : tidy owned (get_designspaces env).
Proof. unfold get_designspaces. repeat tidy_step. apply tidy_get_designspace. Qed.

Lemma tidy_w_close owned : tidy owned w_close.
Proof.
  apply tidy_unchanged. intros st st' u H. unfold w_close in H. run_inv H.
  unfold graph, recorded. simpl.
  by repeat match goal with H : _ = Some _ |- _ => rewrite H end.
Qed.

(** Everything [build] does between opening the graph file and closing it. *)
Lemma tidy_stages env :
  tidy []
    (setup_rules ;;
     get_designspaces env ;;
     buildVariable <- config_item "buildVariable" ;;
     (if truthy buildVariable then
        build_variable ;;
        has_vtt <- config_has "vttSources" ;;
        if (has_vtt : bool) then vfDir <- config_item "vfDir" ;; build_vtt vfDir else ret tt
      else ret tt) ;;
     buildStatic <- config_item "buildStatic" ;;
     (if truthy buildStatic then
        build_static ;;
        has_vtt <- config_has "vttSources" ;;
        if (has_vtt : bool) then ttDir <- config_item "ttDir" ;; build_vtt ttDir else ret tt
      else ret tt) ;;
     w_close).
Proof.
  unfold build_vtt.
  repeat tidy_step;
    first [apply tidy_setup_rules | apply tidy_get_designspaces
          | apply tidy_build_variable | apply tidy_build_static | apply tidy_w_close].
Qed.

Lemma tidy_stamps_recorded {A} (m : M A) st st' a :
  tidy [] m → stamps_recorded st → m st = (st', inr a) → stamps_recorded st'.
Proof.
  intros Hm Hst H. destruct (Hm _ _ _ H) as (n & t & [Hg Hr] & S).
  unfold stamps_recorded. rewrite Hg, Hr, stamp_outputs_app.
  intros x [Hx|Hx]%elem_of_app; apply elem_of_app; auto.
Qed.

Lemma write_graph_stamps_recorded env st st' :
  write_graph env st = (st', inr tt) → stamps_recorded st'.
Proof.
  unfold write_graph, open_build_ninja. intros H.
  apply bind_inv in H as (s1 & [] & H1 & H).
  apply bind_inv in H1 as (s0 & [] & H0 & H1).
  apply modify_inv in H0 as ->. apply modify_inv in H1 as ->.
  apply bind_inv in H as (s2 & [] & H2 & H). apply modify_inv in H2 as ->.
  eapply (tidy_stamps_recorded _ _ _ _ (tidy_stages env)); [|exact H].
  unfold stamps_recorded. simpl. intros x Hx. by apply elem_of_nil in Hx.
Qed.

(** ** Quiet methods: no edge of a rule is written *)

Section quiet.
Context {A B : Type} (r : string).

Lemma quiet_same_graph (m : M A) :
  (∀ st st' a, m st = (st', inr a) → graph st' = graph st ∧ config st' = config st) →
  quiet r m.
Proof.
  intros Hm st st' a H. destruct (Hm _ _ _ H) as [Hg Hc].
  exists []. by rewrite app_nil_r, Hg.
Qed.

Lemma quiet_bind (m : M A) (k : A → M B) :
  quiet r m → (∀ a, quiet r (k a)) → quiet r (bind m k).
Proof.
  intros Hm Hk st st' b H. apply bind_inv in H as (st1 & a & H1 & H2).
  destruct (Hm _ _ _ H1) as (n1 & G1 & E1 & C1).
  destruct (Hk a _ _ _ H2) as (n2 & G2 & E2 & C2).
  exists (n1 ++ n2). rewrite G2, G1, app_assoc. split; [done|].
  rewrite edges_of_rule_app, E1, E2. split; [done|congruence].
Qed.

Lemma quiet_ret (a : A) : quiet r (ret a).
Proof. apply quiet_same_graph. by intros st st' a' [= -> _]. Qed.

Lemma quiet_raise e : quiet r (raise e : M A).
Proof. by intros st st' a. Qed.

Lemma quiet_lift (x : exn + A) : quiet r (lift x).
Proof. destruct x; [apply quiet_raise | apply quiet_ret]. Qed.

Lemma quiet_if (b : bool) (m1 m2 : M A) :
  quiet r m1 → quiet r m2 → quiet r (if b then m1 else m2).
Proof. by destruct b. Qed.

Lemma quiet_attribute attr (f : NinjaBuilder → option A) : quiet r (attribute attr f).
Proof. apply quiet_same_graph. intros st st' a H. by run_inv H. Qed.
End quiet.

Lemma quiet_for_each {A} r (l : list A) (body : A → M unit) :
  (∀ x, quiet r (body x)) → quiet r (for_each l body).
Proof.
  intros Hb. induction l as [|x l IH]; simpl; [apply quiet_ret|].
  apply quiet_bind; auto.
Qed.

Lemma quiet_config_item r key : quiet r (config_item key).
Proof. apply quiet_same_graph. intros st st' a H. by run_inv H. Qed.

Lemma quiet_config_has r key : quiet r (config_has key).
Proof. apply quiet_same_graph. intros st st' a H. by run_inv H. Qed.

Lemma quiet_as_str r v : quiet r (as_str v).
Proof. apply quiet_same_graph. intros st st' a H. by run_inv H. Qed.

Lemma quiet_iterate r v : quiet r (iterate v).
Proof. destruct v; first [apply quiet_raise | apply quiet_ret]. Qed.

Lemma quiet_modify r f :
  (∀ st, w (f st) = w st ∧ config (f st) = config st) → quiet r (modify f).
Proof.
  intros Hf. apply quiet_same_graph. intros st st' a H. run_inv H.
  destruct (Hf st) as [Hw Hc]. unfold graph. by rewrite Hw.
Qed.

Lemma quiet_temporaries_append r x : quiet r (temporaries_append x).
Proof.
  intros st st' u H. apply appends_temporaries_append in H as ([G _] & C & _). by exists [].
Qed.

Lemma quiet_write r s : edges_of_rule r [s] = [] → quiet r (write s).
Proof.
  intros Hs st st' u H. apply appends_write in H as ([G _] & C & _). by exists [s].
Qed.

Lemma quiet_w_build r outs r' ins imp vars :
  r' ≠ r → quiet r (w_build outs r' ins imp vars).
Proof.
  intros Hr. apply quiet_write. rewrite edges_of_rule_build. simpl.
  by rewrite decide_False.
Qed.

Lemma quiet_w_close r : quiet r w_close.
Proof.
  apply quiet_same_graph. intros st st' u H. unfold w_close in H. run_inv H.
  unfold graph. simpl. by repeat match goal with H : _ = Some _ |- _ => rewrite H end.
Qed.

Ltac quiet_step :=
  lazymatch goal with
  | |- quiet _ (bind _ _) => apply quiet_bind; [|intros ?]
  | |- quiet _ (ret _) => apply quiet_ret
  | |- quiet _ (raise _) => apply quiet_raise
  | |- quiet _ (lift _) => apply quiet_lift
  | |- quiet _ (attribute _ _) => apply quiet_attribute
  | |- quiet _ (config_item _) => apply quiet_config_item
  | |- quiet _ (config_has _) => apply quiet_config_has
  | |- quiet _ (as_str _) => apply quiet_as_str
  | |- quiet _ (iterate _) => apply quiet_iterate
  | |- quiet _ (modify _) => apply quiet_modify; intros ?; split; reflexivity
  | |- quiet _ (temporaries_append _) => apply quiet_temporaries_append
  | |- quiet _ (w_comment _) => apply quiet_write; reflexivity
  | |- quiet _ w_newline => apply quiet_write; reflexivity
  | |- quiet _ (w_rule _ _) => apply quiet_write; reflexivity
  | |- quiet _ (w_build _ _ _ _ _) => apply quiet_w_build; discriminate
  | |- quiet _ (for_each _ _) => apply quiet_for_each; intros ?
  | |- quiet _ (if ?b then _ else _) => first [apply quiet_if | destruct b]
  | |- quiet _ (match ?x with _ => _ end) => destruct x
  end.

Lemma quiet_fontmake_args r args : quiet r (fontmake_args args).
Proof. unfold fontmake_args. repeat quiet_step. Qed.

Lemma quiet_post_process file imp : quiet "genstat" (post_process file imp).
Proof. unfold post_process. repeat quiet_step. Qed.

Lemma quiet_post_process_ttf filename : quiet "genstat" (post_process_ttf filename).
Proof. unfold post_process_ttf. repeat quiet_step; apply quiet_post_process. Qed.

Lemma quiet_build_format_ufos format target_dir ufos targets :
  quiet "genstat" (build_format_ufos format target_dir ufos targets).
Proof.
  revert targets. induction ufos as [|ufo ufos IH]; intros targets; simpl; [apply quiet_ret|].
  repeat quiet_step; first [apply quiet_fontmake_args | apply IH].
Qed.

Lemma quiet_build_format_loop format target_dir ds targets :
  quiet "genstat" (build_format_loop format target_dir ds targets).
Proof.
  revert targets.
  induction ds as [|[path d] ds IH]; intros targets; simpl; [apply quiet_ret|].
  repeat quiet_step; first [apply quiet_build_format_ufos | apply IH].
Qed.

Lemma quiet_build_a_static_format format directory postprocessor :
  (∀ t, quiet "genstat" (postprocessor t)) →
  quiet "genstat" (build_a_static_format format directory postprocessor).
Proof.
  intros Hp. unfold build_a_static_format.
  repeat quiet_step; first [apply quiet_build_format_loop | apply Hp].
Qed.

Lemma quiet_build_static : quiet "genstat" build_static.
Proof.
  unfold build_static, GFBuilder_build_static, interpolate_ufos.
  repeat quiet_step; apply quiet_build_a_static_format; intros t;
    first [apply quiet_post_process_ttf | apply quiet_post_process].
Qed.

Lemma quiet_setup_rules : quiet "genstat" setup_rules.
Proof. unfold setup_rules. repeat quiet_step. Qed.

Lemma quiet_get_designspaces env : quiet "genstat" (get_designspaces env).
Proof.
  unfold get_designspaces, get_designspace, designspaces_append,
    os_makedirs_exist_ok, designspace_write.
  repeat quiet_step.
Qed.

(** ** What the stage methods write *)

(** *** Post-processing *)

Lemma implicit_arg_suffix f c s :
  implicit_arg (Some (f +:+ String c s)) = [f +:+ String c s].
Proof.
  unfold implicit_arg. case_decide as H; [|done].
  destruct f; discriminate H.
Qed.

Lemma post_process_spec file imp st st' u :
  post_process file imp st = (st', inr u) →
  ∃ vars,
    appends st st' [Build (fix_edge file (implicit_arg imp) vars)] [file +:+ ".fixstamp"].
Proof.
  unfold post_process. intros H.
  apply bind_inv in H as (s0 & fixes & H0 & H). run_inv H0.
  apply bind_inv in H as (s1 & [] & Rt & H).
  apply appends_temporaries_append in Rt. apply appends_write in H.
  eexists. apply (appends_trans _ _ _ _ _ _ _ Rt H).
Qed.

Lemma post_process_ttf_spec filename st st' u :
  post_process_ttf filename st = (st', inr u) →
  ∃ vars,
    let hint := enabled (config st) "autohintTTF" in
    let web := enabled (config st) "buildWebfont" in
    appends st st'
      ((if hint then [Build (autohint_edge filename)] else []) ++
       [Build (fix_edge filename
                 (if hint then [filename +:+ ".autohintstamp"] else []) vars)] ++
       (if web then
          [Build (webfont_edge
                    (Str.replace (str_of (config st) "ttDir") (str_of (config st) "woffDir")
                       (Str.replace ".ttf" ".woff2" filename)) filename)]
        else []))
      ((if hint then [filename +:+ ".autohintstamp"] else []) ++
       [filename +:+ ".fixstamp"]).
Proof.
  unfold post_process_ttf. intros H.
  apply bind_inv in H as (s0 & hint & H0 & H).
  apply config_item_inv in H0 as [-> Hhint].
  apply bind_inv in H as (s1 & [] & Hfix & H).
  assert (∃ vars, appends st s1
      ((if truthy hint then [Build (autohint_edge filename)] else []) ++
       [Build (fix_edge filename
                 (if truthy hint then [filename +:+ ".autohintstamp"] else []) vars)])
      ((if truthy hint then [filename +:+ ".autohintstamp"] else []) ++
       [filename +:+ ".fixstamp"])) as (vars & E1).
  { destruct (truthy hint).
    - apply bind_inv in Hfix as (sa & script & Ha & Hfix).
      apply config_item_inv in Ha as [-> _].
      apply bind_inv in Hfix as (sb & [] & Hb & Hfix).
      assert (sb = st) as -> by (destruct (truthy script); by run_inv Hb).
      apply bind_inv in Hfix as (sc & [] & Hc & Hfix). apply appends_write in Hc.
      apply bind_inv in Hfix as (sd & [] & Hd & Hfix).
      apply appends_temporaries_append in Hd.
      apply post_process_spec in Hfix as (vars & He).
      rewrite implicit_arg_suffix in He. exists vars.
      pose proof (appends_trans _ _ _ _ _ _ _ (appends_trans _ _ _ _ _ _ _ Hc Hd) He) as E.
      by rewrite app_nil_r in E.
    - apply post_process_spec in Hfix as (vars & He). by exists vars. }
  exists vars. simpl. rewrite (enabled_lookup _ _ _ Hhint).
  apply bind_inv in H as (s2 & web & Hw & H).
  apply config_item_inv in Hw as [-> Hweb].
  pose proof E1 as (_ & C1 & _). rewrite C1 in Hweb.
  rewrite (enabled_lookup _ _ _ Hweb).
  destruct (truthy web).
  - apply bind_inv in H as (s3 & ttDir & Ht & H).
    apply config_item_inv in Ht as [-> Ht].
    apply bind_inv in H as (s3 & woffDir & Hwd & H).
    apply config_item_inv in Hwd as [-> Hwd].
    apply bind_inv in H as (s3 & tt & Hs & H). apply as_str_inv in Hs as [-> ->].
    apply bind_inv in H as (s3 & wd & Hs & H). apply as_str_inv in Hs as [-> ->].
    rewrite C1 in Ht, Hwd.
    rewrite (str_of_lookup _ _ _ Ht), (str_of_lookup _ _ _ Hwd).
    apply appends_write in H. rewrite implicit_arg_suffix in H.
    pose proof (appends_trans _ _ _ _ _ _ _ E1 H) as E.
    by rewrite app_nil_r, <- app_assoc in E.
  - apply ret_inv in H as [-> _]. done.
Qed.

Lemma post_process_returns file imp st :
  writing st = true → has_key (config st) "includeSourceFixes" = true →
  ∃ st', post_process file imp st = (st', inr tt) ∧ writing st' = true.
Proof.
  intros (out & ts & ->)%writing_inv (v & Hv)%has_key_lookup. simpl in *.
  unfold post_process. run_forward. eexists. split; [reflexivity|done].
Qed.

Lemma post_process_ttf_returns filename st :
  writing st = true → post_process_ttf_ready (config st) = true →
  ∃ st', post_process_ttf filename st = (st', inr tt) ∧ writing st' = true.
Proof.
  intros (out & ts & ->)%writing_inv. simpl. unfold post_process_ttf_ready.
  rewrite !andb_true_iff, !orb_true_iff, !andb_true_iff, !negb_true_iff.
  intros ((((Hh & Hs) & (fixes & Hf)%has_key_lookup) & (web & Hw)%has_key_lookup) & Hd).
  apply has_key_lookup in Hh as (hint & Hh).
  unfold enabled in Hs, Hd. rewrite Hh in Hs. rewrite Hw in Hd. simpl in Hs, Hd.
  unfold post_process_ttf, post_process.
  destruct (truthy hint) eqn:Eh, (truthy web) eqn:Ew.
  all: try (destruct Hs as [[=]|[(script & Hs)%has_key_lookup Hscript]];
            rewrite Hs in Hscript; simpl in Hscript).
  all: try (destruct Hd as [[=]|[(tt & Ht)%has_str_lookup (wd & Hwd)%has_str_lookup]]).
  all: run_forward; eexists; (split; [reflexivity|done]).
Qed.

(** *** The variable-font stage *)

Lemma fontmake_args_spec args st st' r :
  fontmake_args args st = (st', inr r) → st' = st.
Proof.
  unfold fontmake_args. intros H.
  apply bind_inv in H as (s0 & v0 & H0 & H). apply config_item_inv in H0 as [-> _].
  apply bind_inv in H as (s0 & v1 & H0 & H). apply config_item_inv in H0 as [-> _].
  by apply ret_inv in H as [-> _].
Qed.

Lemma build_variable_loop_spec ds : ∀ axis_tags targets st st' r,
  build_variable_loop ds axis_tags targets st = (st', inr r) →
  ∃ es,
    appends st st' (Build <$> es) [] ∧
    shape <$> es =
      (fun d => ([variable_target (str_of (config st) "vfDir") d.1 (axis_tags_of d.2)],
                 "variable", [d.1], [])) <$> ds ∧
    r.2 = targets ++ variable_targets (str_of (config st) "vfDir") ds ∧
    (ds = [] → r.1 = axis_tags) ∧
    (ds ≠ [] → has_str (config st) "vfDir" = true).
Proof.
  induction ds as [|[path d] ds IH]; intros axis_tags targets st st' r H; simpl in H.
  - apply ret_inv in H as [-> ->]. exists []. simpl. rewrite app_nil_r.
    split; [apply appends_refl|]. done.
  - apply bind_inv in H as (s0 & v & H0 & H). apply config_item_inv in H0 as [-> Hv].
    apply bind_inv in H as (s0 & vfDir & H0 & H). apply as_str_inv in H0 as [-> ->].
    apply bind_inv in H as (s0 & args & H0 & H). apply fontmake_args_spec in H0 as ->.
    apply bind_inv in H as (s1 & [] & Hw & H). apply appends_write in Hw.
    apply IH in H as (es & Ha & Hs & Hr & _ & _).
    pose proof Hw as (_ & Hcfg & _). rewrite Hcfg in Hs, Hr.
    rewrite (str_of_lookup _ _ _ Hv) in *.
    exists (variable_edge (variable_target vfDir path (axis_tags_of d)) path
              [("fontmake_args", VStr args)] :: es).
    split; [exact (appends_trans _ _ _ _ _ _ _ Hw Ha)|].
    split; [by rewrite !fmap_cons, Hs|]. split; [by rewrite Hr, <- app_assoc|].
    split; [done|]. intros _. unfold has_str. by rewrite Hv.
Qed.

Lemma gen_stat_spec axis_tags targets st st' stampfile :
  gen_stat axis_tags targets st = (st', inr stampfile) →
  ∃ t0 rest vars,
    targets = t0 :: rest ∧ stampfile = t0 +:+ ".statstamp" ∧
    extends st st'
      [Comment "Generate STAT tables"; Build (genstat_edge stampfile targets vars); Newline]
      [stampfile] ∧
    designspaces st' = designspaces st ∧
    (∀ key, key ≠ "axisOrder" → config st' !! key = config st !! key) ∧
    has_key (config st) "stylespaceFile" = false ∧
    has_key (config st) "statFormat4" = false.
Proof.
  unfold gen_stat. intros H.
  apply bind_inv in H as (s0 & [] & H0 & H). apply appends_write in H0.
  destruct H0 as (E0 & C0 & D0).
  apply bind_inv in H as (s1 & has_order & H1 & H). apply config_has_inv in H1 as [-> _].
  apply bind_inv in H as (s1 & [] & H1 & H).
  assert (extends s0 s1 [] [] ∧ designspaces s1 = designspaces s0 ∧
          (∀ key, key ≠ "axisOrder" → config s1 !! key = config s0 !! key)) as (E1 & D1 & C1).
  { destruct has_order; simpl in H1.
    - apply ret_inv in H1 as [-> _]. split; [apply extends_refl|done].
    - apply bind_inv in H1 as (sa & order & Ha & H1). apply ret_inv in Ha as [-> _].
      apply bind_inv in H1 as (sa & [] & Ha & H1). apply modify_inv in Ha as ->.
      apply bind_inv in H1 as (sb & ds & Hb & H1). apply attribute_inv in Hb as [-> _].
      destruct (any_italic ds).
      + apply modify_inv in H1 as ->.
        split; [unfold extends, graph, recorded; simpl; by rewrite !app_nil_r|].
        split; [done|].
        intros key Hk. simpl. by rewrite !lookup_insert_ne.
      + apply ret_inv in H1 as [-> _].
        split; [unfold extends, graph, recorded; simpl; by rewrite !app_nil_r|].
        split; [done|].
        intros key Hk. simpl. by rewrite lookup_insert_ne. }
  apply bind_inv in H as (s2 & has_stat & H2 & H). apply config_has_inv in H2 as [-> _].
  apply bind_inv in H as (s2 & other_args & H2 & H).
  assert (s2 = s1) as ->.
  { destruct has_stat; [|by apply ret_inv in H2 as [-> _]].
    apply bind_inv in H2 as (sa & stat & Ha & H2). apply config_item_inv in Ha as [-> _].
    by apply ret_inv in H2 as [-> _]. }
  apply bind_inv in H as (s2 & has_ss & H3 & H). apply config_has_inv in H3 as [-> ->].
  apply bind_inv in H as (s2 & has_f4 & H3 & H). apply config_has_inv in H3 as [-> ->].
  apply bind_inv in H as (s2 & [] & H3 & H).
  destruct (bool_decide (is_Some (config s1 !! "stylespaceFile"))) eqn:Ess;
    [destruct (raise_inv _ _ _ _ H3)|].
  destruct (bool_decide (is_Some (config s1 !! "statFormat4"))) eqn:Ef4;
    [destruct (raise_inv _ _ _ _ H3)|].
  simpl in H3. apply ret_inv in H3 as [-> _].
  apply bind_inv in H as (s2 & stamp & H3 & H).
  destruct targets as [|t0 rest]; [destruct (raise_inv _ _ _ _ H3)|].
  apply ret_inv in H3 as [-> ->].
  apply bind_inv in H as (s2 & [] & H3 & H). apply appends_temporaries_append in H3.
  destruct H3 as (E3 & C3 & D3).
  apply bind_inv in H as (s3 & order & H4 & H). apply config_item_inv in H4 as [-> _].
  apply bind_inv in H as (s3 & [] & H4 & H). apply appends_write in H4.
  destruct H4 as (E4 & C4 & D4).
  apply bind_inv in H as (s4 & [] & H5 & H). apply appends_write in H5.
  destruct H5 as (E5 & C5 & D5).
  apply ret_inv in H as [-> ->].
  eexists t0, rest, _. split; [done|]. split; [done|].
  split; [|split; [congruence|split; [|split]]].
  - pose proof (extends_trans _ _ _ _ _ _ _
      (extends_trans _ _ _ _ _ _ _
        (extends_trans _ _ _ _ _ _ _
           (extends_trans _ _ _ _ _ _ _ E0 E1) E3) E4) E5) as E.
    exact E.
  - intros key Hk. rewrite C5, C4, C3, C1, C0; done.
  - unfold has_key. rewrite <- C0, <- (C1 "stylespaceFile") by done. done.
  - unfold has_key. rewrite <- C0, <- (C1 "statFormat4") by done. done.
Qed.

Lemma for_each_post_process_spec imp targets : ∀ st st' u,
  for_each targets (fun t => post_process t imp) st = (st', inr u) →
  ∃ es,
    appends st st' (Build <$> es) ((fun t => t +:+ ".fixstamp") <$> targets) ∧
    shape <$> es =
      (fun t => ([t +:+ ".fixstamp"], "fix", [t], implicit_arg imp)) <$> targets.
Proof.
  induction targets as [|t targets IH]; intros st st' u H; simpl in H.
  - apply ret_inv in H as [-> _]. exists []. split; [apply appends_refl|done].
  - apply bind_inv in H as (s0 & [] & H0 & H).
    apply post_process_spec in H0 as (vars & H0).
    apply IH in H as (es & Ha & Hs).
    exists (fix_edge t (implicit_arg imp) vars :: es).
    split; [exact (appends_trans _ _ _ _ _ _ _ H0 Ha)|].
    by rewrite !fmap_cons, Hs.
Qed.

Lemma build_variable_spec st st' u :
  build_variable st = (st', inr u) →
  ∃ ds es_variable vars es_fix,
    let targets := variable_targets (str_of (config st) "vfDir") ds in
    let stampfile := hd "" targets +:+ ".statstamp" in
    designspaces st = Some ds ∧ ds ≠ [] ∧ has_str (config st) "vfDir" = true ∧
    extends st st'
      ([Newline; Comment "VARIABLE FONTS"; Newline] ++ (Build <$> es_variable) ++
       [Newline; Comment "Generate STAT tables";
        Build (genstat_edge stampfile targets vars); Newline;
        Comment "Variable font post-processing"] ++ (Build <$> es_fix))
      (stampfile :: ((fun t => t +:+ ".fixstamp") <$> targets)) ∧
    shape <$> es_variable =
      (fun d => ([variable_target (str_of (config st) "vfDir") d.1 (axis_tags_of d.2)],
                 "variable", [d.1], [])) <$> ds ∧
    shape <$> es_fix =
      (fun t => ([t +:+ ".fixstamp"], "fix", [t], [stampfile])) <$> targets.
Proof.
  unfold build_variable. intros H.
  apply bind_inv in H as (s1 & [] & H1 & H). apply appends_write in H1.
  apply bind_inv in H as (s2 & [] & H2 & H). apply appends_write in H2.
  apply bind_inv in H as (s3 & [] & H3 & H). apply appends_write in H3.
  pose proof (appends_trans _ _ _ _ _ _ _ (appends_trans _ _ _ _ _ _ _ H1 H2) H3) as A3.
  clear H1 H2 H3. simpl in A3. destruct A3 as (E3 & C3 & D3).
  apply bind_inv in H as (s4 & ds & H4 & H). apply attribute_inv in H4 as [-> Hds].
  apply bind_inv in H as (s4 & [axis_tags targets] & H4 & H).
  apply build_variable_loop_spec in H4 as (es & (E4 & C4 & D4) & Hes & Ht & Hnil & Hstr).
  simpl in Ht, Hnil. rewrite C3 in Hes, Ht, Hstr. subst targets.
  apply bind_inv in H as (s5 & [] & H5 & H). apply appends_write in H5.
  destruct H5 as (E5 & C5 & D5).
  apply bind_inv in H as (s6 & tags & H6 & H). apply lift_option_inv in H6 as [-> ->].
  assert (ds ≠ []) as Hne by (intros ->; by specialize (Hnil eq_refl)).
  apply bind_inv in H as (s6 & stampfile & H6 & H).
  apply gen_stat_spec in H6 as (t0 & rest & vars & Ht0 & -> & E6 & D6 & C6 & _).
  apply bind_inv in H as (s7 & [] & H7 & H). apply appends_write in H7.
  destruct H7 as (E7 & C7 & D7).
  apply for_each_post_process_spec in H as (es_fix & (E8 & C8 & D8) & Hfix).
  rewrite implicit_arg_suffix in Hfix.
  exists ds, es, vars, es_fix. cbv zeta.
  assert (hd "" (variable_targets (str_of (config st) "vfDir") ds) = t0) as ->
    by (by rewrite Ht0).
  split; [congruence|]. split; [done|]. split; [by apply Hstr|].
  split; [|done].
  pose proof (extends_trans _ _ _ _ _ _ _
    (extends_trans _ _ _ _ _ _ _
      (extends_trans _ _ _ _ _ _ _
        (extends_trans _ _ _ _ _ _ _
          (extends_trans _ _ _ _ _ _ _ E3 E4) E5) E6) E7) E8) as E.
  rewrite <- !app_assoc in E. exact E.
Qed.

Lemma fontmake_args_returns args st :
  has_key (config st) "flattenComponents" = true →
  has_key (config st) "decomposeTransformedComponents" = true →
  ∃ r, fontmake_args args st = (st, inr r).
Proof.
  intros (v1 & H1)%has_key_lookup (v2 & H2)%has_key_lookup.
  unfold fontmake_args. run_forward. by eexists.
Qed.

Lemma build_variable_loop_returns ds : ∀ axis_tags targets st,
  writing st = true →
  has_str (config st) "vfDir" = true →
  has_key (config st) "flattenComponents" = true →
  has_key (config st) "decomposeTransformedComponents" = true →
  ∃ st' r,
    build_variable_loop ds axis_tags targets st = (st', inr r) ∧
    writing st' = true ∧ (ds ≠ [] → is_Some r.1).
Proof.
  induction ds as [|[path d] ds IH]; intros axis_tags targets st Hw Hv Hf Hd; simpl.
  - eexists st, _. split; [reflexivity|]. done.
  - pose proof Hv as (vfDir & Hv')%has_str_lookup.
    rewrite (bind_run _ _ st st (VStr vfDir)) by (unfold config_item; by rewrite Hv').
    rewrite (bind_run _ _ st st vfDir) by done.
    destruct (fontmake_args_returns
                {["output_path" := variable_target vfDir path (axis_tags_of d)]} st Hf Hd)
      as (args & Ha).
    rewrite (bind_run _ _ _ _ _ Ha).
    destruct (write_returns
      (Build {| outputs := as_list (variable_target vfDir path (axis_tags_of d));
                rule := "variable"; inputs := as_list path; implicit := [];
                variables := [("fontmake_args", VStr args)] |}) st Hw) as (s1 & Hwr & Hw1).
    pose proof (appends_write _ _ _ _ Hwr) as (_ & C1 & _).
    unfold w_build. rewrite (bind_run _ _ _ _ _ Hwr).
    destruct (IH (Some (axis_tags_of d))
                 (targets ++ [variable_target vfDir path (axis_tags_of d)]) s1)
      as (st' & r & Hr & Hw' & Hsome); rewrite ?C1; try done.
    exists st', r. split; [done|]. split; [done|]. intros _.
    destruct ds as [|d' ds]; [|by apply Hsome].
    simpl in Hr. apply ret_inv in Hr as [_ ->]. by eexists.
Qed.

(** The head of [gen_stat]: the axis order is filled in when it is not
    configured. *)
Lemma default_axis_order_returns axis_tags ds st :
  designspaces st = Some ds →
  ∃ st',
    (if negb (has_key (config st) "axisOrder") then
       order <- lift (from_option inr (inl (ValueError "empty separator"))
                        (Str.split "," axis_tags)) ;;
       modify (set_config (insert "axisOrder" (VSeq order))) ;;
       ds <- attribute "designspaces" designspaces ;;
       if any_italic ds
       then modify (set_config (insert "axisOrder" (VSeq (order ++ ["ital"]))))
       else ret tt
     else ret tt) st = (st', inr tt) ∧
    w st' = w st ∧ temporaries st' = temporaries st ∧
    designspaces st' = designspaces st ∧
    has_key (config st') "axisOrder" = true ∧
    (∀ key, key ≠ "axisOrder" → config st' !! key = config st !! key).
Proof.
  intros Hds. destruct (has_key (config st) "axisOrder") eqn:Ho; simpl.
  - by exists st.
  - unfold bind at 1. simpl. unfold bind at 1. simpl.
    unfold bind at 1, attribute. simpl. rewrite Hds.
    destruct (any_italic ds); simpl; eexists; (split; [reflexivity|]); simpl;
      (do 3 (split; [done|])); (split; [unfold has_key; by rewrite lookup_insert_eq|]);
      intros key Hk; by rewrite !lookup_insert_ne.
Qed.

Lemma gen_stat_returns axis_tags t0 rest st :
  writing st = true → is_Some (designspaces st) →
  has_key (config st) "stylespaceFile" = false →
  has_key (config st) "statFormat4" = false →
  ∃ st' stampfile,
    gen_stat axis_tags (t0 :: rest) st = (st', inr stampfile) ∧ writing st' = true.
Proof.
  intros Hw [ds Hds] Hss Hf4. unfold gen_stat.
  destruct (write_returns (Comment "Generate STAT tables") st Hw) as (s1 & H1 & Hw1).
  pose proof (appends_write _ _ _ _ H1) as (_ & C1 & D1).
  unfold w_comment. step H1. step (config_has_run "axisOrder" s1).
  rewrite Hds in D1.
  destruct (default_axis_order_returns axis_tags ds s1 D1)
    as (s2 & H2 & W2 & T2 & D2 & Ho & C2).
  step H2.
  assert (writing s2 = true) as Hw2 by (by rewrite (writing_eq _ _ W2 T2)).
  step (config_has_run "stat" s2).
  assert (∃ other_args,
    (if has_key (config s2) "stat"
     then stat <- config_item "stat" ;; ret ("--src " +:+ py_str stat)
     else ret "") s2 = (s2, inr other_args)) as (other_args & H3).
  { destruct (has_key (config s2) "stat") eqn:Hs; [|by eexists].
    apply has_key_lookup in Hs as (stat & Hs).
    rewrite (bind_run _ _ _ _ _ (config_item_run _ _ _ Hs)). by eexists. }
  step H3.
  step (config_has_run "stylespaceFile" s2). step (config_has_run "statFormat4" s2).
  unfold has_key at 1 2. rewrite !C2, !C1 by done.
  rewrite (has_key_false _ _ Hss), (has_key_false _ _ Hf4).
  rewrite !bool_decide_eq_false_2 by (by intros [? ?]). simpl.
  unfold bind at 1. simpl. unfold bind at 1. simpl.
  destruct (temporaries_append_returns (t0 +:+ ".statstamp") s2 Hw2) as (s3 & H4 & Hw3).
  pose proof (appends_temporaries_append _ _ _ _ H4) as (_ & C3 & _).
  step H4.
  apply has_key_lookup in Ho as (order & Ho). rewrite <- C3 in Ho.
  step (config_item_run _ _ _ Ho).
  match goal with |- context [w_build ?a ?b ?c ?d ?e] =>
    destruct (write_returns (Build {| outputs := a; rule := b; inputs := c;
                                      implicit := d; variables := e |}) s3 Hw3)
      as (s4 & H5 & Hw4) end.
  unfold w_build. step H5.
  destruct (write_returns Newline s4 Hw4) as (s5 & H6 & Hw5).
  unfold w_newline. step H6. by eexists _, _.
Qed.

Lemma for_each_post_process_returns imp targets : ∀ st,
  writing st = true → has_key (config st) "includeSourceFixes" = true →
  ∃ st', for_each targets (fun t => post_process t imp) st = (st', inr tt) ∧
         writing st' = true.
Proof.
  induction targets as [|t targets IH]; intros st Hw Hf; simpl; [by exists st|].
  destruct (post_process_returns t imp st Hw Hf) as (s1 & H1 & Hw1).
  destruct (post_process_spec _ _ _ _ _ H1) as (vars & _ & C1 & _).
  step H1. apply IH; [done|by rewrite C1].
Qed.

Lemma build_variable_returns st :
  build_variable_ready st = true →
  ∃ st', build_variable st = (st', inr tt).
Proof.
  unfold build_variable_ready. rewrite !andb_true_iff, !negb_true_iff.
  intros (((((((Hw & Hds) & Hv) & Hf) & Hd) & Hi) & Hss) & Hf4).
  destruct (designspaces st) as [[|d ds]|] eqn:Eds; try discriminate. clear Hds.
  unfold build_variable, w_newline, w_comment.
  destruct (write_returns Newline st Hw) as (s1 & H1 & Hw1).
  pose proof (appends_write _ _ _ _ H1) as (_ & C1 & D1). step H1.
  destruct (write_returns (Comment "VARIABLE FONTS") s1 Hw1) as (s2 & H2 & Hw2).
  pose proof (appends_write _ _ _ _ H2) as (_ & C2 & D2). step H2.
  destruct (write_returns Newline s2 Hw2) as (s3 & H3 & Hw3).
  pose proof (appends_write _ _ _ _ H3) as (_ & C3 & D3). step H3.
  assert (config s3 = config st) as C by congruence.
  assert (designspaces s3 = Some (d :: ds)) as D by congruence.
  rewrite (bind_run _ _ s3 s3 (d :: ds)) by (unfold attribute; by rewrite D).
  destruct (build_variable_loop_returns (d :: ds) None [] s3)
    as (s4 & [axis_tags targets] & H4 & Hw4 & Hsome); rewrite ?C; try done.
  destruct (build_variable_loop_spec _ _ _ _ _ _ H4) as (es & (_ & C4 & D4) & _ & Ht & _ & _).
  simpl in Ht. destruct (Hsome ltac:(done)) as [tags Htags]. simpl in Htags. subst axis_tags.
  step H4.
  destruct (write_returns Newline s4 Hw4) as (s5 & H5 & Hw5).
  pose proof (appends_write _ _ _ _ H5) as (_ & C5 & D5). step H5.
  rewrite (bind_run _ _ s5 s5 tags) by done.
  rewrite Ht.
  destruct (gen_stat_returns tags
              (variable_target (str_of (config s3) "vfDir") d.1 (axis_tags_of d.2))
              (variable_targets (str_of (config s3) "vfDir") ds) s5)
    as (s6 & stampfile & H6 & Hw6).
  { done. } { rewrite D5, D4, D. by eexists. }
  { by rewrite C5, C4, C. } { by rewrite C5, C4, C. }
  destruct (gen_stat_spec _ _ _ _ _ H6) as (_ & _ & _ & _ & _ & _ & _ & C6 & _).
  simpl variable_targets. unfold variable_targets in H6. simpl in H6. step H6.
  destruct (write_returns (Comment "Variable font post-processing") s6 Hw6)
    as (s7 & H7 & Hw7).
  pose proof (appends_write _ _ _ _ H7) as (_ & C7 & D7). step H7.
  destruct (for_each_post_process_returns (Some stampfile)
              (variable_target (str_of (config s3) "vfDir") d.1 (axis_tags_of d.2)
               :: ((fun d0 => variable_target (str_of (config s3) "vfDir") d0.1
                                (axis_tags_of d0.2)) <$> ds)) s7)
    as (s8 & H8 & _).
  { done. }
  { unfold has_key. rewrite C7, C6, C5, C4, C by done. exact Hi. }
  by exists s8.
Qed.

(** The outputs of the variable-font edges of a run of the stage. *)
Lemma build_variable_targets st st' :
  build_variable st = (st', inr tt) →
  ∃ ds news,
    designspaces st = Some ds ∧
    graph st' = graph st ++ news ∧
    outputs <$> edges_of_rule "variable" news =
      (fun t => [t]) <$> variable_targets (str_of (config st) "vfDir") ds.
Proof.
  intros H.
  apply build_variable_spec in H
    as (ds & es_variable & vars & es_fix & Hds & _ & _ & [Hg Hr] & Hvar & Hfix).
  cbv zeta in *.
  pose proof (shape_rule _ "variable" _ _ Hvar (fun _ => eq_refl)) as Rvar.
  pose proof (shape_rule _ "fix" _ _ Hfix (fun _ => eq_refl)) as Rfix.
  eexists ds, _. split; [done|]. split; [exact Hg|].
  pick_edges. rewrite !(edges_of_rule_builds _ _ _ Rvar), !(edges_of_rule_builds _ _ _ Rfix).
  simpl. rewrite app_nil_r, fmap_shape_outputs, Hvar.
  unfold variable_targets. by rewrite <- !list_fmap_compose.
Qed.

Lemma build_variable_genstat st st' u :
  build_variable st = (st', inr u) →
  ∃ ds news stampfile,
    designspaces st = Some ds ∧ graph st' = graph st ++ news ∧
    shape <$> edges_of_rule "genstat" news
      = [([stampfile], "genstat", variable_targets (str_of (config st) "vfDir") ds, [])].
Proof.
  intros H.
  apply build_variable_spec in H
    as (ds & es_variable & vars & es_fix & Hds & _ & _ & [Hg Hr] & Hvar & Hfix).
  cbv zeta in *.
  pose proof (shape_rule _ "variable" _ _ Hvar (fun _ => eq_refl)) as Rvar.
  pose proof (shape_rule _ "fix" _ _ Hfix (fun _ => eq_refl)) as Rfix.
  eexists ds, _, _. split; [done|]. split; [exact Hg|].
  pick_edges. rewrite !(edges_of_rule_builds _ _ _ Rvar), !(edges_of_rule_builds _ _ _ Rfix).
  done.
Qed.

Lemma write_graph_genstat env st st' :
  write_graph env st = (st', inr tt) →
  if enabled (config st) "buildVariable"
  then ∃ ds stampfile,
         shape <$> edges_of_rule "genstat" (graph st')
         = [([stampfile], "genstat",
             variable_targets (str_of (config st) "vfDir") ds, [])]
  else edges_of_rule "genstat" (graph st') = [].
Proof.
  unfold write_graph, open_build_ninja. intros H.
  apply bind_inv in H as (s1 & [] & H1 & H).
  apply bind_inv in H1 as (s0 & [] & H0 & H1).
  apply modify_inv in H0 as ->. apply modify_inv in H1 as ->.
  apply bind_inv in H as (s2 & [] & H2 & H). apply modify_inv in H2 as ->.
  apply bind_inv in H as (s3 & [] & H3 & H).
  apply quiet_setup_rules in H3 as (n1 & G1 & E1 & C1). simpl in G1, C1.
  apply bind_inv in H as (s4 & [] & H4 & H).
  apply quiet_get_designspaces in H4 as (n2 & G2 & E2 & C2).
  apply bind_inv in H as (s5 & bv & H5 & H). apply config_item_inv in H5 as [-> Hbv].
  rewrite C2, C1 in Hbv. rewrite (enabled_lookup _ _ _ Hbv).
  apply bind_inv in H as (s5 & [] & H5 & H).
  apply bind_inv in H as (s6 & bs & H6 & H). apply config_item_inv in H6 as [-> _].
  apply bind_inv in H as (s6 & [] & H6 & H).
  assert (quiet "genstat"
    (if truthy bs then
       build_static ;;
       has_vtt <- config_has "vttSources" ;;
       if (has_vtt : bool) then ttDir <- config_item "ttDir" ;; build_vtt ttDir else ret tt
     else ret tt)) as Qs.
  { unfold build_vtt. repeat quiet_step. apply quiet_build_static. }
  apply Qs in H6 as (n3 & G3 & E3 & _).
  apply (quiet_w_close "genstat") in H as (n4 & G4 & E4 & _).
  destruct (truthy bv).
  - apply bind_inv in H5 as (sv & [] & Hv & H5).
    apply build_variable_genstat in Hv as (ds & news & stampfile & _ & Gv & Ev).
    rewrite C2, C1 in Ev.
    assert (s5 = sv) as ->.
    { apply bind_inv in H5 as (sx & has_vtt & Hx & H5).
      apply config_has_inv in Hx as [-> _].
      destruct has_vtt; [|by apply ret_inv in H5 as [-> _]].
      apply bind_inv in H5 as (sy & dir & _ & H5). destruct (raise_inv _ _ _ _ H5). }
    exists ds, stampfile.
    rewrite G4, G3, Gv, G2, G1, !edges_of_rule_app, E1, E2, E3, E4. simpl.
    by rewrite !app_nil_r.
  - apply ret_inv in H5 as [-> _].
    by rewrite G4, G3, G2, G1, !edges_of_rule_app, E1, E2, E3, E4.
Qed.

(** *** The instantiate edge, the scan and [set_target] *)





Lemma check_unsupported_aborts st key :
  key ∈ UNSUPPORTED → enabled (config st) key = true →
  ∃ key', key' ∈ UNSUPPORTED ∧ enabled (config st) key' = true ∧
    check_unsupported st
    = (set_logger (fun l => l ++ [(key' +:+ " configuration parameter not supported by ninja builder, " +:+ "falling back to classic GFBuilder")]) st,
       inl (NotImplementedError "")).
Proof.
  intros Hk He. unfold check_unsupported, UNSUPPORTED in *.
  assert (∀ k rest,
    for_each (k :: rest) (fun unsupported_key =>
      v <- config_get unsupported_key ;;
      if truthy v then
        logger_error (unsupported_key +:+
          " configuration parameter not supported by ninja builder, " +:+
          "falling back to classic GFBuilder") ;;
        raise (NotImplementedError "")
      else ret tt) st
    = if enabled (config st) k
      then (set_logger (fun l => l ++ [(k +:+ " configuration parameter not supported by ninja builder, " +:+ "falling back to classic GFBuilder")]) st,
            inl (NotImplementedError ""))
      else for_each rest (fun unsupported_key =>
        v <- config_get unsupported_key ;;
        if truthy v then
          logger_error (unsupported_key +:+
            " configuration parameter not supported by ninja builder, " +:+
            "falling back to classic GFBuilder") ;;
          raise (NotImplementedError "")
        else ret tt) st) as Hstep.
  { intros k rest. cbn [for_each]. unfold bind at 1. unfold bind at 1.
    unfold config_get, enabled. destruct (truthy (default VNone (config st !! k))); done. }
  rewrite !elem_of_cons, elem_of_nil in Hk.
  rewrite !Hstep.
  destruct (enabled (config st) "stylespaceFile") eqn:E1.
  { exists "stylespaceFile". rewrite !elem_of_cons. split; [tauto|done]. }
  destruct (enabled (config st) "statFormat4") eqn:E2.
  { exists "statFormat4". rewrite !elem_of_cons. split; [tauto|done]. }
  destruct (enabled (config st) "ttfaUseScript") eqn:E3.
  { exists "ttfaUseScript". rewrite !elem_of_cons. split; [tauto|done]. }
  destruct (enabled (config st) "vttSources") eqn:E4.
  { exists "vttSources". rewrite !elem_of_cons. split; [tauto|done]. }
  destruct Hk as [->|[->|[->|[->|[]]]]]; congruence.
Qed.

(** When no key of the unsupported-feature set has a true value, the scan
    returns and has touched nothing. *)
Lemma check_unsupported_passes st :
  Forall (fun key => enabled (config st) key = false) UNSUPPORTED →
  check_unsupported st = (st, inr tt).
Proof.
  unfold check_unsupported, UNSUPPORTED. intros H.
  repeat (apply Forall_cons in H as [? H]).
  unfold enabled in *. cbn [for_each]. unfold bind, config_get.
  repeat (match goal with Hk : truthy _ = false |- _ => rewrite Hk; clear Hk end;
          unfold ret; cbv beta iota).
  done.
Qed.

Lemma set_target_raises target self :
  InstantiateUFO.set_target target self
  = (self, inl (ValueError "Cannot set target on InstantiateUFO")).
Proof. done. Qed.

(** ** The properties of the graph compiler *)

(** C1: a run of the variable-font stage that returns has emitted exactly
    one table-generation edge; its inputs are the targets of the
    variable-font edges, one per collected designspace; its output is a
    recorded stamp file; and every variable-font target has its fix edge,
    with that stamp file as implicit input.  The stage returns whenever it
    finds what it reads.  In the graph of a whole build, the
    table-generation edge of the variable-font stage is the only one when
    the stage is enabled, and there is none when it is not. *)
Theorem one_genstat_edge_before_every_fix_edge env st :
  (∀ st', build_variable st = (st', inr tt) →
     ∃ ds news stampfile,
       let targets := variable_targets (str_of (config st) "vfDir") ds in
       designspaces st = Some ds ∧
       graph st' = graph st ++ news ∧
       outputs <$> edges_of_rule "variable" news = (fun t => [t]) <$> targets ∧
       shape <$> edges_of_rule "genstat" news = [([stampfile], "genstat", targets, [])] ∧
       stampfile ∈ recorded st' ∧
       shape <$> edges_of_rule "fix" news =
         (fun t => ([t +:+ ".fixstamp"], "fix", [t], [stampfile])) <$> targets) ∧
  (build_variable_ready st = true → ∃ st', build_variable st = (st', inr tt)) ∧
  (∀ st', write_graph env st = (st', inr tt) →
     if enabled (config st) "buildVariable"
     then ∃ ds stampfile,
            shape <$> edges_of_rule "genstat" (graph st')
            = [([stampfile], "genstat",
                variable_targets (str_of (config st) "vfDir") ds, [])]
     else edges_of_rule "genstat" (graph st') = []).
Proof.
  split; [|split; [apply build_variable_returns|apply write_graph_genstat]].
  intros st' H.
  apply build_variable_spec in H
    as (ds & es_variable & vars & es_fix & Hds & _ & _ & [Hg Hr] & Hvar & Hfix).
  cbv zeta in *.
  set (targets := variable_targets (str_of (config st) "vfDir") ds) in *.
  set (stampfile := hd "" targets +:+ ".statstamp") in *.
  pose proof (shape_rule _ "variable" _ _ Hvar (fun _ => eq_refl)) as Rvar.
  pose proof (shape_rule _ "fix" _ _ Hfix (fun _ => eq_refl)) as Rfix.
  eexists ds, _, stampfile. split; [done|]. split; [exact Hg|].
  split; [|split; [|split]].
  - pick_edges. rewrite !(edges_of_rule_builds _ _ _ Rvar), !(edges_of_rule_builds _ _ _ Rfix).
    simpl. rewrite app_nil_r, fmap_shape_outputs, Hvar.
    unfold targets, variable_targets. by rewrite <- !list_fmap_compose.
  - pick_edges. rewrite !(edges_of_rule_builds _ _ _ Rvar), !(edges_of_rule_builds _ _ _ Rfix).
    done.
  - rewrite Hr, elem_of_app. right. apply elem_of_cons. by left.
  - pick_edges. rewrite !(edges_of_rule_builds _ _ _ Rvar), !(edges_of_rule_builds _ _ _ Rfix).
    simpl. exact Hfix.
Qed.

Lemma one_genstat_edge_before_every_fix_edge_witness :
  (∃ st' news stampfile,
     build_variable (Example.collected Example.cfg) = (st', inr tt) ∧
     graph st' = graph (Example.collected Example.cfg) ++ news ∧
     shape <$> edges_of_rule "genstat" news
       = [([stampfile], "genstat", ["../fonts/variable/Family[wdth,wght].ttf"], [])] ∧
     stampfile ∈ recorded st' ∧
     shape <$> edges_of_rule "fix" news
       = [(["../fonts/variable/Family[wdth,wght].ttf" +:+ ".fixstamp"], "fix",
           ["../fonts/variable/Family[wdth,wght].ttf"], [stampfile])]) ∧
  length (edges_of_rule "genstat"
            (graph (write_graph Example.env (Example.fresh Example.cfg)).1)) = 1.
Proof.
  split.
  - destruct (one_genstat_edge_before_every_fix_edge Example.env
                (Example.collected Example.cfg)) as (Hspec & Hret & _).
    destruct Hret as [st' Hrun]; [vm_compute; reflexivity|].
    destruct (Hspec st' Hrun) as (ds & news & stampfile & Hds & Hg & _ & Hgen & Hrec & Hfix).
    injection Hds as <-.
    exists st', news, stampfile. split; [exact Hrun|]. split; [exact Hg|].
    split; [exact Hgen|]. split; [exact Hrec|]. exact Hfix.
  - destruct (one_genstat_edge_before_every_fix_edge Example.env
                (Example.fresh Example.cfg)) as (_ & _ & Hgraph).
    specialize (Hgraph (write_graph Example.env (Example.fresh Example.cfg)).1).
    destruct Hgraph as (ds & stampfile & Hshape); [vm_compute; reflexivity|].
    apply (f_equal length) in Hshape. by rewrite length_fmap in Hshape.
Defined.

(** C2, as amended: when a key of the unsupported-feature set is present
    with a true value, [build] raises [NotImplementedError] from the scan at
    its head: the graph description file is neither opened nor written, and
    nothing but the logger has changed. *)
Theorem unsupported_feature_aborts_before_graph_file env st key :
  key ∈ UNSUPPORTED → enabled (config st) key = true →
  ∃ st',
    build env st = (st', inl (NotImplementedError "")) ∧
    w st' = w st ∧ disk st' = disk st ∧ temporaries st' = temporaries st ∧
    designspaces st' = designspaces st ∧ config st' = config st.
Proof.
  intros Hk He.
  destruct (check_unsupported_aborts st key Hk He) as (key' & _ & _ & Hrun).
  eexists. unfold build. rewrite (bind_raises _ _ _ _ _ Hrun). done.
Qed.

Lemma unsupported_feature_aborts_before_graph_file_witness :
  ∃ st',
    build Example.env (Example.fresh (<["ttfaUseScript" := VBool true]> Example.cfg))
      = (st', inl (NotImplementedError "")) ∧
    w st' = None ∧ "build.ninja" ∉ disk st'.
Proof.
  destruct (unsupported_feature_aborts_before_graph_file Example.env
              (Example.fresh (<["ttfaUseScript" := VBool true]> Example.cfg))
              "ttfaUseScript")
    as (st' & Hrun & Hw & Hd & _); [by apply (bool_decide_unpack _) | vm_compute; reflexivity |].
  exists st'. split; [exact Hrun|]. split; [exact Hw|]. rewrite Hd.
  vm_compute. intros H. discriminate H.
Defined.

(** C2 as it was stated fails: [ttfaUseScript] is a key of the
    unsupported-feature set and is present in the configuration, with the
    value false; [build] does not raise [NotImplementedError], and the graph
    description file is written and closed. *)
Lemma present_unsupported_key_does_not_abort :
  let r := build Example.env (Example.fresh Example.cfg) in
  "ttfaUseScript" ∈ UNSUPPORTED ∧
  Example.cfg !! "ttfaUseScript" = Some (VBool false) ∧
  r.2 ≠ inl (NotImplementedError "") ∧
  "build.ninja" ∈ disk r.1 ∧
  closed <$> w r.1 = Some true ∧
  length (edges (graph r.1)) = 16.
Proof.
  split; [by apply (bool_decide_unpack _)|]. split; [by vm_compute|].
  split; [intros H; vm_compute in H; discriminate H|].
  split; [by vm_compute|]. split; by vm_compute.
Qed.

(** A key that [gen_stat] tests by presence and the scan by truth value,
    present with a false value: the scan lets the build through, and
    [gen_stat] raises [ValueError] when the graph file is open and half
    written. *)
Lemma present_false_stylespace_stops_in_gen_stat :
  let r := build Example.env (Example.fresh (<["stylespaceFile" := VStr ""]> Example.cfg)) in
  r.2 = inl (ValueError "Stylespace files / statFormat4 not supported in Ninja mode") ∧
  "build.ninja" ∈ disk r.1 ∧
  closed <$> w r.1 = Some false ∧
  edges_of_rule "genstat" (graph r.1) = [] ∧
  length (edges_of_rule "variable" (graph r.1)) = 1.
Proof. repeat split; by vm_compute. Qed.

(** C3: a run of [post_process_ttf] on a compiled TTF file that returns has
    emitted exactly one fix edge for the file; with the hinting toggle on,
    its implicit input is the stamp file of the file's hint edge, which is
    emitted too; with the toggle off, it has no implicit input and there is
    no hint edge.  [post_process_ttf] returns whenever it finds what it
    reads. *)
Theorem fix_edge_ordered_after_hint filename st :
  (∀ st', post_process_ttf filename st = (st', inr tt) →
     ∃ news,
       graph st' = graph st ++ news ∧
       shape <$> edges_of_rule "fix" news =
         [([filename +:+ ".fixstamp"], "fix", [filename],
           if enabled (config st) "autohintTTF"
           then [filename +:+ ".autohintstamp"] else [])] ∧
       shape <$> edges_of_rule "autohint" news =
         if enabled (config st) "autohintTTF"
         then [([filename +:+ ".autohintstamp"], "autohint", [filename], [])] else []) ∧
  (writing st = true → post_process_ttf_ready (config st) = true →
   ∃ st', post_process_ttf filename st = (st', inr tt)).
Proof.
  split.
  - intros st' Hrun.
    destruct (post_process_ttf_spec _ _ _ _ Hrun) as (vars & [[Hg _] _]).
    eexists. split; [exact Hg|].
    destruct (enabled (config st) "autohintTTF"), (enabled (config st) "buildWebfont");
      simpl; split; pick_edges; done.
  - intros Hw Hc.
    destruct (post_process_ttf_returns filename st Hw Hc) as (st' & Hrun & _). eauto.
Qed.

Lemma fix_edge_ordered_after_hint_witness :
  ∃ st' news,
    post_process_ttf "Out/Family-Regular.ttf" (Example.collected Example.cfg) = (st', inr tt) ∧
    graph st' = graph (Example.collected Example.cfg) ++ news ∧
    shape <$> edges_of_rule "fix" news =
      [(["Out/Family-Regular.ttf" +:+ ".fixstamp"], "fix", ["Out/Family-Regular.ttf"],
        ["Out/Family-Regular.ttf" +:+ ".autohintstamp"])] ∧
    shape <$> edges_of_rule "autohint" news =
      [(["Out/Family-Regular.ttf" +:+ ".autohintstamp"], "autohint",
        ["Out/Family-Regular.ttf"], [])].
Proof.
  destruct (fix_edge_ordered_after_hint "Out/Family-Regular.ttf"
              (Example.collected Example.cfg)) as [Hspec Hret].
  destruct Hret as [st' Hrun]; [vm_compute; reflexivity | vm_compute; reflexivity |].
  destruct (Hspec st' Hrun) as (news & Hg & Hfix & Hhint).
  exists st', news. split; [exact Hrun|]. split; [exact Hg|]. split; [exact Hfix|exact Hhint].
Defined.

(** C4, at its failing input: with at least one stamp file recorded, the
    loop that tidies up the stamp files raises [AttributeError] at the first
    of them, before looking at the disk: [os] has no member [file].  No stamp
    file is removed. *)
Theorem tidy_up_raises_at_first_stamp st t ts :
  temporaries st = Some (t :: ts) →
  tidy_up st = (st, inl (AttributeError "module 'os' has no attribute 'file'")).
Proof.
  intros Ht. unfold tidy_up, bind at 1, attribute. rewrite Ht. reflexivity.
Qed.

Lemma tidy_up_raises_at_first_stamp_witness :
  let st := set_temporaries (Some ["Out/Family-Regular.ttf.fixstamp"])
              (set_disk (fun _ => {[ "Out/Family-Regular.ttf.fixstamp" ]})
                 (Example.collected Example.cfg)) in
  tidy_up st = (st, inl (AttributeError "module 'os' has no attribute 'file'")) ∧
  "Out/Family-Regular.ttf.fixstamp" ∈ disk (tidy_up st).1.
Proof.
  intros st. split.
  - apply (tidy_up_raises_at_first_stamp st "Out/Family-Regular.ttf.fixstamp" []).
    reflexivity.
  - vm_compute. reflexivity.
Defined.

(** The whole build of the example family ends in that exception, after
    the executor has run, and the stamp files it recorded are still on the
    disk. *)
Lemma build_leaves_stamp_files :
  let r := build Example.env (Example.fresh Example.cfg) in
  r.2 = inl (AttributeError "module 'os' has no attribute 'file'") ∧
  Forall (fun t => t ∈ disk r.1) (recorded r.1) ∧
  length (recorded r.1) = 8.
Proof.
  split; [by vm_compute|]. split; [|by vm_compute].
  apply (bool_decide_unpack _). by vm_compute.
Qed.

(** Where the target has the configured TTF directory in front and [.ttf]
    at the end, and the two replacements of [post_process_ttf] meet nothing
    else ([.ttf] occurs nowhere before the suffix, and the directory nowhere
    behind the prefix once the suffix is [.woff2]), a run of
    [post_process_ttf] with web-font packaging on that returns has emitted
    the web-packaging edge that swapping the prefix and the suffix gives,
    with the stamp of the file's fix edge as implicit input. *)
Lemma webfont_edge_swaps_directory_and_suffix rest st :
  let ttDir := str_of (config st) "ttDir" in
  let woffDir := str_of (config st) "woffDir" in
  let filename := ttDir +:+ rest +:+ ".ttf" in
  enabled (config st) "buildWebfont" = true →
  ttDir ≠ "" →
  Str.contains ".ttf" (ttDir +:+ rest) = false →
  Str.contains ttDir (rest +:+ ".woff2") = false →
  (∀ st', post_process_ttf filename st = (st', inr tt) →
     ∃ news,
       graph st' = graph st ++ news ∧
       shape <$> edges_of_rule "webfont" news =
         [([woffDir +:+ rest +:+ ".woff2"], "webfont", [filename],
           [filename +:+ ".fixstamp"])] ∧
       woffDir +:+ rest +:+ ".woff2" = spec_webfont_filename ttDir woffDir filename ∧
       outputs <$> edges_of_rule "fix" news = [[filename +:+ ".fixstamp"]]) ∧
  (writing st = true → post_process_ttf_ready (config st) = true →
   ∃ st', post_process_ttf filename st = (st', inr tt)).
Proof.
  intros ttDir woffDir filename Hweb Hne Hno1 Hno2. split.
  - intros st' Hrun.
    destruct (post_process_ttf_spec _ _ _ _ Hrun) as (vars & [[Hg _] _]).
    rewrite Hweb in Hg. fold ttDir woffDir in Hg. unfold filename in Hg at 4.
    rewrite replace_directory_and_suffix in Hg by done.
    eexists. split; [exact Hg|]. split; [|split].
    + destruct (enabled (config st) "autohintTTF"); simpl; pick_edges; done.
    + unfold filename. by rewrite spec_webfont_filename_swaps.
    + destruct (enabled (config st) "autohintTTF"); simpl; pick_edges; done.
  - intros Hw Hc.
    destruct (post_process_ttf_returns filename st Hw Hc) as (st' & Hrun & _). eauto.
Qed.

Lemma webfont_edge_swaps_directory_and_suffix_witness :
  ∃ st' news,
    post_process_ttf "../fonts/ttf/Family-Light.ttf"
      (Example.collected Example.cfg) = (st', inr tt) ∧
    graph st' = graph (Example.collected Example.cfg) ++ news ∧
    shape <$> edges_of_rule "webfont" news =
      [(["../fonts/webfonts/Family-Light.woff2"], "webfont",
        ["../fonts/ttf/Family-Light.ttf"],
        ["../fonts/ttf/Family-Light.ttf.fixstamp"])] ∧
    outputs <$> edges_of_rule "fix" news = [["../fonts/ttf/Family-Light.ttf.fixstamp"]].
Proof.
  destruct (webfont_edge_swaps_directory_and_suffix "/Family-Light"
              (Example.collected Example.cfg)) as [Hspec Hret];
    [vm_compute; reflexivity | discriminate | vm_compute; reflexivity
    | vm_compute; reflexivity |].
  destruct Hret as [st' Hrun]; [vm_compute; reflexivity | vm_compute; reflexivity |].
  destruct (Hspec st' Hrun) as (news & Hg & Hweb & _ & Hfix).
  exists st', news. split; [exact Hrun|]. split; [exact Hg|]. split; [exact Hweb|exact Hfix].
Defined.

(** C5, at its failing inputs: [post_process_ttf] replaces every occurrence
    of [.ttf] in the target and then every occurrence of the TTF directory
    as the configuration writes it, wherever they are.  With the directories
    [ttf] and [woff2], the instance [Attfield-Regular.ufo] is compiled to
    [ttf/Attfield-Regular.ttf] and packaged as
    [woff2/Awoff2ield-Regular.woff2]: the letters [ttf] inside the name are
    replaced as well.  With the directories [woff] and [web], the target
    [woff/Light.ttf] is packaged as [web/Light.web2]: the directory is found
    again in the new suffix.  With the directories written [./fonts/ttf] and
    [./fonts/webfonts], the compile target is [fonts/ttf/Light.ttf], in
    which the configured string does not occur: the web font stays in the
    TTF directory.  Each web-packaging edge has the stamp of the file's fix
    edge as implicit input. *)
Theorem webfont_target_replaces_every_occurrence :
  let compiled st ttDir :=
    outputs <$> edges_of_rule "buildttf"
      (graph (build_a_static_format "ttf" (VStr ttDir) post_process_ttf st).1) in
  let packaged st ttDir :=
    shape <$> edges_of_rule "webfont"
      (graph (build_a_static_format "ttf" (VStr ttDir) post_process_ttf st).1) in
  (compiled Example.collected_attfield "ttf" = [["ttf/Attfield-Regular.ttf"]] ∧
   packaged Example.collected_attfield "ttf"
   = [(["woff2/Awoff2ield-Regular.woff2"], "webfont", ["ttf/Attfield-Regular.ttf"],
       ["ttf/Attfield-Regular.ttf.fixstamp"])] ∧
   spec_webfont_filename "ttf" "woff2" "ttf/Attfield-Regular.ttf"
   = "woff2/Attfield-Regular.woff2") ∧
  (compiled (Example.collected Sample.cfg_woff) "woff"
   = [["woff/Light.ttf"]; ["woff/Black.ttf"]] ∧
   packaged (Example.collected Sample.cfg_woff) "woff"
   = [(["web/Light.web2"], "webfont", ["woff/Light.ttf"], ["woff/Light.ttf.fixstamp"]);
      (["web/Black.web2"], "webfont", ["woff/Black.ttf"], ["woff/Black.ttf.fixstamp"])] ∧
   spec_webfont_filename "woff" "web" "woff/Light.ttf" = "web/Light.woff2") ∧
  (compiled (Example.collected Sample.cfg_dotslash) "./fonts/ttf"
   = [["fonts/ttf/Light.ttf"]; ["fonts/ttf/Black.ttf"]] ∧
   packaged (Example.collected Sample.cfg_dotslash) "./fonts/ttf"
   = [(["fonts/ttf/Light.woff2"], "webfont", ["fonts/ttf/Light.ttf"],
       ["fonts/ttf/Light.ttf.fixstamp"]);
      (["fonts/ttf/Black.woff2"], "webfont", ["fonts/ttf/Black.ttf"],
       ["fonts/ttf/Black.ttf.fixstamp"])] ∧
   Path.parent (Path.parse "fonts/ttf/Light.woff2") = Path.parse "./fonts/ttf" ∧
   Path.parent (Path.parse "fonts/ttf/Light.woff2") ≠ Path.parse "./fonts/webfonts").
Proof.
  intros compiled packaged. unfold compiled, packaged.
  split; [|split].
  - split; [by vm_compute|]. split; by vm_compute.
  - split; [by vm_compute|]. split; by vm_compute.
  - split; [by vm_compute|]. split; [by vm_compute|]. split; [by vm_compute|].
    intros H. vm_compute in H. discriminate H.
Qed.

(** C6: a run of the variable-font stage that returns has emitted, for
    each collected designspace, a variable-font edge whose output is, under
    the configured variable-font directory, the designspace's file stem
    followed by [[], the axis tags sorted and joined by commas, []] and the
    extension [.ttf].  The stage returns whenever it finds what it reads. *)
Theorem variable_target_is_stem_and_sorted_tags st :
  (∀ st', build_variable st = (st', inr tt) →
     ∃ ds news,
       designspaces st = Some ds ∧
       graph st' = graph st ++ news ∧
       outputs <$> edges_of_rule "variable" news =
         (fun d => [under (str_of (config st) "vfDir")
                      (Path.stem (Path.parse d.1) +:+ "[" +:+
                       Str.join "," (Str.sorted (tag <$> axes d.2)) +:+ "].ttf")]) <$> ds ∧
       Forall (fun d => Sorted String.le (Str.sorted (tag <$> axes d.2)) ∧
                        Str.sorted (tag <$> axes d.2) ≡ₚ tag <$> axes d.2) ds) ∧
  (build_variable_ready st = true → ∃ st', build_variable st = (st', inr tt)).
Proof.
  split; [|apply build_variable_returns].
  intros st' Hrun.
  destruct (build_variable_targets st st' Hrun) as (ds & news & Hds & Hg & Hout).
  exists ds, news. split; [done|]. split; [done|].
  split; [|apply Forall_forall; intros d _; apply sorted_spec].
  rewrite Hout. unfold variable_targets. rewrite <- list_fmap_compose.
  apply list_fmap_ext. intros i d _. simpl.
  unfold variable_target, axis_tags_of. by rewrite join_under by apply stem_no_leading_slash.
Qed.

Lemma variable_target_is_stem_and_sorted_tags_witness :
  ∃ st' news,
    build_variable (Example.collected Example.cfg) = (st', inr tt) ∧
    graph st' = graph (Example.collected Example.cfg) ++ news ∧
    outputs <$> edges_of_rule "variable" news =
      [[under "../fonts/variable" ("Family" +:+ "[" +:+ "wdth,wght" +:+ "].ttf")]].
Proof.
  destruct (variable_target_is_stem_and_sorted_tags (Example.collected Example.cfg))
    as [Hspec Hret].
  destruct Hret as [st' Hrun]; [vm_compute; reflexivity|].
  destruct (Hspec st' Hrun) as (ds & news & Hds & Hg & Hout & _).
  injection Hds as <-.
  exists st', news. split; [exact Hrun|]. split; [exact Hg|]. exact Hout.
Defined.



(** C8, as amended: with hinting on, a run of [post_process_ttf] on a
    compiled TTF file F that returns has emitted a hint edge whose output is
    F followed by [.autohintstamp] (for [Out/Family-Regular.ttf],
    [Out/Family-Regular.ttf.autohintstamp]); that path is recorded as a
    stamp file and is exactly the implicit input of the fix edge.
    [post_process_ttf] returns whenever it finds what it reads. *)
Theorem hint_stamp_is_autohintstamp filename st :
  enabled (config st) "autohintTTF" = true →
  (∀ st', post_process_ttf filename st = (st', inr tt) →
     ∃ news,
       graph st' = graph st ++ news ∧
       outputs <$> edges_of_rule "autohint" news = [[filename +:+ ".autohintstamp"]] ∧
       implicit <$> edges_of_rule "fix" news = [[filename +:+ ".autohintstamp"]] ∧
       filename +:+ ".autohintstamp" ∈ recorded st') ∧
  (writing st = true → post_process_ttf_ready (config st) = true →
   ∃ st', post_process_ttf filename st = (st', inr tt)).
Proof.
  intros Hhint. split.
  - intros st' Hrun.
    destruct (post_process_ttf_spec _ _ _ _ Hrun) as (vars & [[Hg Hr] _]).
    rewrite Hhint in Hg, Hr.
    eexists. split; [exact Hg|]. split; [|split].
    + destruct (enabled (config st) "buildWebfont"); simpl; pick_edges; done.
    + destruct (enabled (config st) "buildWebfont"); simpl; pick_edges; done.
    + rewrite Hr, elem_of_app. right. apply elem_of_cons. by left.
  - intros Hw Hc.
    destruct (post_process_ttf_returns filename st Hw Hc) as (st' & Hrun & _). eauto.
Qed.

Lemma hint_stamp_is_autohintstamp_witness :
  ∃ st' news,
    post_process_ttf "Out/Family-Regular.ttf" (Example.collected Example.cfg) = (st', inr tt) ∧
    graph st' = graph (Example.collected Example.cfg) ++ news ∧
    outputs <$> edges_of_rule "autohint" news
      = [["Out/Family-Regular.ttf" +:+ ".autohintstamp"]] ∧
    implicit <$> edges_of_rule "fix" news
      = [["Out/Family-Regular.ttf" +:+ ".autohintstamp"]] ∧
    "Out/Family-Regular.ttf" +:+ ".autohintstamp" ∈ recorded st'.
Proof.
  destruct (hint_stamp_is_autohintstamp "Out/Family-Regular.ttf"
              (Example.collected Example.cfg)) as [Hspec Hret]; [vm_compute; reflexivity|].
  destruct Hret as [st' Hrun]; [vm_compute; reflexivity | vm_compute; reflexivity |].
  destruct (Hspec st' Hrun) as (news & Hg & Hout & Himp & Hrec).
  exists st', news. split; [exact Hrun|]. split; [exact Hg|].
  split; [exact Hout|]. split; [exact Himp|exact Hrec].
Defined.

(** C8 as it was stated fails: for [Out/Family-Regular.ttf], with hinting
    on, the output of the hint edge is not
    [Out/Family-Regular.ttf.hintstamp]. *)
Lemma hint_stamp_is_not_hintstamp :
  enabled Example.cfg "autohintTTF" = true ∧
  outputs <$> edges_of_rule "autohint"
    (graph (post_process_ttf "Out/Family-Regular.ttf" (Example.collected Example.cfg)).1)
    = [["Out/Family-Regular.ttf.autohintstamp"]] ∧
  outputs <$> edges_of_rule "autohint"
    (graph (post_process_ttf "Out/Family-Regular.ttf" (Example.collected Example.cfg)).1)
    ≠ [["Out/Family-Regular.ttf" +:+ ".hintstamp"]].
Proof.
  split; [by vm_compute|]. split; [by vm_compute|].
  intros H. vm_compute in H. discriminate H.
Qed.

(** C9: an operation whose target is derived from its instance (its step
    has no [target] of its own) answers an attempt to set a target with a
    [ValueError]; the operation is as it was, and so are its targets. *)
Theorem derived_target_rejects_assignment self target :
  InstantiateUFO.original self !! "target" = None →
  (∃ msg, (InstantiateUFO.set_target target self).2 = inl (ValueError msg)) ∧
  (InstantiateUFO.set_target target self).1 = self ∧
  InstantiateUFO.targets (InstantiateUFO.set_target target self).1
  = InstantiateUFO.targets self ∧
  ∀ self' instance fn,
    InstantiateUFO.relevant_instance self = (self', inr (Some instance)) →
    filename instance = Some fn →
    (InstantiateUFO.targets (InstantiateUFO.set_target target self).1).2
    = inr [if InstantiateUFO.is_glyphs (InstantiateUFO.first_source self')
           then "instance_ufos/" +:+ OsPath.basename fn else fn].
Proof.
  intros Hnone. rewrite set_target_raises. simpl.
  split; [by eexists|]. split; [done|]. split; [done|].
  intros self' instance fn Hrel Hfn. unfold InstantiateUFO.targets.
  rewrite Hnone, Hrel, Hfn.
  by destruct (InstantiateUFO.is_glyphs (InstantiateUFO.first_source self')).
Qed.

Lemma derived_target_rejects_assignment_witness :
  (∃ msg, (InstantiateUFO.set_target "fonts/Other.ufo" Example.instantiate_light).2
          = inl (ValueError msg)) ∧
  (InstantiateUFO.targets
     (InstantiateUFO.set_target "fonts/Other.ufo" Example.instantiate_light).1).2
  = inr ["Light.ufo"].
Proof.
  destruct (derived_target_rejects_assignment Example.instantiate_light "fonts/Other.ufo")
    as (Hraise & _ & _ & Htargets); [reflexivity|].
  split; [exact Hraise|].
  apply (Htargets (InstantiateUFO.relevant_instance Example.instantiate_light).1
           {| name := "Light"; filename := Some "Light.ufo" |} "Light.ufo");
    vm_compute; reflexivity.
Defined.

(** C10: each of the three methods that emit an edge with a stamp output
    ([gen_stat], [post_process], [post_process_ttf]) records, in every run
    that returns, every stamp output it has written; and when the graph has
    been written, every stamp output of the graph is among the recorded
    temporaries. *)
Theorem stamp_outputs_are_recorded env :
  (∀ axis_tags targets, tidy [] (gen_stat axis_tags targets)) ∧
  (∀ file implicit, tidy [] (post_process file implicit)) ∧
  (∀ filename, tidy [] (post_process_ttf filename)) ∧
  (∀ st st', write_graph env st = (st', inr tt) → stamps_recorded st').
Proof.
  split; [intros; apply tidy_gen_stat|].
  split; [intros; apply tidy_post_process|].
  split; [intros; apply tidy_post_process_ttf|].
  apply write_graph_stamps_recorded.
Qed.

Lemma stamp_outputs_are_recorded_witness :
  let st' := (write_graph Example.env (Example.fresh Example.cfg)).1 in
  stamps_recorded st' ∧
  stamp_outputs (graph st')
  = [ "../fonts/variable/Family[wdth,wght].ttf.statstamp";
      "../fonts/variable/Family[wdth,wght].ttf.fixstamp";
      "../fonts/ttf/Light.ttf.autohintstamp"; "../fonts/ttf/Light.ttf.fixstamp";
      "../fonts/ttf/Black.ttf.autohintstamp"; "../fonts/ttf/Black.ttf.fixstamp";
      "../fonts/otf/Light.otf.fixstamp"; "../fonts/otf/Black.otf.fixstamp" ].
Proof.
  intros st'. split; [|by vm_compute].
  destruct (stamp_outputs_are_recorded Example.env) as (_ & _ & _ & Hgraph).
  apply (Hgraph (Example.fresh Example.cfg)). vm_compute. reflexivity.
Defined.

(** * Further properties

    Properties of the builder and of the operation beyond the ones above. *)

(** ** Confined methods: edges of declared rules only *)

Lemma declared_app g1 g2 : declared (g1 ++ g2) = declared g1 ++ declared g2.
Proof. unfold declared. apply omap_app. Qed.

Section confined.
Context {A B : Type} (R : list string).

Lemma confined_same_graph (m : M A) :
  (∀ st st' a, m st = (st', inr a) → graph st' = graph st ∧ config st' = config st) →
  confined R m.
Proof.
  intros Hm st st' a H. destruct (Hm _ _ _ H) as [Hg Hc].
  exists []. rewrite app_nil_r, Hg, Hc. by repeat split.
Qed.

Lemma confined_bind (m : M A) (k : A → M B) :
  confined R m → (∀ a, confined R (k a)) → confined R (bind m k).
Proof.
  intros Hm Hk st st' b H. apply bind_inv in H as (st1 & a & H1 & H2).
  destruct (Hm _ _ _ H1) as (n1 & G1 & D1 & E1 & C1).
  destruct (Hk a _ _ _ H2) as (n2 & G2 & D2 & E2 & C2).
  exists (n1 ++ n2). rewrite G2, G1, app_assoc. split; [done|].
  rewrite declared_app, D1, D2, edges_app. split; [done|].
  split; [by apply Forall_app|].
  intros key Hk'. by rewrite C2, C1.
Qed.

Lemma confined_ret (a : A) : confined R (ret a).
Proof. apply confined_same_graph. by intros st st' a' [= -> _]. Qed.

Lemma confined_raise e : confined R (raise e : M A).
Proof. by intros st st' a. Qed.

Lemma confined_lift (x : exn + A) : confined R (lift x).
Proof. destruct x; [apply confined_raise | apply confined_ret]. Qed.

Lemma confined_if (b : bool) (m1 m2 : M A) :
  confined R m1 → confined R m2 → confined R (if b then m1 else m2).
Proof. by destruct b. Qed.

Lemma confined_attribute attr (f : NinjaBuilder → option A) : confined R (attribute attr f).
Proof. apply confined_same_graph. intros st st' a H. by run_inv H. Qed.
End confined.

Lemma confined_for_each {A} R (l : list A) (body : A → M unit) :
  (∀ x, confined R (body x)) → confined R (for_each l body).
Proof.
  intros Hb. induction l as [|x l IH]; simpl; [apply confined_ret|].
  apply confined_bind; auto.
Qed.

Lemma confined_config_item R key : confined R (config_item key).
Proof. apply confined_same_graph. intros st st' a H. by run_inv H. Qed.

Lemma confined_config_has R key : confined R (config_has key).
Proof. apply confined_same_graph. intros st st' a H. by run_inv H. Qed.

Lemma confined_as_str R v : confined R (as_str v).
Proof. apply confined_same_graph. intros st st' a H. by run_inv H. Qed.

Lemma confined_iterate R v : confined R (iterate v).
Proof. destruct v; first [apply confined_raise | apply confined_ret]. Qed.

Lemma confined_modify R f :
  (∀ st, w (f st) = w st ∧ config (f st) = config st) → confined R (modify f).
Proof.
  intros Hf. apply confined_same_graph. intros st st' a H. run_inv H.
  destruct (Hf st) as [Hw Hc]. unfold graph. by rewrite Hw.
Qed.

Lemma confined_axis_order R v : confined R (modify (set_config (insert "axisOrder" v))).
Proof.
  intros st st' a H. run_inv H. exists []. rewrite app_nil_r.
  split; [done|]. split; [done|]. split; [constructor|].
  intros key Hk. simpl. by rewrite lookup_insert_ne.
Qed.

Lemma confined_temporaries_append R x : confined R (temporaries_append x).
Proof.
  apply confined_same_graph. intros st st' u H.
  apply appends_temporaries_append in H as ([G _] & C & _). by rewrite app_nil_r in G.
Qed.

Lemma confined_write R s :
  declared [s] = [] → Forall (fun e => rule e ∈ R) (edges [s]) → confined R (write s).
Proof.
  intros Hd Hs st st' u H. apply appends_write in H as ([G _] & C & _).
  exists [s]. split; [done|]. split; [done|]. split; [done|]. intros key _. by rewrite C.
Qed.

Lemma confined_w_build R outs r ins imp vars :
  r ∈ R → confined R (w_build outs r ins imp vars).
Proof. intros Hr. apply confined_write; [done|]. by repeat constructor. Qed.

Lemma confined_w_close R : confined R w_close.
Proof.
  apply confined_same_graph. intros st st' u H. unfold w_close in H. run_inv H.
  unfold graph. simpl. by repeat match goal with H : _ = Some _ |- _ => rewrite H end.
Qed.

Ltac confined_step :=
  lazymatch goal with
  | |- confined _ (bind _ _) => apply confined_bind; [|intros ?]
  | |- confined _ (ret _) => apply confined_ret
  | |- confined _ (raise _) => apply confined_raise
  | |- confined _ (lift _) => apply confined_lift
  | |- confined _ (attribute _ _) => apply confined_attribute
  | |- confined _ (config_item _) => apply confined_config_item
  | |- confined _ (config_has _) => apply confined_config_has
  | |- confined _ (as_str _) => apply confined_as_str
  | |- confined _ (iterate _) => apply confined_iterate
  | |- confined _ (modify (set_config (insert "axisOrder" _))) => apply confined_axis_order
  | |- confined _ (modify _) => apply confined_modify; intros ?; split; reflexivity
  | |- confined _ (temporaries_append _) => apply confined_temporaries_append
  | |- confined _ (w_comment _) => apply confined_write; [reflexivity|constructor]
  | |- confined _ w_newline => apply confined_write; [reflexivity|constructor]
  | |- confined _ (w_build _ _ _ _ _) =>
      apply confined_w_build; apply (bool_decide_unpack _); vm_compute; reflexivity
  | |- confined _ (for_each _ _) => apply confined_for_each; intros ?
  | |- confined _ (if ?b then _ else _) => first [apply confined_if | destruct b]
  | |- confined _ (match ?x with _ => _ end) => destruct x
  end.

Lemma confined_get_designspaces env : confined ["glyphs2ufo"] (get_designspaces env).
Proof.
  unfold get_designspaces, get_designspace, designspaces_append,
    os_makedirs_exist_ok, designspace_write.
  repeat confined_step.
Qed.

Lemma confined_fontmake_args R args : confined R (fontmake_args args).
Proof. unfold fontmake_args. repeat confined_step. Qed.

Lemma confined_build_variable_loop ds axis_tags targets :
  confined ["variable"; "genstat"; "fix"] (build_variable_loop ds axis_tags targets).
Proof.
  revert axis_tags targets.
  induction ds as [|[path d] ds IH]; intros axis_tags targets; simpl; [apply confined_ret|].
  repeat confined_step; first [apply confined_fontmake_args | apply IH].
Qed.

Lemma confined_build_variable : confined ["variable"; "genstat"; "fix"] build_variable.
Proof.
  unfold build_variable, gen_stat, post_process.
  repeat confined_step. apply confined_build_variable_loop.
Qed.

Lemma confined_variable_stage :
  confined ["variable"; "genstat"; "fix"]
    (build_variable ;;
     has_vtt <- config_has "vttSources" ;;
     if (has_vtt : bool) then vfDir <- config_item "vfDir" ;; build_vtt vfDir else ret tt).
Proof.
  unfold build_vtt. repeat confined_step. apply confined_build_variable.
Qed.

Lemma rules_declared_first_app seen g1 g2 :
  rules_declared_first seen (g1 ++ g2)
  = rules_declared_first seen g1 && rules_declared_first (rev (declared g1) ++ seen) g2.
Proof.
  revert seen. induction g1 as [|s g1 IH]; intros seen; [done|].
  destruct s as [text| |n c|e]; simpl; rewrite ?IH; try done.
  - unfold declared. simpl. fold (declared g1). by rewrite <- app_assoc.
  - by rewrite andb_assoc.
Qed.

Lemma rules_declared_first_confined seen g :
  declared g = [] → Forall (fun e => rule e ∈ seen) (edges g) →
  rules_declared_first seen g = true.
Proof.
  induction g as [|s g IH]; [done|].
  destruct s as [text| |n c|e]; simpl; intros Hd He; try (by apply IH).
  - discriminate Hd.
  - unfold edges in He. simpl in He. apply Forall_cons in He as [He1 He2].
    rewrite bool_decide_eq_true_2 by done. by apply IH.
Qed.

(** Follow one write of a straight-line method: [E] holds what has been
    written so far. *)
Ltac write_step H E :=
  let s := fresh "s" in
  let Hx := fresh "Hx" in
  let E' := fresh "E" in
  apply bind_inv in H as (s & [] & Hx & H); apply appends_write in Hx;
  pose proof (appends_trans _ _ _ _ _ _ _ E Hx) as E'; clear E Hx; rename E' into E.

(** What [setup_rules] writes: declarations and comments, no edge. *)
Lemma setup_rules_spec st st' u :
  setup_rules st = (st', inr u) →
  ∃ news,
    appends st st' news [] ∧ edges news = [] ∧
    declared news
    = ["glyphs2ufo"] ++ (if enabled (config st) "buildVariable" then ["variable"] else []) ++
      ["instanceufo"; "buildttf"; "buildotf"; "genstat"; "fix"; "autohint"; "webfont"].
Proof.
  intros H. pose proof (appends_refl st) as E.
  unfold setup_rules, w_comment, w_newline, w_rule in H.
  do 4 write_step H E.
  apply bind_inv in H as (s3 & v & Hv & H). apply config_item_inv in Hv as [-> Hv].
  pose proof E as (_ & C & _). rewrite C in Hv. unfold enabled. rewrite Hv. simpl default.
  apply bind_inv in H as (s4 & [] & Hb & H).
  destruct (truthy v).
  - do 1 write_step Hb E. apply appends_write in Hb.
    pose proof (appends_trans _ _ _ _ _ _ _ E Hb) as E'. clear E Hb.
    do 14 write_step H E'. apply appends_write in H.
    pose proof (appends_trans _ _ _ _ _ _ _ E' H) as E. clear E' H.
    simpl in E. eexists. split; [exact E|]. done.
  - apply ret_inv in Hb as [-> _].
    do 14 write_step H E. apply appends_write in H.
    pose proof (appends_trans _ _ _ _ _ _ _ E H) as E'. clear E H.
    simpl in E'. eexists. split; [exact E'|]. done.
Qed.

Lemma elem_of_rev_list {X} (x : X) (l : list X) : x ∈ l → x ∈ rev l.
Proof. rewrite !list_elem_of_In. apply in_rev. Qed.

Lemma rules_declared_first_no_edges seen g :
  edges g = [] → rules_declared_first seen g = true.
Proof.
  revert seen. induction g as [|s g IH]; intros seen; [done|].
  destruct s as [text| |n c|e]; simpl; intros He; try (by apply IH).
  discriminate He.
Qed.

(** X1: in the graph of a build without the static stage, every edge names a
    rule that the graph declares before it, and the graph file is closed. *)
Theorem every_edge_names_a_declared_rule env st st' :
  enabled (config st) "buildStatic" = false →
  write_graph env st = (st', inr tt) →
  rules_declared_first [] (graph st') = true ∧ closed <$> w st' = Some true.
Proof.
  unfold write_graph, open_build_ninja. intros Hs H.
  apply bind_inv in H as (s1 & [] & H1 & H).
  apply bind_inv in H1 as (s0 & [] & H0 & H1).
  apply modify_inv in H0 as ->. apply modify_inv in H1 as ->.
  apply bind_inv in H as (s2 & [] & H2 & H). apply modify_inv in H2 as ->.
  apply bind_inv in H as (s3 & [] & H3 & H).
  apply setup_rules_spec in H3 as (n1 & ([G1 _] & C1 & _) & E1 & D1). simpl in G1, C1, D1.
  apply bind_inv in H as (s4 & [] & H4 & H).
  apply confined_get_designspaces in H4 as (n2 & G2 & D2 & E2 & C2).
  apply bind_inv in H as (s5 & bv & H5 & H). apply config_item_inv in H5 as [-> Hbv].
  rewrite C2, C1 in Hbv by done. rewrite (enabled_lookup _ _ _ Hbv) in D1.
  apply bind_inv in H as (s5 & [] & H5 & H).
  assert (∃ n3, graph s5 = graph s4 ++ n3 ∧ declared n3 = [] ∧
                Forall (fun e => rule e ∈ declared n1) (edges n3) ∧
                ∀ key, key ≠ "axisOrder" → config s5 !! key = config s4 !! key)
    as (n3 & G3 & D3 & E3 & C3).
  { destruct (truthy bv) eqn:Et.
    - apply confined_variable_stage in H5 as (n3 & G3 & D3 & E3 & C3).
      exists n3. split; [done|]. split; [done|]. split; [|done].
      eapply Forall_impl; [exact E3|]. intros e He. rewrite D1. simpl.
      rewrite !elem_of_cons in He. rewrite !elem_of_cons.
      destruct He as [->|[->|[->|He]]]; [tauto..|by apply elem_of_nil in He].
    - apply ret_inv in H5 as [-> _]. exists []. rewrite app_nil_r.
      split; [done|]. split; [done|]. split; [constructor|done]. }
  apply bind_inv in H as (s6 & bs & H6 & H). apply config_item_inv in H6 as [-> Hbs].
  rewrite C3, C2, C1 in Hbs by done. rewrite (enabled_lookup _ _ _ Hbs) in Hs.
  rewrite Hs in H.
  apply bind_inv in H as (s6 & [] & H6 & H). apply ret_inv in H6 as [-> _].
  unfold w_close in H. apply bind_inv in H as (s6 & wr & H6 & H).
  apply attribute_inv in H6 as [-> Hw]. apply modify_inv in H as ->.
  split; [|done].
  assert (graph (set_w (Some {| output := output wr; closed := true |}) s5) = graph s5) as ->
    by (unfold graph; simpl; by rewrite Hw).
  rewrite G3, G2, G1. simpl. rewrite <- app_assoc, rules_declared_first_app.
  rewrite rules_declared_first_no_edges by done. simpl. rewrite app_nil_r.
  apply rules_declared_first_confined; [by rewrite declared_app, D2, D3|].
  rewrite edges_app. apply Forall_app. split.
  - eapply Forall_impl; [exact E2|]. intros e He. apply elem_of_rev_list. rewrite D1.
    apply list_elem_of_singleton in He as ->. apply elem_of_cons. by left.
  - eapply Forall_impl; [exact E3|]. intros e He. by apply elem_of_rev_list.
Qed.

Lemma every_edge_names_a_declared_rule_witness :
  let st := Example.fresh (<["buildStatic" := VBool false]> Example.cfg) in
  (write_graph Example.env st).2 = inr tt ∧
  rules_declared_first [] (graph (write_graph Example.env st).1) = true ∧
  length (edges (graph (write_graph Example.env st).1)) = 3.
Proof.
  intros st. split; [by vm_compute|]. split; [|by vm_compute].
  apply (every_edge_names_a_declared_rule Example.env st); [by vm_compute|].
  by vm_compute.
Defined.

(** ** The scan at the head of [build] *)

(** One round of the scan. *)
Lemma scan_round key rest st :
  for_each (key :: rest) (fun unsupported_key =>
    v <- config_get unsupported_key ;;
    if truthy v then
      logger_error (unsupported_key +:+
        " configuration parameter not supported by ninja builder, " +:+
        "falling back to classic GFBuilder") ;;
      raise (NotImplementedError "")
    else ret tt) st
  = if enabled (config st) key
    then (set_logger (fun l => l ++ [key +:+
            " configuration parameter not supported by ninja builder, " +:+
            "falling back to classic GFBuilder"]) st,
          inl (NotImplementedError ""))
    else for_each rest (fun unsupported_key =>
      v <- config_get unsupported_key ;;
      if truthy v then
        logger_error (unsupported_key +:+
          " configuration parameter not supported by ninja builder, " +:+
          "falling back to classic GFBuilder") ;;
        raise (NotImplementedError "")
      else ret tt) st.
Proof.
  cbn [for_each]. unfold bind at 1. unfold bind at 1.
  unfold config_get, enabled. by destruct (truthy (default VNone (config st !! key))).
Qed.

(** A run of the scan that returns has found no key with a true value and
    has changed nothing. *)
Lemma check_unsupported_inv st st' u :
  check_unsupported st = (st', inr u) →
  st' = st ∧ Forall (fun k => enabled (config st) k = false) UNSUPPORTED.
Proof.
  unfold check_unsupported. generalize UNSUPPORTED. intros keys. revert st' u.
  induction keys as [|k keys IH]; intros st' u.
  - intros [= <-]. by split.
  - rewrite scan_round. destruct (enabled (config st) k) eqn:Hk; [discriminate|].
    intros H. destruct (IH _ _ H) as [-> HF]. split; [done|]. by constructor.
Qed.

(** X2: the scan stops at the first key of [UNSUPPORTED] whose value is true:
    it logs one message, which names that key, and raises; when no key has a
    true value it returns and has changed nothing. *)
Theorem scan_reports_first_true_key st :
  (∀ pre key post,
     UNSUPPORTED = pre ++ key :: post →
     Forall (fun k => enabled (config st) k = false) pre →
     enabled (config st) key = true →
     check_unsupported st
     = (set_logger (fun l => l ++ [key +:+
          " configuration parameter not supported by ninja builder, " +:+
          "falling back to classic GFBuilder"]) st,
        inl (NotImplementedError ""))) ∧
  (∀ st' u, check_unsupported st = (st', inr u) →
     st' = st ∧ Forall (fun k => enabled (config st) k = false) UNSUPPORTED) ∧
  (Forall (fun k => enabled (config st) k = false) UNSUPPORTED →
   check_unsupported st = (st, inr tt)).
Proof.
  split; [|split; [apply check_unsupported_inv|apply check_unsupported_passes]].
  unfold check_unsupported. generalize UNSUPPORTED. intros keys.
  intros pre key post -> Hpre Hkey.
  induction Hpre as [|k pre Hk _ IH]; simpl app; rewrite scan_round.
  - by rewrite Hkey.
  - by rewrite Hk.
Qed.

Lemma scan_reports_first_true_key_witness :
  let st := Example.fresh (<["vttSources" := VMap [("Family.ttf", "Family.ttx")]]>
                            (<["statFormat4" := VOther "[...]" true]> Example.cfg)) in
  logger (check_unsupported st).1
  = ["statFormat4 configuration parameter not supported by ninja builder, falling back to classic GFBuilder"] ∧
  (check_unsupported st).2 = inl (NotImplementedError "") ∧
  check_unsupported (Example.fresh Example.cfg) = (Example.fresh Example.cfg, inr tt).
Proof.
  intros st.
  destruct (scan_reports_first_true_key st) as (Hfirst & _ & _).
  rewrite (Hfirst ["stylespaceFile"] "statFormat4" ["ttfaUseScript"; "vttSources"]);
    [|reflexivity|by repeat constructor|by vm_compute].
  split; [by vm_compute|]. split; [done|].
  destruct (scan_reports_first_true_key (Example.fresh Example.cfg)) as (_ & _ & Hpass).
  apply Hpass. by repeat constructor.
Defined.

(** ** Keys the variable-font stage refuses *)

(** [build_variable] returns only when neither of the keys [gen_stat]
    refuses is present. *)
Lemma build_variable_needs st st' u :
  build_variable st = (st', inr u) →
  has_key (config st) "stylespaceFile" = false ∧
  has_key (config st) "statFormat4" = false.
Proof.
  unfold build_variable. intros H.
  apply bind_inv in H as (s1 & [] & H1 & H). apply appends_write in H1 as (_ & C1 & _).
  apply bind_inv in H as (s2 & [] & H2 & H). apply appends_write in H2 as (_ & C2 & _).
  apply bind_inv in H as (s3 & [] & H3 & H). apply appends_write in H3 as (_ & C3 & _).
  apply bind_inv in H as (s4 & ds & H4 & H). apply attribute_inv in H4 as [-> Hds].
  apply bind_inv in H as (s4 & [axis_tags targets] & H4 & H).
  apply build_variable_loop_spec in H4 as (es & (_ & C4 & _) & _).
  apply bind_inv in H as (s5 & [] & H5 & H). apply appends_write in H5 as (_ & C5 & _).
  apply bind_inv in H as (s6 & tags & H6 & H). apply lift_option_inv in H6 as [-> ->].
  apply bind_inv in H as (s6 & stampfile & H6 & H).
  apply gen_stat_spec in H6 as (_ & _ & _ & _ & _ & _ & _ & _ & Hss & Hf4).
  rewrite C5, C4, C3, C2, C1 in Hss, Hf4. done.
Qed.

(** X3: with the variable-font stage on, a configuration that holds one of the
    keys [stylespaceFile], [statFormat4] and [vttSources], whatever its
    value, is never built: the graph is not completed, so [build] ends with
    the exception of the scan or of the graph writer and the executor is not
    run. *)
Theorem present_key_stops_variable_build env st key :
  key ∈ ["stylespaceFile"; "statFormat4"; "vttSources"] →
  has_key (config st) key = true →
  enabled (config st) "buildVariable" = true →
  (∀ st', write_graph env st ≠ (st', inr tt)) ∧
  (∀ st' r, build env st = (st', r) →
     ∃ e, r = inl e ∧ (check_unsupported ;; write_graph env) st = (st', inl e)).
Proof.
  intros Hkey Hpresent Hvar.
  assert (∀ st', write_graph env st ≠ (st', inr tt)) as Hnever.
  { unfold write_graph, open_build_ninja. intros st' H.
    apply bind_inv in H as (s1 & [] & H1 & H).
    apply bind_inv in H1 as (s0 & [] & H0 & H1).
    apply modify_inv in H0 as ->. apply modify_inv in H1 as ->.
    apply bind_inv in H as (s2 & [] & H2 & H). apply modify_inv in H2 as ->.
    apply bind_inv in H as (s3 & [] & H3 & H).
    apply setup_rules_spec in H3 as (n1 & (_ & C1 & _) & _). simpl in C1.
    apply bind_inv in H as (s4 & [] & H4 & H).
    apply confined_get_designspaces in H4 as (n2 & _ & _ & _ & C2).
    apply bind_inv in H as (s5 & bv & H5 & H). apply config_item_inv in H5 as [-> Hbv].
    rewrite C2, C1 in Hbv by done. rewrite (enabled_lookup _ _ _ Hbv) in Hvar.
    rewrite Hvar in H.
    apply bind_inv in H as (s5 & [] & H5 & _).
    apply bind_inv in H5 as (sv & [] & Hv & H5).
    pose proof (build_variable_needs _ _ _ Hv) as [Hss Hf4].
    unfold has_key in Hss, Hf4, Hpresent. rewrite C2, C1 in Hss, Hf4 by done.
    rewrite !elem_of_cons, elem_of_nil in Hkey.
    destruct Hkey as [->|[->|[->|[]]]]; [congruence|congruence|].
    apply confined_build_variable in Hv as (n3 & _ & _ & _ & C3).
    apply bind_inv in H5 as (sx & has_vtt & Hx & H5).
    apply config_has_inv in Hx as [-> ->].
    rewrite C3, C2, C1 in H5 by done.
    rewrite bool_decide_eq_true_2 in H5 by (by apply bool_decide_eq_true in Hpresent).
    apply bind_inv in H5 as (sy & dir & _ & H5). destruct (raise_inv _ _ _ _ H5). }
  split; [exact Hnever|].
  intros st' r. unfold build.
  change (build env st) with (build env st).
  unfold bind at 1.
  destruct (check_unsupported st) as [s0 [e|[]]] eqn:Hscan.
  - intros [= <- <-]. exists e. split; [done|]. unfold bind. by rewrite Hscan.
  - pose proof (check_unsupported_inv _ _ _ Hscan) as [-> _].
    unfold bind at 1.
    destruct (write_graph env st) as [s1 [e|[]]] eqn:Hgraph.
    + intros [= <- <-]. exists e. split; [done|]. unfold bind. by rewrite Hscan, Hgraph.
    + destruct (Hnever s1 eq_refl).
Qed.

Lemma present_key_stops_variable_build_witness :
  let st := Example.fresh (<["vttSources" := VMap []]> Example.cfg) in
  check_unsupported st = (st, inr tt) ∧
  ∃ e, (build Example.env st).2 = inl e ∧ (write_graph Example.env st).2 = inl e.
Proof.
  intros st. split; [by vm_compute|].
  destruct (present_key_stops_variable_build Example.env st "vttSources") as [_ Hbuild];
    [by apply (bool_decide_unpack _) | by vm_compute | by vm_compute |].
  destruct (build Example.env st) as [st' r] eqn:Hb.
  destruct (Hbuild st' r eq_refl) as (e & -> & Hgraph).
  exists e. split; [done|].
  unfold bind in Hgraph.
  replace (check_unsupported st) with (st, inr tt : exn + unit) in Hgraph by (by vm_compute).
  destruct (write_graph Example.env st) as [s1 [e1|[]]]; [|discriminate Hgraph].
  by injection Hgraph as _ ->.
Defined.

(** ** The [InstantiateUFO] operation *)

Lemma head_filter_inv {X} (P : X → Prop) `{∀ x, Decision (P x)} (l : list X) :
  match head (filter P l) with
  | Some i => ∃ pre post, l = pre ++ i :: post ∧ P i ∧ Forall (fun j => ¬ P j) pre
  | None => Forall (fun j => ¬ P j) l
  end.
Proof.
  induction l as [|x l IH]; [by constructor|].
  rewrite filter_cons. case_decide as Hx; simpl.
  - exists [], l. by repeat split.
  - destruct (head (filter P l)) as [i|].
    + destruct IH as (pre & post & -> & Hi & Hpre).
      exists (x :: pre), post. split; [done|]. split; [done|]. by constructor.
    + by constructor.
Qed.

(** X4: the first access to [relevant_instance] of an operation with
    an instance name answers with the first instance of the source that
    has that name, or with [None] when no instance has it; the answer is
    kept, and a second access gives it again without changing the
    operation. *)
Theorem relevant_instance_is_first_match self desired :
  InstantiateUFO.relevant_instance_cache self = None →
  InstantiateUFO.original self !! "instance_name" = Some desired →
  ∃ self' r,
    InstantiateUFO.relevant_instance self = (self', inr r) ∧
    InstantiateUFO.relevant_instance_cache self' = Some r ∧
    InstantiateUFO.relevant_instance self' = (self', inr r) ∧
    match r with
    | Some i => ∃ pre post,
        InstantiateUFO.file_instances (InstantiateUFO.first_source self) = pre ++ i :: post ∧
        name i = desired ∧ Forall (fun j => name j ≠ desired) pre
    | None =>
        Forall (fun j => name j ≠ desired)
          (InstantiateUFO.file_instances (InstantiateUFO.first_source self))
    end.
Proof.
  intros Hc Hn. unfold InstantiateUFO.relevant_instance at 1. rewrite Hc, Hn.
  eexists _, _. split; [reflexivity|]. split; [reflexivity|]. split; [reflexivity|].
  apply (head_filter_inv (fun i => name i = desired)).
Qed.

Lemma relevant_instance_is_first_match_witness :
  ∃ self',
    InstantiateUFO.relevant_instance Sample.instantiate_bold
    = (self', inr (Some {| name := "Bold";
                           filename := Some "build/instances/Family-Bold.ufo" |})) ∧
    InstantiateUFO.relevant_instance self'
    = (self', inr (Some {| name := "Bold";
                           filename := Some "build/instances/Family-Bold.ufo" |})).
Proof.
  destruct (relevant_instance_is_first_match Sample.instantiate_bold "Bold")
    as (self' & r & Hrun & _ & Hagain & _); [reflexivity | reflexivity |].
  exists self'.
  assert (r = Some {| name := "Bold"; filename := Some "build/instances/Family-Bold.ufo" |})
    as -> by (vm_compute in Hrun; congruence).
  by split.
Defined.

(** X5: an operation that [validate] accepts has an instance
    name; [validate] changes nothing but the slot of the cached instance.
    With a target of its own, [targets] is that target.  Without one, the
    instance was found and is cached, and [targets] is the single target
    derived from its filename, or fails its assertion when the instance has
    no filename, which [validate] does not look at. *)
Theorem validated_operation_has_a_target self self' :
  InstantiateUFO.validate self = (self', inr tt) →
  InstantiateUFO.original self' = InstantiateUFO.original self ∧
  InstantiateUFO.first_source self' = InstantiateUFO.first_source self ∧
  is_Some (InstantiateUFO.original self !! "instance_name") ∧
  match InstantiateUFO.original self !! "target" with
  | Some t => self' = self ∧ InstantiateUFO.targets self' = (self', inr [t])
  | None =>
      ∃ i, InstantiateUFO.relevant_instance_cache self' = Some (Some i) ∧
           InstantiateUFO.targets self'
           = (self', match filename i with
                     | Some fn =>
                         inr [if InstantiateUFO.is_glyphs (InstantiateUFO.first_source self)
                              then "instance_ufos/" +:+ OsPath.basename fn else fn]
                     | None => inl AssertionError
                     end)
  end.
Proof.
  unfold InstantiateUFO.validate.
  destruct (InstantiateUFO.original self !! "instance_name") as [desired|] eqn:Hn;
    [|discriminate].
  destruct (InstantiateUFO.original self !! "target") as [t|] eqn:Ht.
  - intros [= <-]. unfold InstantiateUFO.targets. rewrite Ht. by eauto.
  - unfold InstantiateUFO.relevant_instance.
    destruct (InstantiateUFO.relevant_instance_cache self) as [[i|]|] eqn:Hc.
    + intros [= <-]. split; [done|]. split; [done|]. split; [by eauto|].
      exists i. split; [done|]. unfold InstantiateUFO.targets, InstantiateUFO.relevant_instance.
      rewrite Ht, Hc. by destruct (filename i), (InstantiateUFO.is_glyphs (InstantiateUFO.first_source self)).
    + discriminate.
    + rewrite Hn.
      destruct (head (filter _ _)) as [i|] eqn:Hi; [|discriminate].
      intros [= <-]. simpl. split; [done|]. split; [done|]. split; [by eauto|].
      exists i. split; [done|]. unfold InstantiateUFO.targets, InstantiateUFO.relevant_instance.
      simpl. rewrite Ht. by destruct (filename i), (InstantiateUFO.is_glyphs (InstantiateUFO.first_source self)).
Qed.

Lemma validated_operation_has_a_target_witness :
  InstantiateUFO.validate Example.instantiate_light
  = ((InstantiateUFO.validate Example.instantiate_light).1, inr tt) ∧
  InstantiateUFO.targets (InstantiateUFO.validate Example.instantiate_light).1
  = ((InstantiateUFO.validate Example.instantiate_light).1, inr ["Light.ufo"]).
Proof.
  split; [reflexivity|].
  destruct (validated_operation_has_a_target Example.instantiate_light
              (InstantiateUFO.validate Example.instantiate_light).1 eq_refl)
    as (_ & _ & _ & i & Hc & Ht).
  injection Hc as <-. exact Ht.
Defined.

(** X6: for a Glyphs source and no target of its own, the target
    of the operation is the base name of the instance's filename directly
    under [instance_ufos], whatever directory the filename names; and that is
    the directory [variables] hands to fontmake as [--instance-dir]. *)
Theorem glyphs_instance_goes_to_instance_ufos self self' t :
  InstantiateUFO.is_glyphs (InstantiateUFO.first_source self) = true →
  InstantiateUFO.original self !! "target" = None →
  InstantiateUFO.targets self = (self', inr [t]) →
  (∃ i fn, InstantiateUFO.relevant_instance self = (self', inr (Some i)) ∧
           filename i = Some fn ∧ t = "instance_ufos/" +:+ OsPath.basename fn) ∧
  OsPath.dirname t = "instance_ufos" ∧
  Str.contains "/" (OsPath.basename t) = false ∧
  ∀ super vars,
    (InstantiateUFO.variables super self').2 = inr vars →
    ∃ a, super !! "fontmake_args" = Some a ∧
         vars !! "fontmake_args" = Some (a +:+ "--instance-dir instance_ufos/ ").
Proof.
  intros Hg Ht. unfold InstantiateUFO.targets. rewrite Ht.
  destruct (InstantiateUFO.relevant_instance self) as [s [e|[i|]]] eqn:Hr; try discriminate.
  destruct (filename i) as [fn|] eqn:Hfn; [|discriminate].
  assert (InstantiateUFO.first_source s = InstantiateUFO.first_source self) as Hs.
  { unfold InstantiateUFO.relevant_instance in Hr.
    destruct (InstantiateUFO.relevant_instance_cache self); [by injection Hr as <- _|].
    destruct (InstantiateUFO.original self !! "instance_name"); [|discriminate].
    by injection Hr as <- _. }
  rewrite Hs, Hg. intros [= <- <-].
  split; [by eauto|].
  pose proof (basename_no_slash fn) as Hb.
  split; [|split].
  - change ("instance_ufos/" +:+ OsPath.basename fn)
      with ("instance_ufos" +:+ "/" +:+ OsPath.basename fn).
    by rewrite dirname_app.
  - apply basename_no_slash.
  - intros super vars. unfold InstantiateUFO.variables. rewrite Hs, Hg.
    destruct (super !! "fontmake_args") as [a|]; [|discriminate].
    destruct (InstantiateUFO.original s !! "instance_name") as [n|]; [|discriminate].
    intros [= <-]. exists a. split; [done|].
    rewrite lookup_insert_ne by done. by rewrite lookup_insert_eq.
Qed.

Lemma glyphs_instance_goes_to_instance_ufos_witness :
  InstantiateUFO.targets Sample.instantiate_bold
  = ((InstantiateUFO.targets Sample.instantiate_bold).1, inr ["instance_ufos/Family-Bold.ufo"]) ∧
  OsPath.dirname "instance_ufos/Family-Bold.ufo" = "instance_ufos".
Proof.
  split; [reflexivity|].
  by destruct (glyphs_instance_goes_to_instance_ufos Sample.instantiate_bold
                 (InstantiateUFO.targets Sample.instantiate_bold).1
                 "instance_ufos/Family-Bold.ufo" eq_refl eq_refl eq_refl)
    as (_ & Hdir & _).
Defined.

(** X7: [variables] leaves the operation as it is and returns
    the variables of the base class with [instance_name] set to the
    instance name of the step; for a Glyphs source the routing flag is
    appended to [fontmake_args]; no other variable is touched. *)
Theorem variables_extend_the_base_variables super self self' vars :
  InstantiateUFO.variables super self = (self', inr vars) →
  self' = self ∧
  is_Some (InstantiateUFO.original self !! "instance_name") ∧
  vars !! "instance_name" = InstantiateUFO.original self !! "instance_name" ∧
  (∀ k, k ≠ "instance_name" → k ≠ "fontmake_args" → vars !! k = super !! k) ∧
  if InstantiateUFO.is_glyphs (InstantiateUFO.first_source self)
  then ∃ a, super !! "fontmake_args" = Some a ∧
            vars !! "fontmake_args" = Some (a +:+ "--instance-dir instance_ufos/ ")
  else vars !! "fontmake_args" = super !! "fontmake_args".
Proof.
  unfold InstantiateUFO.variables.
  destruct (InstantiateUFO.is_glyphs (InstantiateUFO.first_source self)).
  - destruct (super !! "fontmake_args") as [a|] eqn:Ha; [|discriminate].
    destruct (InstantiateUFO.original self !! "instance_name") as [n|]; [|discriminate].
    intros [= <- <-]. split; [done|]. split; [by eauto|].
    split; [by rewrite lookup_insert_eq|].
    split; [intros k H1 H2; by rewrite !lookup_insert_ne|].
    exists a. split; [done|]. rewrite lookup_insert_ne by done. by rewrite lookup_insert_eq.
  - destruct (InstantiateUFO.original self !! "instance_name") as [n|]; [|discriminate].
    intros [= <- <-]. split; [done|]. split; [by eauto|].
    split; [by rewrite lookup_insert_eq|].
    split; [intros k H1 H2; by rewrite !lookup_insert_ne|].
    by rewrite lookup_insert_ne.
Qed.

Lemma variables_extend_the_base_variables_witness :
  ∃ vars,
    InstantiateUFO.variables Sample.base_variables Sample.instantiate_bold
    = (Sample.instantiate_bold, inr vars) ∧
    vars !! "instance_name" = Some "Bold" ∧
    vars !! "fontmake_type" = Some "-g" ∧
    vars !! "fontmake_args" = Some "--filter ... --instance-dir instance_ufos/ ".
Proof.
  set (vars := <["instance_name" := "Bold"]>
                 (<["fontmake_args" := "--filter ... --instance-dir instance_ufos/ "]>
                    Sample.base_variables)).
  assert (InstantiateUFO.variables Sample.base_variables Sample.instantiate_bold
          = (Sample.instantiate_bold, inr vars)) as Hrun by reflexivity.
  destruct (variables_extend_the_base_variables _ _ _ _ Hrun)
    as (_ & _ & Hname & Hframe & a & Ha & Hargs).
  exists vars. split; [done|]. split; [exact Hname|].
  split; [by rewrite Hframe|].
  rewrite Hargs. injection Ha as <-. reflexivity.
Defined.


(** ** Edges of the stages *)

(** X8: with no designspace collected (an empty list of sources),
    the variable-font stage raises [UnboundLocalError] for [axis_tags],
    which its loop has not bound, after the four statements of its header:
    no edge is written, no stamp recorded. *)
Theorem build_variable_without_designspaces st :
  writing st = true → designspaces st = Some [] →
  ∃ st',
    build_variable st = (st', inl (UnboundLocalError "axis_tags")) ∧
    graph st' = graph st ++ [Newline; Comment "VARIABLE FONTS"; Newline; Newline] ∧
    recorded st' = recorded st ∧ config st' = config st.
Proof.
  intros (out & ts & Hst)%writing_inv Hds. rewrite Hst. simpl in Hds.
  unfold build_variable. run_forward. rewrite Hds. simpl.
  eexists. split; [reflexivity|]. unfold graph, recorded. simpl.
  by rewrite <- !app_assoc.
Qed.

Lemma build_variable_without_designspaces_witness :
  ∃ st',
    build_variable (building Example.cfg [] [] [] [] ∅)
    = (st', inl (UnboundLocalError "axis_tags")) ∧
    edges (graph st') = [] ∧ recorded st' = [].
Proof.
  destruct (build_variable_without_designspaces (building Example.cfg [] [] [] [] ∅))
    as (st' & Hrun & Hg & Hr & _); [reflexivity | reflexivity |].
  exists st'. split; [exact Hrun|]. rewrite Hg, Hr. by split.
Defined.

(** X9: with hinting on, [post_process_ttf] refuses per-script
    hinting before it writes or records anything; the scan at the head of
    [build] refuses the same configuration, so that in a build the refusal
    does not come from here. *)
Theorem per_script_hinting_is_refused filename st :
  enabled (config st) "autohintTTF" = true →
  enabled (config st) "ttfaUseScript" = true →
  post_process_ttf filename st
  = (st, inl (NotImplementedError "ttaUseScript not supported in ninja mode")) ∧
  ∀ st' u, check_unsupported st ≠ (st', inr u).
Proof.
  unfold enabled. intros Hh Hs. split.
  - destruct (config st !! "autohintTTF") as [h|] eqn:Eh; [|discriminate].
    destruct (config st !! "ttfaUseScript") as [s|] eqn:Es; [|discriminate].
    simpl in Hh, Hs. unfold post_process_ttf. run_forward. done.
  - intros st' u Hrun.
    apply check_unsupported_inv in Hrun as [_ HF]. unfold UNSUPPORTED in HF.
    rewrite !Forall_cons in HF. destruct HF as (_ & _ & Hoff & _).
    unfold enabled in Hoff. congruence.
Qed.

Lemma per_script_hinting_is_refused_witness :
  let st := Example.collected (<["ttfaUseScript" := VBool true]> Example.cfg) in
  post_process_ttf "Out/Family-Regular.ttf" st
  = (st, inl (NotImplementedError "ttaUseScript not supported in ninja mode")).
Proof.
  intros st.
  by destruct (per_script_hinting_is_refused "Out/Family-Regular.ttf" st)
    as [Hrun _]; [by vm_compute | by vm_compute |].
Defined.

(** ** The end of [build] *)

(** The graph of a build with the variable-font stage on and the static
    stage off has a stamp file recorded. *)
Lemma write_graph_variable_records env st s1 :
  enabled (config st) "buildVariable" = true →
  enabled (config st) "buildStatic" = false →
  write_graph env st = (s1, inr tt) →
  ∃ t ts wr, temporaries s1 = Some (t :: ts) ∧ w s1 = Some wr ∧ graph s1 = output wr.
Proof.
  unfold write_graph, open_build_ninja. intros Hvar Hs H.
  apply bind_inv in H as (sa & [] & H1 & H).
  apply bind_inv in H1 as (s0 & [] & H0 & H1).
  apply modify_inv in H0 as ->. apply modify_inv in H1 as ->.
  apply bind_inv in H as (s2 & [] & H2 & H). apply modify_inv in H2 as ->.
  apply bind_inv in H as (s3 & [] & H3 & H).
  apply setup_rules_spec in H3 as (n1 & ([_ R1] & C1 & _) & _). simpl in C1, R1.
  apply bind_inv in H as (s4 & [] & H4 & H).
  pose proof (confined_get_designspaces env _ _ _ H4) as (n2 & _ & _ & _ & C2).
  apply (tidy_get_designspaces [] env) in H4 as (n2' & t2 & [_ R2] & _).
  apply bind_inv in H as (s5 & bv & H5 & H). apply config_item_inv in H5 as [-> Hbv].
  rewrite C2, C1 in Hbv by done. rewrite (enabled_lookup _ _ _ Hbv) in Hvar.
  rewrite Hvar in H.
  apply bind_inv in H as (s5 & [] & H5 & H).
  apply bind_inv in H5 as (sv & [] & Hv & H5).
  pose proof (confined_build_variable _ _ _ Hv) as (n3 & _ & _ & _ & C3).
  apply build_variable_spec in Hv
    as (ds & es_variable & vars & es_fix & _ & _ & _ & [_ R3] & _).
  cbv zeta in R3.
  assert (s5 = sv) as ->.
  { apply bind_inv in H5 as (sx & has_vtt & Hx & H5).
    apply config_has_inv in Hx as [-> _].
    destruct has_vtt; [|by apply ret_inv in H5 as [-> _]].
    apply bind_inv in H5 as (sy & dir & _ & H5). destruct (raise_inv _ _ _ _ H5). }
  apply bind_inv in H as (s6 & bs & H6 & H). apply config_item_inv in H6 as [-> Hbs].
  rewrite C3, C2, C1 in Hbs by done. rewrite (enabled_lookup _ _ _ Hbs) in Hs.
  rewrite Hs in H.
  apply bind_inv in H as (s6 & [] & H6 & H). apply ret_inv in H6 as [-> _].
  unfold w_close in H. apply bind_inv in H as (s6 & wr & H6 & H).
  apply attribute_inv in H6 as [-> Hw]. apply modify_inv in H as ->.
  unfold recorded in R3. simpl.
  destruct (temporaries sv) as [[|t ts]|]; simpl in R3.
  - by destruct (default [] (temporaries s4)).
  - by eexists t, ts, _.
  - by destruct (default [] (temporaries s4)).
Qed.

(** The loop that tidies up returns only when there is nothing to tidy. *)
Lemma tidy_up_inv st st' u : tidy_up st = (st', inr u) → temporaries st = Some [] ∧ st' = st.
Proof.
  unfold tidy_up. intros H. apply bind_inv in H as (s0 & ts & H0 & H).
  apply attribute_inv in H0 as [-> Hts]. destruct ts as [|t ts].
  - by apply ret_inv in H as [-> _].
  - simpl in H. apply bind_inv in H as (s1 & [] & H1 & _).
    apply bind_inv in H1 as (s2 & m & H2 & _). discriminate H2.
Qed.

(** X10: with the variable-font stage on and the static stage off,
    [build] never returns.  When the scan passes, the graph is written and
    the log level is set, [build] runs the executor on the graph and then
    raises [AttributeError] from the loop that tidies up: the graph has
    recorded a stamp file, and no stamp file is removed. *)
Theorem variable_build_does_not_return env st :
  enabled (config st) "buildVariable" = true →
  enabled (config st) "buildStatic" = false →
  (∀ st', build env st ≠ (st', inr tt)) ∧
  (∀ s1 level,
     check_unsupported st = (st, inr tt) →
     write_graph env st = (s1, inr tt) →
     config s1 !! "logLevel" = Some level →
     recorded s1 ≠ [] ∧
     build env st
     = (set_disk (ninja_program env (graph s1)
                    (if decide (level = VStr "DEBUG") then ["-v"; "-j"; "1"] else [])) s1,
        inl (AttributeError "module 'os' has no attribute 'file'"))).
Proof.
  intros Hvar Hs. split.
  - intros st' H. unfold build in H.
    apply bind_inv in H as (s0 & [] & H0 & H). apply check_unsupported_inv in H0 as [-> _].
    apply bind_inv in H as (s1 & [] & H1 & H).
    destruct (write_graph_variable_records _ _ _ Hvar Hs H1) as (t & ts & wr & Ht & Hw & _).
    apply bind_inv in H as (s2 & level & H2 & H). apply config_item_inv in H2 as [-> _].
    apply bind_inv in H as (s2 & [] & H2 & H).
    unfold run_ninja in H2. apply bind_inv in H2 as (s3 & wr' & H3 & H2).
    apply attribute_inv in H3 as [-> _]. apply modify_inv in H2 as ->.
    apply tidy_up_inv in H as [H _]. simpl in H. congruence.
  - intros s1 level Hscan Hgraph Hlevel.
    destruct (write_graph_variable_records _ _ _ Hvar Hs Hgraph) as (t & ts & wr & Ht & Hw & Hg).
    split; [unfold recorded; by rewrite Ht|].
    unfold build. step Hscan. step Hgraph. step (config_item_run _ _ _ Hlevel).
    match goal with |- context [run_ninja env ?args] =>
      assert (run_ninja env args s1
              = (set_disk (ninja_program env (graph s1) args) s1, inr tt)) as Hexec
        by (unfold run_ninja, bind, attribute; by rewrite Hw, Hg)
    end.
    step Hexec. unfold tidy_up, bind at 1, attribute.
    cbn [temporaries set_disk]. rewrite Ht. reflexivity.
Qed.

Lemma variable_build_does_not_return_witness :
  let st := Example.fresh (<["buildStatic" := VBool false]> Example.cfg) in
  (build Example.env st).2 = inl (AttributeError "module 'os' has no attribute 'file'") ∧
  "../fonts/variable/Family[wdth,wght].ttf.statstamp" ∈ disk (build Example.env st).1.
Proof.
  intros st.
  destruct (variable_build_does_not_return Example.env st) as [_ Hrun];
    [by vm_compute | by vm_compute |].
  destruct (Hrun (write_graph Example.env st).1 (VStr "INFO")) as [_ ->];
    [by vm_compute | by vm_compute | by vm_compute |].
  split; [done|]. by vm_compute.
Defined.

(** ** The table-generation edge *)

(** What [gen_stat] writes, records and leaves in the configuration. *)
Lemma gen_stat_full axis_tags targets st st' stampfile :
  gen_stat axis_tags targets st = (st', inr stampfile) →
  ∃ t0 rest,
    targets = t0 :: rest ∧ stampfile = t0 +:+ ".statstamp" ∧
    extends st st'
      [Comment "Generate STAT tables";
       Build (genstat_edge stampfile targets
                [("axis_order",
                  axis_order (config st) axis_tags (default [] (designspaces st)));
                 ("other_args", VStr (stat_args (config st)));
                 ("stampfile", VStr stampfile)]);
       Newline] [stampfile] ∧
    config st'
    = <["axisOrder" := axis_order (config st) axis_tags (default [] (designspaces st))]>
        (config st) ∧
    designspaces st' = designspaces st.
Proof.
  unfold gen_stat. intros H.
  apply bind_inv in H as (s0 & [] & H0 & H). apply appends_write in H0.
  destruct H0 as (E0 & C0 & D0).
  apply bind_inv in H as (s1 & has_order & H1 & H). apply config_has_inv in H1 as [-> ->].
  apply bind_inv in H as (s1 & [] & H1 & H).
  assert (extends s0 s1 [] [] ∧ designspaces s1 = designspaces s0 ∧
          config s1
          = <["axisOrder" := axis_order (config st) axis_tags (default [] (designspaces st))]>
              (config st)) as (E1 & D1 & C1).
  { unfold axis_order. rewrite <- C0, <- D0.
    destruct (config s0 !! "axisOrder") as [v|] eqn:Ho.
    - rewrite bool_decide_eq_true_2 in H1 by eauto. simpl in H1.
      apply ret_inv in H1 as [-> _]. split; [apply extends_refl|]. split; [done|].
      by rewrite insert_id.
    - rewrite bool_decide_eq_false_2 in H1 by (by intros [? ?]). simpl in H1.
      apply bind_inv in H1 as (sa & order & Ha & H1).
      apply ret_inv in Ha as [-> ->].
      apply bind_inv in H1 as (sa & [] & Ha & H1). apply modify_inv in Ha as ->.
      apply bind_inv in H1 as (sb & ds & Hb & H1). apply attribute_inv in Hb as [-> Hds].
      simpl in Hds. rewrite Hds. simpl.
      destruct (any_italic ds).
      + apply modify_inv in H1 as ->.
        split; [unfold extends, graph, recorded; simpl; by rewrite !app_nil_r|].
        split; [done|]. simpl. by rewrite insert_insert_eq.
      + apply ret_inv in H1 as [-> _].
        split; [unfold extends, graph, recorded; simpl; by rewrite !app_nil_r|].
        split; [done|]. simpl. by rewrite app_nil_r. }
  apply bind_inv in H as (s2 & has_stat & H2 & H). apply config_has_inv in H2 as [-> ->].
  apply bind_inv in H as (s2 & other_args & H2 & H).
  assert (s2 = s1 ∧ other_args = stat_args (config st)) as [-> ->].
  { unfold stat_args.
    assert (config s1 !! "stat" = config st !! "stat") as Hstat
      by (rewrite C1; by apply lookup_insert_ne).
    rewrite Hstat in H2. destruct (config st !! "stat") as [stat|] eqn:Hs.
    - rewrite bool_decide_eq_true_2 in H2 by eauto.
      apply bind_inv in H2 as (sa & stat' & Ha & H2).
      apply config_item_inv in Ha as [-> Ha]. rewrite Hstat in Ha. injection Ha as <-.
      by apply ret_inv in H2 as [-> ->].
    - rewrite bool_decide_eq_false_2 in H2 by (by intros [? ?]).
      by apply ret_inv in H2 as [-> ->]. }
  apply bind_inv in H as (s2 & has_ss & H3 & H). apply config_has_inv in H3 as [-> ->].
  apply bind_inv in H as (s2 & has_f4 & H3 & H). apply config_has_inv in H3 as [-> ->].
  apply bind_inv in H as (s2 & [] & H3 & H).
  destruct (bool_decide (is_Some (config s1 !! "stylespaceFile")));
    [destruct (raise_inv _ _ _ _ H3)|].
  destruct (bool_decide (is_Some (config s1 !! "statFormat4")));
    [destruct (raise_inv _ _ _ _ H3)|].
  simpl in H3. apply ret_inv in H3 as [-> _].
  apply bind_inv in H as (s2 & stamp & H3 & H).
  destruct targets as [|t0 rest]; [destruct (raise_inv _ _ _ _ H3)|].
  apply ret_inv in H3 as [-> ->].
  apply bind_inv in H as (s2 & [] & H3 & H). apply appends_temporaries_append in H3.
  destruct H3 as (E3 & C3 & D3).
  apply bind_inv in H as (s3 & order & H4 & H). apply config_item_inv in H4 as [-> Ho].
  rewrite C3, C1, lookup_insert_eq in Ho. injection Ho as <-.
  apply bind_inv in H as (s3 & [] & H4 & H). apply appends_write in H4.
  destruct H4 as (E4 & C4 & D4).
  apply bind_inv in H as (s4 & [] & H5 & H). apply appends_write in H5.
  destruct H5 as (E5 & C5 & D5).
  apply ret_inv in H as [-> ->].
  exists t0, rest. split; [done|]. split; [done|].
  split; [|split; congruence].
  exact (extends_trans _ _ _ _ _ _ _
           (extends_trans _ _ _ _ _ _ _
              (extends_trans _ _ _ _ _ _ _
                 (extends_trans _ _ _ _ _ _ _ E0 E1) E3) E4) E5).
Qed.

(** ** The variable-font stage in full *)

Lemma fontmake_args_output_path target st st' r :
  fontmake_args {[ "output_path" := target ]} st = (st', inr r) →
  st' = st ∧ VStr r = compile_args (config st) target.
Proof.
  unfold fontmake_args. intros H.
  apply bind_inv in H as (s0 & v0 & H0 & H). apply config_item_inv in H0 as [-> Hf].
  apply bind_inv in H as (s0 & v1 & H0 & H). apply config_item_inv in H0 as [-> Hd].
  rewrite (lookup_singleton_ne "output_path" "output_dir") in H by done.
  rewrite lookup_singleton_eq in H.
  apply ret_inv in H as [-> ->]. split; [done|].
  unfold compile_args, filters.
  rewrite (enabled_lookup _ _ _ Hf), (enabled_lookup _ _ _ Hd).
  by destruct (truthy v0), (truthy v1).
Qed.

(** The first loop of [build_variable], with the variables of its edges
    and the tags it leaves in [axis_tags]. *)
Lemma build_variable_loop_full ds : ∀ axis_tags targets st st' r,
  build_variable_loop ds axis_tags targets st = (st', inr r) →
  appends st st'
    (Build <$> ((fun d =>
       let target := variable_target (str_of (config st) "vfDir") d.1 (axis_tags_of d.2) in
       variable_edge target d.1 [("fontmake_args", compile_args (config st) target)]) <$> ds))
    [] ∧
  r.2 = targets ++ variable_targets (str_of (config st) "vfDir") ds ∧
  r.1 = from_option (fun d => Some (axis_tags_of d.2)) axis_tags (last ds).
Proof.
  induction ds as [|[path d] ds IH]; intros axis_tags targets st st' r H; simpl in H.
  - apply ret_inv in H as [-> ->]. simpl. rewrite app_nil_r.
    split; [apply appends_refl|]. done.
  - apply bind_inv in H as (s0 & v & H0 & H). apply config_item_inv in H0 as [-> Hv].
    apply bind_inv in H as (s0 & vfDir & H0 & H). apply as_str_inv in H0 as [-> ->].
    apply bind_inv in H as (s0 & args & H0 & H).
    apply fontmake_args_output_path in H0 as [-> Hargs].
    apply bind_inv in H as (s1 & [] & Hw & H). apply appends_write in Hw.
    apply IH in H as (Ha & Hr & Hl).
    pose proof Hw as (_ & Hcfg & _). rewrite Hcfg in Ha, Hr.
    rewrite (str_of_lookup _ _ _ Hv) in *. rewrite Hargs in Hw.
    split; [exact (appends_trans _ _ _ _ _ _ _ Hw Ha)|].
    split; [by rewrite Hr, <- app_assoc|].
    rewrite Hl. rewrite last_cons. by destruct (last ds).
Qed.

Lemma post_process_full file imp st st' u :
  post_process file imp st = (st', inr u) →
  appends st st'
    [Build (fix_edge file (implicit_arg imp)
              (if enabled (config st) "includeSourceFixes"
               then [("fixargs", VStr "--include-source-fixes")] else []))]
    [file +:+ ".fixstamp"].
Proof.
  unfold post_process. intros H.
  apply bind_inv in H as (s0 & fixes & H0 & H). apply config_item_inv in H0 as [-> Hf].
  rewrite (enabled_lookup _ _ _ Hf).
  apply bind_inv in H as (s1 & [] & Rt & H).
  apply appends_temporaries_append in Rt. apply appends_write in H.
  apply (appends_trans _ _ _ _ _ _ _ Rt H).
Qed.

Lemma for_each_post_process_full imp targets : ∀ st st' u,
  for_each targets (fun t => post_process t imp) st = (st', inr u) →
  appends st st'
    (Build <$> ((fun t => fix_edge t (implicit_arg imp)
                   (if enabled (config st) "includeSourceFixes"
                    then [("fixargs", VStr "--include-source-fixes")] else [])) <$> targets))
    ((fun t => t +:+ ".fixstamp") <$> targets).
Proof.
  induction targets as [|t targets IH]; intros st st' u H; simpl in H.
  - apply ret_inv in H as [-> _]. apply appends_refl.
  - apply bind_inv in H as (s0 & [] & H0 & H).
    apply post_process_full in H0. apply IH in H.
    pose proof H0 as (_ & C & _). rewrite C in H.
    apply (appends_trans _ _ _ _ _ _ _ H0 H).
Qed.

(** Everything a run of [build_variable] that returns has written and
    recorded, and the configuration it leaves. *)
Lemma build_variable_full st st' u :
  build_variable st = (st', inr u) →
  ∃ ds,
    let vfDir := str_of (config st) "vfDir" in
    let targets := variable_targets vfDir ds in
    let stampfile := hd "" targets +:+ ".statstamp" in
    let tags := from_option (fun d => axis_tags_of d.2) "" (last ds) in
    designspaces st = Some ds ∧ ds ≠ [] ∧
    extends st st'
      ([Newline; Comment "VARIABLE FONTS"; Newline] ++
       (Build <$> ((fun d =>
          let target := variable_target vfDir d.1 (axis_tags_of d.2) in
          variable_edge target d.1 [("fontmake_args", compile_args (config st) target)])
          <$> ds)) ++
       [Newline; Comment "Generate STAT tables";
        Build (genstat_edge stampfile targets
                 [("axis_order", axis_order (config st) tags ds);
                  ("other_args", VStr (stat_args (config st)));
                  ("stampfile", VStr stampfile)]);
        Newline; Comment "Variable font post-processing"] ++
       (Build <$> ((fun t => fix_edge t [stampfile]
                      (if enabled (config st) "includeSourceFixes"
                       then [("fixargs", VStr "--include-source-fixes")] else []))
                     <$> targets)))
      (stampfile :: ((fun t => t +:+ ".fixstamp") <$> targets)) ∧
    config st' = <["axisOrder" := axis_order (config st) tags ds]> (config st).
Proof.
  unfold build_variable. intros H.
  apply bind_inv in H as (s1 & [] & H1 & H). apply appends_write in H1.
  apply bind_inv in H as (s2 & [] & H2 & H). apply appends_write in H2.
  apply bind_inv in H as (s3 & [] & H3 & H). apply appends_write in H3.
  pose proof (appends_trans _ _ _ _ _ _ _ (appends_trans _ _ _ _ _ _ _ H1 H2) H3) as A3.
  clear H1 H2 H3. simpl in A3. destruct A3 as (E3 & C3 & D3).
  apply bind_inv in H as (s4 & ds & H4 & H). apply attribute_inv in H4 as [-> Hds].
  apply bind_inv in H as (s4 & [axis_tags targets] & H4 & H).
  apply build_variable_loop_full in H4 as ((E4 & C4 & D4) & Ht & Hl).
  simpl in Ht, Hl. rewrite C3 in E4, Ht. subst targets.
  apply bind_inv in H as (s5 & [] & H5 & H). apply appends_write in H5.
  destruct H5 as (E5 & C5 & D5).
  apply bind_inv in H as (s6 & tags & H6 & H). apply lift_option_inv in H6 as [-> ->].
  assert (ds ≠ []) as Hne by (intros ->; discriminate Hl).
  assert (from_option (fun d => axis_tags_of d.2) "" (last ds) = tags) as Htags.
  { destruct (last ds) as [d|] eqn:Hlast; simpl in *; [congruence|].
    apply last_None in Hlast. done. }
  apply bind_inv in H as (s6 & stampfile & H6 & H).
  apply gen_stat_full in H6 as (t0 & rest & Ht0 & -> & E6 & C6 & D6).
  apply bind_inv in H as (s7 & [] & H7 & H). apply appends_write in H7.
  destruct H7 as (E7 & C7 & D7).
  apply for_each_post_process_full in H as (E8 & C8 & D8).
  rewrite implicit_arg_suffix in E8.
  assert (config s5 = config st) as C by congruence.
  assert (designspaces s5 = Some ds) as D by congruence.
  rewrite C, D in E6, C6. simpl default in E6, C6.
  assert (enabled (config s7) "includeSourceFixes" = enabled (config st) "includeSourceFixes")
    as Hfix.
  { unfold enabled. rewrite C7, C6. by rewrite lookup_insert_ne. }
  rewrite Hfix in E8.
  exists ds. cbv zeta. rewrite Htags.
  assert (hd "" (variable_targets (str_of (config st) "vfDir") ds) = t0) as ->
    by (by rewrite Ht0).
  split; [congruence|]. split; [done|]. split; [|congruence].
  pose proof (extends_trans _ _ _ _ _ _ _
    (extends_trans _ _ _ _ _ _ _
      (extends_trans _ _ _ _ _ _ _
        (extends_trans _ _ _ _ _ _ _
          (extends_trans _ _ _ _ _ _ _ E3 E4) E5) E6) E7) E8) as E.
  rewrite <- !app_assoc in E. exact E.
Qed.





(** The arguments of a compile edge begin with the first filter and end
    with the output path. *)
Lemma compile_args_shape cfg target :
  ∃ between,
    compile_args cfg target
    = VStr ("--filter ..." +:+ between +:+ " --output-path " +:+ target).
Proof.
  unfold compile_args, filters.
  destruct (enabled cfg "flattenComponents"), (enabled cfg "decomposeTransformedComponents").
  - by exists " --filter FlattenComponentsFilter --filter DecomposeTransformedComponentsFilter".
  - by exists " --filter FlattenComponentsFilter".
  - by exists " --filter DecomposeTransformedComponentsFilter".
  - by exists "".
Qed.

Lemma Forall_rule_fmap {X} (f : X → Edge) r0 (l : list X) :
  (∀ x, rule (f x) = r0) → Forall (fun e => rule e = r0) (f <$> l).
Proof. intros Hf. apply Forall_fmap, Forall_forall. intros x _. apply Hf. Qed.

(** X11: a run of the variable-font stage that returns has written,
    for each collected designspace, a variable-font edge from the
    designspace to its target whose only variable is [fontmake_args]: the
    filters of the configuration, then [--output-path] with the edge's own
    output; and for each target a fix edge that carries
    [--include-source-fixes] exactly when the configuration asks for it.
    The stage returns whenever it finds what it reads. *)
Theorem variable_edges_pass_their_own_output st :
  (∀ st', build_variable st = (st', inr tt) →
     ∃ ds news stampfile,
       let vfDir := str_of (config st) "vfDir" in
       designspaces st = Some ds ∧
       graph st' = graph st ++ news ∧
       edges_of_rule "variable" news
       = (fun d =>
            let target := variable_target vfDir d.1 (axis_tags_of d.2) in
            variable_edge target d.1 [("fontmake_args", compile_args (config st) target)])
           <$> ds ∧
       edges_of_rule "fix" news
       = (fun t => fix_edge t [stampfile]
                     (if enabled (config st) "includeSourceFixes"
                      then [("fixargs", VStr "--include-source-fixes")] else []))
           <$> variable_targets vfDir ds) ∧
  (∀ target, ∃ between,
     compile_args (config st) target
     = VStr ("--filter ..." +:+ between +:+ " --output-path " +:+ target)) ∧
  (build_variable_ready st = true → ∃ st', build_variable st = (st', inr tt)).
Proof.
  split; [|split; [apply compile_args_shape|apply build_variable_returns]].
  intros st' H. apply build_variable_full in H as (ds & Hds & _ & [Hg _] & _).
  cbv zeta in *. eexists ds, _, _. split; [done|]. split; [exact Hg|].
  split.
  - pick_edges.
    rewrite (edges_of_rule_builds "variable" "variable") by (by apply Forall_rule_fmap).
    rewrite (edges_of_rule_builds "variable" "fix") by (by apply Forall_rule_fmap).
    simpl. by rewrite app_nil_r.
  - pick_edges.
    rewrite (edges_of_rule_builds "fix" "variable") by (by apply Forall_rule_fmap).
    rewrite (edges_of_rule_builds "fix" "fix") by (by apply Forall_rule_fmap).
    done.
Qed.

Lemma variable_edges_pass_their_own_output_witness :
  ∃ st' news,
    build_variable (Example.collected Example.cfg) = (st', inr tt) ∧
    graph st' = graph (Example.collected Example.cfg) ++ news ∧
    edges_of_rule "variable" news
    = [variable_edge "../fonts/variable/Family[wdth,wght].ttf" "master/Family.designspace"
         [("fontmake_args",
           VStr "--filter ... --filter FlattenComponentsFilter --output-path ../fonts/variable/Family[wdth,wght].ttf")]].
Proof.
  destruct (variable_edges_pass_their_own_output (Example.collected Example.cfg))
    as (Hspec & _ & Hret).
  destruct Hret as [st' Hrun]; [by vm_compute|].
  destruct (Hspec st' Hrun) as (ds & news & stampfile & Hds & Hg & Hvar & _).
  injection Hds as <-.
  exists st', news. split; [exact Hrun|]. split; [exact Hg|]. rewrite Hvar. by vm_compute.
Defined.



(** The head of [gen_stat] run forward: the axis order is in the
    configuration afterwards. *)
Lemma default_axis_order_run axis_tags ds st :
  designspaces st = Some ds →
  ∃ st',
    (if negb (has_key (config st) "axisOrder") then
       order <- lift (from_option inr (inl (ValueError "empty separator"))
                        (Str.split "," axis_tags)) ;;
       modify (set_config (insert "axisOrder" (VSeq order))) ;;
       ds <- attribute "designspaces" designspaces ;;
       if any_italic ds
       then modify (set_config (insert "axisOrder" (VSeq (order ++ ["ital"]))))
       else ret tt
     else ret tt) st = (st', inr tt) ∧
    w st' = w st ∧ temporaries st' = temporaries st ∧
    designspaces st' = designspaces st ∧
    config st' = <["axisOrder" := axis_order (config st) axis_tags ds]> (config st).
Proof.
  intros Hds. unfold axis_order, has_key.
  destruct (config st !! "axisOrder") as [v|] eqn:Ho.
  - rewrite bool_decide_eq_true_2 by eauto. simpl. exists st.
    by rewrite insert_id.
  - rewrite bool_decide_eq_false_2 by (by intros [? ?]). simpl.
    unfold bind at 1. simpl. unfold bind at 1. simpl.
    unfold bind at 1, attribute. simpl. rewrite Hds.
    destruct (any_italic ds); simpl; eexists; (split; [reflexivity|]); simpl;
      (do 3 (split; [done|])).
    + by rewrite insert_insert_eq.
    + by rewrite app_nil_r.
Qed.

(** X13: [gen_stat] refuses the keys [stylespaceFile] and
    [statFormat4] by their presence, whatever their value and whatever the
    targets: it raises [ValueError] when the comment is written and the axis
    order filled in, before any edge is written or stamp recorded. *)
Theorem gen_stat_refuses_by_presence axis_tags targets st :
  writing st = true → is_Some (designspaces st) →
  has_key (config st) "stylespaceFile" || has_key (config st) "statFormat4" = true →
  ∃ st',
    gen_stat axis_tags targets st
    = (st', inl (ValueError "Stylespace files / statFormat4 not supported in Ninja mode")) ∧
    graph st' = graph st ++ [Comment "Generate STAT tables"] ∧
    recorded st' = recorded st ∧
    config st'
    = <["axisOrder" := axis_order (config st) axis_tags (default [] (designspaces st))]>
        (config st).
Proof.
  intros Hw [ds Hds] Hkeys. unfold gen_stat.
  destruct (write_returns (Comment "Generate STAT tables") st Hw) as (s1 & H1 & Hw1).
  pose proof (appends_write _ _ _ _ H1) as ([G1 R1] & C1 & D1).
  unfold w_comment. step H1. step (config_has_run "axisOrder" s1).
  rewrite Hds in D1.
  destruct (default_axis_order_run axis_tags ds s1 D1) as (s2 & H2 & W2 & T2 & D2 & C2).
  step H2. step (config_has_run "stat" s2).
  assert (∃ other_args,
    (if has_key (config s2) "stat"
     then stat <- config_item "stat" ;; ret ("--src " +:+ py_str stat)
     else ret "") s2 = (s2, inr other_args)) as (other_args & H3).
  { destruct (has_key (config s2) "stat") eqn:Hs; [|by eexists].
    apply has_key_lookup in Hs as (stat & Hs).
    rewrite (bind_run _ _ _ _ _ (config_item_run _ _ _ Hs)). by eexists. }
  step H3.
  step (config_has_run "stylespaceFile" s2). step (config_has_run "statFormat4" s2).
  assert (has_key (config s2) "stylespaceFile" = has_key (config st) "stylespaceFile") as ->
    by (unfold has_key; rewrite C2, C1; by rewrite lookup_insert_ne).
  assert (has_key (config s2) "statFormat4" = has_key (config st) "statFormat4") as ->
    by (unfold has_key; rewrite C2, C1; by rewrite lookup_insert_ne).
  rewrite Hkeys. unfold bind at 1. simpl.
  exists s2. split; [reflexivity|].
  unfold graph, recorded in *. rewrite W2, T2, Hds, C2, C1. by rewrite R1, app_nil_r.
Qed.

Lemma gen_stat_refuses_by_presence_witness :
  let st := Example.collected (<["statFormat4" := VSeq []]> Example.cfg) in
  enabled (config st) "statFormat4" = false ∧
  ∃ st',
    gen_stat "wdth,wght" ["../fonts/variable/Family[wdth,wght].ttf"] st
    = (st', inl (ValueError "Stylespace files / statFormat4 not supported in Ninja mode")) ∧
    edges (graph st') = [] ∧
    config st' !! "axisOrder" = Some (VSeq ["wdth"; "wght"]).
Proof.
  intros st. split; [by vm_compute|].
  destruct (gen_stat_refuses_by_presence "wdth,wght"
              ["../fonts/variable/Family[wdth,wght].ttf"] st)
    as (st' & Hrun & Hg & _ & Hc); [by vm_compute | by eexists | by vm_compute |].
  exists st'. split; [exact Hrun|]. rewrite Hg, Hc. split; [done|].
  rewrite lookup_insert_eq. by vm_compute.
Defined.
